(** * IB Economics tutor: the assessment and progress engine

    A shallow embedding of the grading, recommendation and progress
    code of the single-file React application (the heuristic grader
    [scoreShortAnswer], the remote grading adapter [openAIGrade], the two
    [grade] loops, [generateRecommendations] and the progress reducers),
    with the properties stated about them; then the rest of what the
    application computes: the curriculum, [titleForSectionId],
    [assistantReply], the counts of the dashboard and the view and handlers
    of the root component.

    Conventions of the embedding.
    - JavaScript numbers are exact: integers are [Z], the quotients the
      code forms are [Q], and [Math.round] is the floor of [x + 1/2].
      Binary64 rounding, [NaN] and [Infinity] are not represented; the one
      place the code can divide by zero ([points / max] of an assessment
      whose maximum is 0) is made explicit as [None].
    - Strings are sequences of ASCII characters; [toLowerCase] acts on
      [A-Z] only, [\d] is [0-9] and [\s] is the ASCII white space.
    - Objects used as dictionaries are [gmap string _]; where the code
      relies on property order ([Object.entries]) an association list
      is used instead.
    - A thrown exception is [None] in the [option] monad; the remote
      service is an explicit oracle threaded through the loops.

    Where a statement depends on the first two conventions it says so in a
    hypothesis: [ascii_only] for the texts it lowercases or matches,
    [numerals_in_range] for the responses whose numerals [parseFloat] reads
    as finite numbers, a bound of 2^50 where a quotient is rounded. *)

From Stdlib Require Import ZArith QArith Qround Lia Ascii String List.
From stdpp Require Import base option list list_relations sorting strings gmap fin_maps.

Local Open Scope string_scope.
Local Open Scope Z_scope.

(** ** JavaScript primitives *)

Module JS.

Local Open Scope nat_scope.

Definition is_upper (c : ascii) : bool :=
  let n := nat_of_ascii c in (65 <=? n) && (n <=? 90).

(** the class [a-z] *)
Definition is_lower (c : ascii) : bool :=
  let n := nat_of_ascii c in (97 <=? n) && (n <=? 122).

(** the class [\d] *)
Definition is_digit (c : ascii) : bool :=
  let n := nat_of_ascii c in (48 <=? n) && (n <=? 57).

(** the class [\s], restricted to ASCII: TAB, LF, VT, FF, CR, space *)
Definition is_space (c : ascii) : bool :=
  let n := nat_of_ascii c in ((9 <=? n) && (n <=? 13)) || (n =? 32).

Definition is_alpha (c : ascii) : bool := is_upper c || is_lower c.

Definition lower_char (c : ascii) : ascii :=
  if is_upper c then ascii_of_nat (nat_of_ascii c + 32) else c.

(** [s.toLowerCase()] *)
Fixpoint toLowerCase (s : string) : string :=
  match s with
  | EmptyString => EmptyString
  | String c s' => String (lower_char c) (toLowerCase s')
  end.

(** [t.includes(p)]: [p] occurs in [t] as a substring *)
Fixpoint includes (t p : string) : bool :=
  String.prefix p t ||
  match t with
  | EmptyString => false
  | String _ t' => includes t' p
  end.

Fixpoint rev_string (acc s : string) : string :=
  match s with
  | EmptyString => acc
  | String c s' => rev_string (String c acc) s'
  end.

(** [s.split(/[^a-z]+/)]: the pieces of [s] between the maximal runs of
    characters outside [a-z]. [cur] is the piece being read, reversed;
    [in_sep] tells that the previous character belonged to a separator
    run, which the current separator character then only extends. *)
Fixpoint split_from (cur : string) (in_sep : bool) (s : string) : list string :=
  match s with
  | EmptyString => [rev_string EmptyString cur]
  | String c s' =>
      if is_lower c then split_from (String c cur) false s'
      else if in_sep then split_from cur true s'
      else rev_string EmptyString cur :: split_from EmptyString true s'
  end.

Definition split_non_letters (s : string) : list string :=
  split_from EmptyString false s.

(** the truthiness of a string, as [filter(Boolean)] uses it *)
Definition nonempty (s : string) : bool :=
  match s with EmptyString => false | String _ _ => true end.

(** [Math.round] on an exact quotient: round half up *)
Definition Math_round (x : Q) : Z := Qfloor (x + (1 # 2))%Q.

(** [Math.min] on exact quotients *)
Definition Math_min (x y : Q) : Q := if Qle_bool x y then x else y.

(** [x || d] on a number: [0] is falsy *)
Definition or_default (x d : Z) : Z := if (x =? 0)%Z then d else x.

End JS.

(** ** Curriculum data types *)

Inductive QType := mcq | short.

(** [rubric?:{criteria:string[], guidance:string}] of a question *)
Record QRubric := { q_criteria : list string; guidance : string }.

(** The [Question] typedef; the optional fields are options. *)
Record Question := {
  id : string;
  type : QType;
  prompt : string;
  options : option (list string);
  answer : option Z;
  rubric : option QRubric;
  maxScore : Z
}.

(** The object the graders receive as [rubric]: the question's criteria
    together with its [maxScore]. An absent [criteria] behaves as the
    empty array and an absent [maxScore] as [0] (both only meet [||]). *)
Record Rubric := { criteria : list string; r_maxScore : Z }.

(** ** Heuristic grader *)

(** [k.toLowerCase().split(/[^a-z]+/).filter(Boolean)] *)
Definition tokens (k : string) : list string :=
  List.filter JS.nonempty (JS.split_non_letters (JS.toLowerCase k)).

(** [parts.some(p => t.includes(p))] *)
Definition hit (t k : string) : bool :=
  existsb (JS.includes t) (tokens k).

(** The [forEach] body of the scorer: [if (hit) score += 1]. *)
Definition count_hit (t : string) (score : Z) (k : string) : Z :=
  if hit t k then score + 1 else score.

Definition scoreShortAnswer (text : string) (rubric : Rubric) : Z :=
  if negb (JS.nonempty text) then 0
  else
    let t := JS.toLowerCase text in
    let keywords := criteria rubric in
    let score := fold_left (count_hit t) keywords 0 in
    let max := JS.or_default (Z.of_nat (List.length keywords)) 3 in
    let ratio := JS.Math_min (inject_Z score / inject_Z max) 1 in
    let maxScore := JS.or_default (r_maxScore rubric) 3 in
    JS.Math_round (ratio * inject_Z maxScore).

(** ** Remote grading adapter *)

(** The pattern of the score, [(\d+\.?\d* )\s*\/\s*(\d+)] (written here
    with a blank before the first closing parenthesis), and [content.match].
    Every quantifier of the pattern is followed by something its own class
    excludes (a digit run by a non-digit, the white space by the slash), so
    giving back characters never turns a failure into a success: the greedy
    reading below is the whole of the backtracking search at one position. *)
Module Regex.

Fixpoint span_digits (s : string) : string * string :=
  match s with
  | EmptyString => ("", "")
  | String c s' =>
      if JS.is_digit c
      then let '(d, r) := span_digits s' in (String c d, r)
      else ("", s)
  end.

Fixpoint skip_spaces (s : string) : string :=
  match s with
  | EmptyString => ""
  | String c s' => if JS.is_space c then skip_spaces s' else s
  end.

(** A match starting at the first character of [s]: the two groups. *)
Definition match_here (s : string) : option (string * string) :=
  let '(d1, r1) := span_digits s in
  if negb (JS.nonempty d1) then None
  else
    let '(dot, r2) :=
      match r1 with
      | String "."%char r => (".", r)
      | _ => ("", r1)
      end in
    let '(d2, r3) := span_digits r2 in
    match skip_spaces r3 with
    | String "/"%char r4 =>
        let '(d3, _) := span_digits (skip_spaces r4) in
        if negb (JS.nonempty d3) then None
        else Some (d1 +:+ dot +:+ d2, d3)
    | _ => None
    end.

(** [content.match(re)] for a pattern without the [g] flag: the leftmost
    position that matches, [None] for [null]. *)
Fixpoint search (s : string) : option (string * string) :=
  match match_here s with
  | Some m => Some m
  | None =>
      match s with
      | EmptyString => None
      | String _ s' => search s'
      end
  end.

End Regex.

Definition digit_value (c : ascii) : Z := Z.of_nat (nat_of_ascii c) - 48.

Fixpoint digits_value (acc : Z) (s : string) : Z :=
  match s with
  | EmptyString => acc
  | String c s' => digits_value (10 * acc + digit_value c) s'
  end.

(** [parseFloat] on what the pattern captures: an unsigned decimal numeral,
    digits with an optional point and further digits. *)
Definition parseFloat (s : string) : Q :=
  let '(i, r) := Regex.span_digits s in
  match r with
  | String "."%char f =>
      let '(fd, _) := Regex.span_digits f in
      (inject_Z (digits_value 0 i)
       + Qmake (digits_value 0 fd) (Z.to_pos (10 ^ Z.of_nat (String.length fd))))%Q
  | _ => inject_Z (digits_value 0 i)
  end.

(** What the remote service does with one request. *)
Inductive Remote :=
  | Rejected
    (** [fetch] or [res.json()] rejects *)
  | Content (content : string)
    (** [json?.choices?.[0]?.message?.content || ""] is this string *)
  | NotText.
    (** the content is a truthy value that is no string: [content.match]
        throws a [TypeError] inside the [try] *)

Record Graded := { score : Z; g_feedback : string }.

(** the truthiness of [apiKey]: [undefined] and the empty string are falsy *)
Definition has_key (apiKey : option string) : bool :=
  match apiKey with
  | Some k => JS.nonempty k
  | None => false
  end.

Definition heuristic_feedback : string :=
  "Heuristic feedback based on rubric coverage.".
Definition network_feedback : string :=
  "Network error: used heuristic grading.".

Definition openAIGrade (remote : Remote) (prompt answer : string)
    (rubric : Rubric) (apiKey : option string) : Graded :=
  if negb (has_key apiKey) then
    {| score := scoreShortAnswer answer rubric; g_feedback := heuristic_feedback |}
  else
    match remote with
    | Content content =>
        let m := Regex.search content in
        let max := JS.or_default (r_maxScore rubric) 3 in
        let score0 := scoreShortAnswer answer rubric in
        let score :=
          match m with
          | Some (m1, m2) =>
              let got := parseFloat m1 in
              let denom :=
                if Qeq_bool (parseFloat m2) 0 then inject_Z max else parseFloat m2 in
              Z.min (JS.Math_round ((got / denom) * inject_Z max)) max
          | None => score0
          end in
        {| score := score;
           g_feedback := if JS.nonempty content then content else "AI feedback provided." |}
    | Rejected | NotText =>
        {| score := scoreShortAnswer answer rubric; g_feedback := network_feedback |}
    end.

(** ** Assessment engine *)

(** What the answer object holds: an option index or the text typed. *)
Inductive JsVal := VNum (n : Z) | VStr (s : string).

(** [answers[q.id] === q.answer], both sides possibly [undefined] *)
Definition strict_eq (a : option JsVal) (b : option Z) : bool :=
  match a, b with
  | None, None => true
  | Some (VNum n), Some c => n =? c
  | _, _ => false
  end.

(** [answers[q.id] || ""] as the text handed to the grader. A non-zero
    number is truthy and reaches [text.toLowerCase()], which throws on
    every path of [openAIGrade]. *)
Definition answer_text (a : option JsVal) : option string :=
  match a with
  | None => Some ""
  | Some (VStr s) => Some s
  | Some (VNum n) => if n =? 0 then Some "" else None
  end.

(** *** The graders on any argument

    JavaScript checks no type: the loops hand [answers[q.id] || ""] to
    [openAIGrade], a string or a non-zero number, and the scorer calls
    [text.toLowerCase()] on it. Here the answer is any value, a thrown
    exception is [None], and the [try]/[catch] of the adapter is written
    out; on a text both functions are [scoreShortAnswer] and [openAIGrade]
    above. *)

(** [if (!text) return 0; const t = text.toLowerCase(); ...]: [0] and the
    empty string are falsy, and a number has no [toLowerCase]. *)
Definition scoreShortAnswer_any (text : JsVal) (rubric : Rubric) : option Z :=
  match text with
  | VStr s => Some (scoreShortAnswer s rubric)
  | VNum n => if n =? 0 then Some 0 else None
  end.

(** [try { block } catch (e) { handler }] *)
Definition try_catch {A : Type} (block handler : option A) : option A :=
  match block with
  | Some a => Some a
  | None => handler
  end.

(** The first call of the scorer is outside the [try]; the second is
    inside, after the request and the match; the third is in the [catch]. *)
Definition openAIGrade_any (remote : Remote) (prompt : string) (answer : JsVal)
    (rubric : Rubric) (apiKey : option string) : option Graded :=
  if negb (has_key apiKey) then
    s ← scoreShortAnswer_any answer rubric;
    Some {| score := s; g_feedback := heuristic_feedback |}
  else
    try_catch
      (match remote with
       | Rejected => None
       | NotText => None
       | Content content =>
           let m := Regex.search content in
           let max := JS.or_default (r_maxScore rubric) 3 in
           score0 ← scoreShortAnswer_any answer rubric;
           let score :=
             match m with
             | Some (m1, m2) =>
                 let got := parseFloat m1 in
                 let denom :=
                   if Qeq_bool (parseFloat m2) 0 then inject_Z max else parseFloat m2 in
                 Z.min (JS.Math_round ((got / denom) * inject_Z max)) max
             | None => score0
             end in
           Some {| score := score;
                   g_feedback :=
                     if JS.nonempty content then content else "AI feedback provided." |}
       end)
      (s ← scoreShortAnswer_any answer rubric;
       Some {| score := s; g_feedback := network_feedback |}).

(** [answers[q.id] || ""]: the argument the loops pass as [answer] *)
Definition answer_or_empty (a : option JsVal) : JsVal :=
  match a with
  | None => VStr ""
  | Some (VNum n) => if n =? 0 then VStr "" else VNum n
  | Some (VStr s) => VStr s
  end.

(** the [rubric] argument of both loops:
    [{ criteria: q.rubric?.criteria || [], maxScore: q.maxScore }] *)
Definition rubric_of (q : Question) : Rubric :=
  {| criteria := from_option q_criteria [] (rubric q); r_maxScore := maxScore q |}.

(** [Math.round((points / max) * 100)]; [None] when [max] is 0 and the
    quotient is no finite number. *)
Definition percent_of (points max : Z) : option Z :=
  if max =? 0 then None
  else Some (JS.Math_round ((inject_Z points / inject_Z max) * 100)).

(** [for (const q of questions)] with a body that may throw *)
Fixpoint for_of {S : Type} (body : S → Question → option S)
    (st : S) (qs : list Question) : option S :=
  match qs with
  | [] => Some st
  | q :: qs' => st' ← body st q; for_of body st' qs'
  end.

(** The service answers the [n]-th request of a run with [net n]; a
    request is issued only when a key is set. *)
Definition next_call (apiKey : option string) (calls : nat) : nat :=
  if has_key apiKey then S calls else calls.

Module SectionTest.

Record State := {
  points : Z; max : Z; feedback : gmap string string; calls : nat }.

Record Result := { percent : option Z; r_feedback : gmap string string }.

Definition body (answers : gmap string JsVal) (apiKey : option string)
    (net : nat → Remote) (st : State) (q : Question) : option State :=
  let max' := max st + maxScore q in
  match type q with
  | mcq =>
      let correct := strict_eq (answers !! id q) (answer q) in
      Some {| points := points st + (if correct then maxScore q else 0);
              max := max';
              feedback :=
                <[id q := if correct then "Correct"
                          else "Check the definition/mechanism and try again."]>
                  (feedback st);
              calls := calls st |}
  | short =>
      text ← answer_text (answers !! id q);
      let res := openAIGrade (net (calls st)) (prompt q) text (rubric_of q) apiKey in
      Some {| points := points st + score res;
              max := max';
              feedback := <[id q := g_feedback res]> (feedback st);
              calls := next_call apiKey (calls st) |}
  end.

Definition init : State :=
  {| points := 0; max := 0; feedback := ∅; calls := 0%nat |}.

Definition grade (questions : list Question) (answers : gmap string JsVal)
    (apiKey : option string) (net : nat → Remote) : option Result :=
  st ← for_of (body answers apiKey net) init questions;
  Some {| percent := percent_of (points st) (max st); r_feedback := feedback st |}.

End SectionTest.

(** ** The master final exam *)

Definition mcq_question (i p : string) (opts : list string) (a m : Z) : Question :=
  {| id := i; type := mcq; prompt := p; options := Some opts; answer := Some a;
     rubric := None; maxScore := m |}.

Definition short_question (i p : string) (cs : list string) (g : string) (m : Z)
    : Question :=
  {| id := i; type := short; prompt := p; options := None; answer := None;
     rubric := Some {| q_criteria := cs; guidance := g |}; maxScore := m |}.

Definition finalExam : list Question := [
  mcq_question "E1"
    "If a government subsidizes positive externality goods, the likely effect is:"
    ["Lower quantity and higher price"; "Higher quantity and lower effective price";
     "No change in quantity"; "Higher deadweight loss from underconsumption"] 1 1;
  short_question "E2"
    "Using AD–AS, analyze the short-run and potential long-run effects of a large fiscal stimulus during a recession."
    ["AD shift right; output gap closes"; "Inflation/price level effects";
     "Long-run: crowding in/out, LRAS if supply-side";
     "Context on slack and multipliers"]
    "Be balanced; mention conditions." 4;
  mcq_question "E3" "A currency depreciation tends to:"
    ["Worsen net exports immediately with no J-curve";
     "Improve price competitiveness, possibly improving NX";
     "Lower domestic inflation instantly"; "Eliminate current account deficits"] 1 1;
  short_question "E4"
    "Explain with an example how information asymmetry can lead to market failure and one corrective policy."
    ["Mechanism (adverse selection/moral hazard)"; "Concrete example";
     "Policy and limitation"]
    "Used-cars, insurance or labor markets are fine." 4;
  mcq_question "E5" "Which set correctly pairs measure with theme?"
    ["GNI per capita – inflation"; "HDI – health/education/income";
     "PES – demand responsiveness"; "XED – income responsiveness"] 1 1;
  short_question "E6"
    "Evaluate the case for a carbon tax versus tradable permits to address negative production externalities."
    ["Internalization mechanism";
     "Efficiency & certainty trade-off (price vs quantity)";
     "Administrative feasibility & politics"]
    "Reference elasticity/uncertainty." 4;
  mcq_question "E7" "In monopolistic competition, in the long run firms:"
    ["Earn positive economic profit"; "Produce at minimum ATC";
     "Face zero economic profit due to entry"; "Set P=MC"] 2 1;
  short_question "E8"
    "Why might PPP adjustments change rankings of living standards relative to market-exchange-rate comparisons?"
    ["Tradables vs non-tradables prices"; "Balassa-Samuelson intuition";
     "Comparability"]
    "Concise analytical explanation." 3;
  mcq_question "E9"
    "The primary trade-off of a binding minimum wage is between:"
    ["Equity and efficiency (possible unemployment)"; "Inflation and growth";
     "Exports and imports"; "Fiscal and monetary policy"] 0 1;
  short_question "E10"
    "Discuss one reason why expansionary monetary policy may be weak when banks are capital constrained."
    [String.append "Transmission via lending" (String (ascii_of_nat 10) "");
     "Capital adequacy constraints"; "Lending channel impairments"]
    "Mention credit supply frictions." 3;
  mcq_question "E11" "A persistent current account surplus can lead to:"
    ["Currency depreciation"; "Upward pressure on the currency";
     "Immediate recession"; "Falling reserves"] 1 1;
  short_question "E12"
    "Using welfare areas, explain how a tariff affects CS, PS, government revenue, and DWL."
    ["CS falls"; "PS rises"; "Gov revenue rectangles"; "DWL triangles"]
    "Use standard partial-equilibrium analysis." 4
].

(** ** Recommendation engine *)

(** [Array.prototype.sort] with a comparator: a stable sort, here by
    insertion. An element goes before the first one it does not compare
    greater than, so equal elements keep their order. *)
Section Sort.
Context {A : Type} (cmp : A → A → Z).

Fixpoint insert_sorted (x : A) (l : list A) : list A :=
  match l with
  | [] => [x]
  | y :: l' => if cmp x y <=? 0 then x :: y :: l' else y :: insert_sorted x l'
  end.

Definition sort (l : list A) : list A := foldr insert_sorted [] l.
End Sort.

(** A small object whose property order matters: [obj_set] is
    [o[k] = v], which keeps the place of a key already there, and the list
    itself is [Object.entries(o)]. *)
Fixpoint obj_set {V : Type} (k : string) (v : V) (o : list (string * V))
    : list (string * V) :=
  match o with
  | [] => [(k, v)]
  | (k', v') :: o' =>
      if String.eqb k' k then (k, v) :: o' else (k', v') :: obj_set k v o'
  end.

(** The table of the exam questions each section is judged by. *)
Definition section_map : list (string * list string) := [
  ("foundations", ["E2"]);
  ("micro-markets", ["E1"; "E7"]);
  ("micro-failure", ["E6"; "E12"; "E4"]);
  ("macro", ["E2"; "E10"]);
  ("global", ["E3"; "E11"]);
  ("development", ["E5"; "E8"])
].

Record WeakSection := { sectionId : string; ws_score : Z }.

Record Recommendations := {
  overall : option Z;
  weakSections : list WeakSection
}.

(** [perQuestion[id] || 0] *)
Definition awarded (perQuestion : gmap string Z) (i : string) : Z :=
  default 0 (perQuestion !! i).

(** [finalExam.questions.find(q => q.id === id)?.maxScore || 0] *)
Definition max_of (i : string) : Z :=
  from_option maxScore 0 (List.find (λ q, String.eqb (id q) i) finalExam).

(** The body of the loop over the table: one section's score. *)
Definition section_score (perQuestion : gmap string Z) (ids : list string) : Z :=
  let got := fold_left (λ s i, s + awarded perQuestion i) ids 0 in
  let max := fold_left (λ s i, s + max_of i) ids 0 in
  if 0 <? max then JS.Math_round ((inject_Z got / inject_Z max) * 100) else 100.

Definition scoresBySection (perQuestion : gmap string Z) : list (string * Z) :=
  fold_left (λ o '(sec, ids), obj_set sec (section_score perQuestion ids) o)
    section_map [].

Definition generateRecommendations (perQuestion : gmap string Z)
    (percent : option Z) : Recommendations :=
  let weak :=
    map (λ '(k, v), {| sectionId := k; ws_score := v |})
      (take 3
        (sort (λ a b, a.2 - b.2)
          (List.filter (λ '(_, v), v <? 70) (scoresBySection perQuestion)))) in
  {| overall := percent; weakSections := weak |}.

Module FinalExam.

Record State := {
  points : Z; max : Z; perQuestion : gmap string Z; calls : nat }.

Record Result := {
  percent : option Z;
  r_perQuestion : gmap string Z;
  recommendations : Recommendations
}.

Definition body (answers : gmap string JsVal) (apiKey : option string)
    (net : nat → Remote) (st : State) (q : Question) : option State :=
  let max' := max st + maxScore q in
  match type q with
  | mcq =>
      let ok := strict_eq (answers !! id q) (answer q) in
      Some {| points := points st + (if ok then maxScore q else 0);
              max := max';
              perQuestion := <[id q := if ok then maxScore q else 0]> (perQuestion st);
              calls := calls st |}
  | short =>
      text ← answer_text (answers !! id q);
      let res := openAIGrade (net (calls st)) (prompt q) text (rubric_of q) apiKey in
      Some {| points := points st + score res;
              max := max';
              perQuestion := <[id q := score res]> (perQuestion st);
              calls := next_call apiKey (calls st) |}
  end.

Definition init : State :=
  {| points := 0; max := 0; perQuestion := ∅; calls := 0%nat |}.

Definition grade (answers : gmap string JsVal) (apiKey : option string)
    (net : nat → Remote) : option Result :=
  st ← for_of (body answers apiKey net) init finalExam;
  let percent := percent_of (points st) (max st) in
  let recs := generateRecommendations (perQuestion st) percent in
  Some {| percent := percent; r_perQuestion := perQuestion st;
          recommendations := recs |}.

End FinalExam.

(** ** Progress model *)

Record Score := { attempts : Z; best : Z }.

Record Progress := {
  lessonsCompleted : gmap string bool;
  sectionScores : gmap string Score;
  exam : Score
}.

Definition defaultProgress : Progress :=
  {| lessonsCompleted := ∅; sectionScores := ∅;
     exam := {| attempts := 0; best := 0 |} |}.

(** the key [`${currentSection.id}_${currentLesson.id}`] *)
Definition lesson_key (s l : string) : string := s +:+ "_" +:+ l.

(** The updater [markLessonComplete] hands to [setProgress], for the
    current section [s] and lesson [l]. *)
Definition markLessonComplete (s l : string) (p : Progress) : Progress :=
  {| lessonsCompleted := <[lesson_key s l := true]> (lessonsCompleted p);
     sectionScores := sectionScores p;
     exam := exam p |}.

(** [p.sectionScores[s]?.attempts || 0] and [p.sectionScores[s]?.best || 0] *)
Definition attempts_of (p : Progress) (s : string) : Z :=
  JS.or_default (from_option attempts 0 (sectionScores p !! s)) 0.
Definition best_of (p : Progress) (s : string) : Z :=
  JS.or_default (from_option best 0 (sectionScores p !! s)) 0.

(** The updater of [onSectionTestSubmit], for the current section [s]. *)
Definition onSectionTestSubmit (s : string) (percent : Z) (p : Progress) : Progress :=
  {| lessonsCompleted := lessonsCompleted p;
     sectionScores :=
       <[s := {| attempts := attempts_of p s + 1;
                 best := Z.max (best_of p s) percent |}]> (sectionScores p);
     exam := exam p |}.

(** The updater of [onFinalExamSubmit]. *)
Definition onFinalExamSubmit (percent : Z) (p : Progress) : Progress :=
  {| lessonsCompleted := lessonsCompleted p;
     sectionScores := sectionScores p;
     exam := {| attempts := attempts (exam p) + 1;
                best := Z.max (best (exam p)) percent |} |}.

(** * The rest of the application *)

(** ** Curriculum *)

(** the double quote and the line feed, for the texts that hold them *)
Definition dq : string := String (ascii_of_nat 34) "".
Definition nl : string := String (ascii_of_nat 10) "".

(** A text given line by line: the lines joined by line feeds. *)
Definition lines (ls : list string) : string := String.concat nl ls.

(** The [Lesson] and [Section] typedefs. *)
Record Lesson := { lesson_id : string; lesson_title : string; md : string }.

Record Test := { questions : list Question }.

Record CSection := {
  section_id : string;
  section_title : string;
  lessons : list Lesson;
  test : Test
}.

Definition curriculum : list CSection := [
  {| section_id := "foundations";
     section_title := "Foundations: Economic Thinking & Models";
     lessons := [
    {| lesson_id := "scarcity-choice";
       lesson_title := "Scarcity, Choice, and Opportunity Cost";
       md := lines [
        "# Scarcity, Choice, Opportunity Cost";
        "";
        "**Scarcity** means resources are limited while wants are unlimited. Because of scarcity, **choice** is necessary and every choice implies an **opportunity cost**—the next best alternative forgone.";
        "";
        "**Key Ideas**";
        "- Economic goods vs. free goods; factors of production (land, labour, capital, entrepreneurship).";
        "- Production possibilities curve (PPC): shows trade-offs; points inside (inefficiency), on (efficient), outside (unattainable given resources/tech).";
        "- Economic growth shifts the PPC outward (more/better resources, technology).";
        "";
        "**Example**";
        "A government decides between spending on healthcare vs. defense. More of one typically means less of the other today. Investing in education can shift the PPC outward over time by improving labour quality.";
        "";
        "**Practice**";
        "Sketch a simple PPC and label an efficient point, an inefficient point, and a potential growth shift."] |};
    {| lesson_id := "positive-normative";
       lesson_title := "Positive vs Normative & Economic Systems";
       md := lines [
        "# Positive vs Normative & Systems";
        "";
        ("- **Positive statements**: factual, testable (" +:+ dq +:+ "An increase in minimum wage will raise firm costs" +:+ dq +:+ ").");
        ("- **Normative statements**: value judgments (" +:+ dq +:+ "The minimum wage should be higher" +:+ dq +:+ ").");
        "- **Economic systems**: market, command, mixed. Most modern economies are **mixed**, combining market allocation with government intervention.";
        "";
        "**Institutions & Incentives**";
        "Property rights, rule of law, and incentives influence productivity and innovation.";
        "";
        "**Application**";
        "Explain why purely command economies struggle with information and incentives, and how mixed systems try to balance efficiency with equity."] |};
    {| lesson_id := "models-methods";
       lesson_title := "Models, Ceteris Paribus, and Data";
       md := lines [
        "# Models, Ceteris Paribus, and Data";
        "";
        "Economists build simplified **models** to explain/predict outcomes. **Ceteris paribus** (holding other factors constant) helps isolate relationships.";
        "";
        "**Data & Evidence**";
        "Use time series, cross-section, and panel data; beware of correlation vs. causation. Natural experiments and randomized trials (where feasible) improve causal inference.";
        "";
        "**Example**";
        "Evaluating a tax on sugary drinks: compare pre/post consumption while controlling for income changes and substitutes."] |}];
     test := {| questions := [
    mcq_question "f1"
      "Which best defines opportunity cost?"
      ["The total monetary cost of a choice"; "The benefit from all alternatives"; "The value of the next best alternative forgone"; "The utility gained from consumption"] 2 1;
    short_question "f2"
      "Using a PPC, explain how investment in technology affects a country's production possibilities over time."
      ["Outward shift of PPC"; "Link to capital/tech improving productivity"; "Time dimension (long run)"]
      "Mention outward shift, productivity gains, and long-run growth." 3;
    mcq_question "f3"
      "A positive statement is:"
      ["The central bank should cut rates"; "Rent control is unfair"; "Raising taxes reduces disposable income"; "The minimum wage ought to be raised"] 2 1;
    short_question "f4"
      "Contrast market and command systems in terms of information and incentives."
      ["Price signals vs central planning"; "Incentives for efficiency/innovation"; "Equity/coordination trade-offs"]
      "Discuss price signals, incentive alignment, and planning issues." 3;
    mcq_question "f5"
      "Ceteris paribus means:"
      ["After taxes"; "Other things equal"; "Before interest"; "Ignoring opportunity cost"] 1 1] |} |};
  {| section_id := "micro-markets";
     section_title := "Micro I: Competitive Markets & Elasticities";
     lessons := [
    {| lesson_id := "demand-supply";
       lesson_title := "Demand & Supply Basics";
       md := lines [
        "# Demand & Supply";
        "";
        "**Demand**: inverse relation between price and quantity demanded (law of demand), driven by income effect and substitution effect. Shifters: income, tastes, prices of related goods, expectations, number of buyers.";
        "";
        "**Supply**: direct relation between price and quantity supplied (law of supply). Shifters: input costs, technology, taxes/subsidies, expectations, number of sellers.";
        "";
        "**Equilibrium**: where Qd = Qs; surpluses put downward pressure on price; shortages push price up.";
        "";
        "**Applications**: harvest shocks, tech improvements, and policy changes."] |};
    {| lesson_id := "elasticities";
       lesson_title := "Elasticities (PED, PES, XED, YED)";
       md := lines [
        "# Elasticities";
        "";
        "- **Price Elasticity of Demand (PED)**: responsiveness of Qd to price; depends on substitutes, necessity, income share, time horizon.";
        "- **Price Elasticity of Supply (PES)**: responsiveness of Qs; depends on spare capacity, factor mobility, time.";
        "- **Cross Elasticity (XED)**: substitutes (+) vs complements (−).";
        "- **Income Elasticity (YED)**: normal (+) vs inferior (−).";
        "";
        "**Policy**: tax revenue depends on elasticity; with inelastic demand, consumers bear more incidence."] |};
    {| lesson_id := "consumer-producer-surplus";
       lesson_title := "Welfare: Consumer & Producer Surplus";
       md := lines [
        "# Welfare";
        "";
        "**Consumer surplus**: difference between willingness-to-pay and price. **Producer surplus**: price minus marginal cost. Total surplus maximized at competitive equilibrium (ignoring externalities).";
        "";
        "**Shifts** change surpluses; taxes create deadweight loss depending on elasticities."] |}];
     test := {| questions := [
    mcq_question "m1"
      "If PED is elastic (>1), a price increase will:"
      ["Raise total revenue"; "Lower total revenue"; "Not change revenue"; "Increase producer surplus"] 1 1;
    short_question "m2"
      "Explain how the availability of close substitutes affects PED, using an example."
      ["Substitutes increase elasticity"; "Consumer switching rationale"; "Concrete example"]
      "Use a brand vs. generic example or transport modes." 3;
    mcq_question "m3"
      "A positive XED implies:"
      ["Inferior goods"; "Complements"; "Normal goods"; "Substitutes"] 3 1;
    short_question "m4"
      "Why is PES typically more elastic in the long run?"
      ["Time to adjust inputs"; "Capacity/factor mobility"; "Investment response"]
      "Mention planning and capacity expansion." 3;
    mcq_question "m5"
      "At equilibrium in a competitive market:"
      ["CS + PS is maximized (no externalities)"; "There is always a shortage"; "Price equals average cost"; "Government revenue is maximized"] 0 1] |} |};
  {| section_id := "micro-failure";
     section_title := "Micro II: Government, Market Failure, & Firms";
     lessons := [
    {| lesson_id := "intervention";
       lesson_title := "Taxes, Subsidies, and Price Controls";
       md := lines [
        "# Intervention";
        "";
        "- **Indirect taxes** (specific/ad valorem): raise price, reduce Q; incidence depends on elasticities.";
        "- **Subsidies**: lower price to consumers, raise received price for producers; increase Q; fiscal cost.";
        "- **Price ceiling** (max): below equilibrium → shortage, non-price rationing. **Price floor** (min): above equilibrium → surplus, e.g., minimum wages/agricultural supports.";
        "";
        "**Evaluation**: efficiency vs equity trade-offs, unintended consequences."] |};
    {| lesson_id := "failure";
       lesson_title := "Market Failure & Externalities";
       md := lines [
        "# Market Failure";
        "";
        "Types: externalities (consumption/production; positive/negative), public goods (non-rival, non-excludable), common access resources, information asymmetry, market power.";
        "";
        "**Externalities**: MSC/MSB vs MPC/MPB. Taxes for negative externalities; subsidies for positive; permits, standards, nudges.";
        "";
        "**Public goods**: free-rider problem → government provision.";
        "";
        "**Information**: regulation, warranties, signaling/screening."] |};
    {| lesson_id := "firms";
       lesson_title := "Firms, Costs, and Market Structures";
       md := lines [
        "# Firms & Structures";
        "";
        "**Costs**: fixed vs variable; ATC, AVC, MC; short-run vs long-run, economies/diseconomies of scale.";
        "";
        "**Structures**: perfect competition, monopolistic competition, oligopoly, monopoly; pricing power, efficiency, non-price competition; game theory basics (prisoner’s dilemma)."] |}];
     test := {| questions := [
    mcq_question "g1"
      "A binding price ceiling creates:"
      ["Surplus"; "Shortage"; "No change"; "Higher equilibrium price"] 1 1;
    short_question "g2"
      "Using MSC and MPC, explain how a carbon tax can reduce deadweight loss from a negative production externality."
      ["MSC>MPC pre-tax"; "Tax internalizes external cost (MPC→MSC)"; "DWL reduction via moving toward social optimum"]
      "Diagram language acceptable." 3;
    mcq_question "g3"
      "Public goods are characterized by:"
      ["Rivalry and excludability"; "Non-rivalry and non-excludability"; "Non-rivalry and excludability"; "Rivalry and non-excludability"] 1 1;
    short_question "g4"
      "Give one policy to address information asymmetry in used-car markets and evaluate a limitation."
      ["Policy named (warranty, inspection, disclosure)"; "Mechanism explained"; "Limitation/offset"]
      "Be specific." 3;
    mcq_question "g5"
      "In the long run, economies of scale typically:"
      ["Raise ATC"; "Lower ATC up to a point"; "Have no effect"; "Guarantee monopoly"] 1 1] |} |};
  {| section_id := "macro";
     section_title := "Macroeconomics: AD/AS, Objectives, and Policy Mix";
     lessons := [
    {| lesson_id := "adas";
       lesson_title := "Aggregate Demand & Supply";
       md := lines [
        "# AD & AS";
        "";
        "**AD** = C + I + G + (X−M). Shifts: income, confidence, interest rates, fiscal stance, external demand. **AS** (SRAS/LRAS) driven by costs/productivity and potential output.";
        "";
        "**Gaps**: recessionary vs inflationary; output vs price-level effects.";
        "";
        "**Shocks**: supply shocks (oil), demand shocks (housing/credit)."] |};
    {| lesson_id := "objectives";
       lesson_title := "Macro Objectives";
       md := lines [
        "# Objectives";
        "";
        "Growth, low and stable inflation, low unemployment, external balance, income distribution. Trade-offs (e.g., Phillips curve short-run)."] |};
    {| lesson_id := "policy";
       lesson_title := "Policy Toolkit: Fiscal, Monetary, Supply-side";
       md := lines [
        "# Policies";
        "";
        "**Fiscal**: government spending/taxes; multipliers; crowding out (context-specific). **Monetary**: interest rates, open-market ops; lags. **Supply-side**: education, R&D, labour market reforms; time horizons differ.";
        "";
        "**Evaluation**: depends on output gaps, expectations, constraints."] |}];
     test := {| questions := [
    mcq_question "ma1"
      "An increase in interest rates is most likely to:"
      ["Raise investment"; "Lower investment and AD"; "Raise government spending"; "Increase net exports"] 1 1;
    short_question "ma2"
      "Explain how a negative supply shock affects inflation and output in the short run."
      ["SRAS leftward shift"; "Higher price level (cost-push)"; "Lower output (stagflation risk)"]
      "Use AD–AS language." 3;
    mcq_question "ma3"
      "Which is a supply-side policy?"
      ["Cutting VAT temporarily"; "Lowering the policy rate"; "Apprenticeship and training subsidies"; "One-off stimulus cheques"] 2 1;
    short_question "ma4"
      "Under what conditions might expansionary fiscal policy be more effective than monetary policy?"
      ["Liquidity trap/zero lower bound"; "Weak monetary transmission"; "High fiscal multipliers"]
      "Relate to expectations and slack." 3;
    mcq_question "ma5"
      "The components of AD are:"
      ["C+S+T+G"; "C+I+G+(X−M)"; "W+R+I+P"; "Y=C+S+T"] 1 1] |} |};
  {| section_id := "global";
     section_title := "Global Economy: Trade, Exchange Rates, and BoP";
     lessons := [
    {| lesson_id := "trade-theory";
       lesson_title := "Trade Theory & Protection";
       md := lines [
        "# Trade Theory & Protection";
        "";
        "**Comparative advantage** drives gains from specialization and trade.";
        "";
        "**Protection**: tariffs, quotas, subsidies—motives include infant industry, strategic sectors, anti-dumping; costs include DWL, retaliation, consumer loss.";
        "";
        "**WTO**: rules-based system; exceptions exist (safeguards)."] |};
    {| lesson_id := "fx";
       lesson_title := "Exchange Rates & Policies";
       md := lines [
        "# Exchange Rates";
        "";
        "Demand/supply of a currency in FX markets; factors: interest rate differentials, trade balance, expectations. **Regimes**: fixed, managed float, freely floating.";
        "";
        "**Policies**: reserves intervention, capital controls (rare in IB contexts)."] |};
    {| lesson_id := "bop";
       lesson_title := "Balance of Payments & ToT";
       md := lines [
        "# BoP & Terms of Trade";
        "";
        "**BoP**: current account (goods, services, income, transfers), capital/financial account.";
        "";
        "**Terms of Trade (ToT)**: index of export prices relative to import prices; implications for income and sustainability, especially for primary-commodity exporters."] |}];
     test := {| questions := [
    mcq_question "gl1"
      "A tariff generally:"
      ["Raises consumer surplus"; "Lowers domestic price"; "Creates deadweight loss"; "Has no effect on imports"] 2 1;
    short_question "gl2"
      "Explain two factors that can cause a currency to appreciate in a floating regime."
      ["Higher interest rates/capital inflows"; "Stronger net exports/terms of trade"; "Expectations/confidence"]
      "Name any two and explain." 3;
    mcq_question "gl3"
      "The current account includes:"
      ["FDI inflows"; "Portfolio flows"; "Goods and services trade"; "Official reserves transactions"] 2 1;
    short_question "gl4"
      "What are the consequences of a persistent current account deficit?"
      ["External debt/financing need"; "Exchange rate pressure"; "Adjustment via policy or income"]
      "Short and specific." 3;
    mcq_question "gl5"
      "An improvement in ToT means:"
      ["Export prices fall relative to imports"; "Import prices rise faster than exports"; "Export prices rise relative to imports"; "No real income effect"] 2 1] |} |};
  {| section_id := "development";
     section_title := "Development Economics: Measures & Strategies";
     lessons := [
    {| lesson_id := "measures";
       lesson_title := "Measuring Development";
       md := lines [
        "# Measuring Development";
        "";
        "Beyond GDP: **GNI per capita**, **PPP**, **Human Development Index (HDI)**, multidimensional poverty, inequality (Gini).";
        "";
        "**Limitations**: data quality, non-market activity, distribution, sustainability."] |};
    {| lesson_id := "strategies";
       lesson_title := "Strategies: Markets, Intervention, and Institutions";
       md := lines [
        "# Strategies";
        "";
        "**Market-led**: trade liberalization, microfinance, property rights. **Interventionist**: public goods, health/education, industrial policy.";
        "";
        "**Institutions**: rule of law, governance, corruption control, infrastructure.";
        "";
        "**Evaluation**: context matters; sequencing and capacity are crucial."] |};
    {| lesson_id := "aid-debt";
       lesson_title := "Aid, Debt, and Sustainability";
       md := lines [
        "# Aid, Debt, Sustainability";
        "";
        "**Aid**: humanitarian vs development; tied vs untied; effectiveness debates. **Debt**: burden, restructuring; **Sustainability**: SDGs, environmental constraints.";
        "";
        "**Case Lens**: commodity dependence and vulnerability to shocks."] |}];
     test := {| questions := [
    mcq_question "dv1"
      "HDI combines:"
      ["Income, inflation, unemployment"; "Income, health, education"; "GDP, Gini, life expectancy"; "GNI, FX reserves, literacy"] 1 1;
    short_question "dv2"
      "Explain why PPP adjustments are useful when comparing living standards across countries."
      ["Price level differences"; "Real purchasing power"; "Cross-country comparability"]
      "Mention tradables vs non-tradables effects." 3;
    mcq_question "dv3"
      "A potential drawback of tied aid is:"
      ["Higher efficiency"; "Greater choice for recipients"; "Lower cost to donors"; "Distortion toward donor goods/services"] 3 1;
    short_question "dv4"
      "Give one institutional reform that can promote development and explain the channel."
      ["Specific reform (property rights, judiciary, anti-corruption)"; "Mechanism for investment/productivity"; "Feasibility or constraint"]
      "One solid example suffices." 3;
    mcq_question "dv5"
      "Commodity dependence often implies:"
      ["Lower volatility"; "Stable export revenues"; "Exposure to terms-of-trade shocks"; "Faster diversification"] 2 1] |} |}
].

(** [(curriculum.find(s => s.id === id)?.title) || id] *)
Definition titleForSectionId (i : string) : string :=
  match List.find (λ s, String.eqb (section_id s) i) curriculum with
  | Some s => if JS.nonempty (section_title s) then section_title s else i
  | None => i
  end.

(** ** The tutor *)

Definition hints : list string := [
  "Start by defining key terms in the question.";
  "Sketch a quick diagram if relevant (PPC, AD–AS, MSC/MPC).";
  "State the direction of shifts and the intuition before calculation.";
  "Conclude with a brief evaluation: assumptions, time horizon, stakeholders."
].

(** What [assistantReply] resolves to: a text, or, when the service sends
    a truthy content that is no string, that content as it came. *)
Inductive Reply := Said (text : string) | Raw.

Definition assistantReply (remote : Remote) (apiKey : option string)
    (context question : string) : Reply :=
  if negb (has_key apiKey) then
    Said ("Here are some nudges:" +:+ nl +:+ "• "
          +:+ String.concat (nl +:+ "• ") hints +:+ nl
          +:+ "If you share your attempt, I can pinpoint what to adjust.")
  else
    match remote with
    | Content content =>
        Said (if JS.nonempty content then content else "(No response)")
    | NotText => Raw
    | Rejected =>
        Said "I had trouble reaching the AI service, so here are heuristics: define terms, diagram, explain the mechanism, then evaluate trade-offs."
    end.

(** ** The dashboard *)

Module Dashboard.

(** [progress.sectionScores[s.id]?.best ?? 0] *)
Definition best (s : CSection) (p : Progress) : Z :=
  from_option best 0 (sectionScores p !! section_id s).

(** the truthiness of [progress.lessonsCompleted[key]] *)
Definition completed (s : CSection) (p : Progress) (L : Lesson) : bool :=
  match lessonsCompleted p !! lesson_key (section_id s) (lesson_id L) with
  | Some b => b
  | None => false
  end.

Definition completedLessons (s : CSection) (p : Progress) : Z :=
  Z.of_nat (List.length (List.filter (completed s p) (lessons s))).

(** [Math.round((completedLessons / s.lessons.length) * 100)] *)
Definition percentLessons (s : CSection) (p : Progress) : option Z :=
  percent_of (completedLessons s p) (Z.of_nat (List.length (lessons s))).

End Dashboard.

(** ** The root component: view and handlers *)

Inductive Mode := m_home | m_section | m_test | m_exam | m_dashboard | m_settings.

Record View := { mode : Mode; sectionIndex : Z; lessonIndex : Z }.

Record Settings := { apiKey : option string; name : string }.

(** The state of the root component. *)
Record App := {
  progress : Progress;
  settings : Settings;
  view : View;
  tutorOpen : bool
}.

(** [a[i]] for an index that is an integer *)
Definition array_get {A : Type} (a : list A) (i : Z) : option A :=
  if i <? 0 then None else a !! Z.to_nat i.

(** [curriculum[view.sectionIndex]] *)
Definition currentSection (v : View) : option CSection :=
  array_get curriculum (sectionIndex v).

(** [currentSection?.lessons?.[view.lessonIndex]] *)
Definition currentLesson (v : View) : option Lesson :=
  s ← currentSection v; array_get (lessons s) (lessonIndex v).

Definition set_view (f : View → View) (a : App) : App :=
  {| progress := progress a; settings := settings a; view := f (view a);
     tutorOpen := tutorOpen a |}.

Definition set_progress (f : Progress → Progress) (a : App) : App :=
  {| progress := f (progress a); settings := settings a; view := view a;
     tutorOpen := tutorOpen a |}.

(** [v => ({ ...v, mode: m })] *)
Definition with_mode (m : Mode) (v : View) : View :=
  {| mode := m; sectionIndex := sectionIndex v; lessonIndex := lessonIndex v |}.

(** What the user can do, as the handlers receive it. [Select i] comes from
    the sidebar and the home page, with the position [i] of a section. *)
Inductive Event :=
  | OpenHome | Nav | OpenDashboard | OpenExam | OpenSettings
  | Select (i : nat)
  | Prev | Next | OpenTest | CancelTest
  | MarkLessonComplete
  | SectionTestSubmit (percent : Z)
  | FinalExamSubmit (percent : Z)
  | SaveSettings (s : Settings)
  | ToggleTutor.

Module IbEconTutor.

(** the state after [useState], given what [loadLS] returned *)
Definition init (p : Progress) (s : Settings) : App :=
  {| progress := p; settings := s;
     view := {| mode := m_home; sectionIndex := 0; lessonIndex := 0 |};
     tutorOpen := true |}.

(** The handler reads [currentSection.id] and [currentLesson.id]: it
    throws when either is [undefined]. *)
Definition markLessonComplete (a : App) : option App :=
  s ← currentSection (view a);
  L ← currentLesson (view a);
  Some (set_progress (markLessonComplete (section_id s) (lesson_id L)) a).

Definition onSectionTestSubmit (percent : Z) (a : App) : option App :=
  s ← currentSection (view a);
  Some (set_view (with_mode m_section)
          (set_progress (onSectionTestSubmit (section_id s) percent) a)).

Definition onFinalExamSubmit (percent : Z) (a : App) : App :=
  set_view (with_mode m_dashboard) (set_progress (onFinalExamSubmit percent) a).

(** [Math.max(0, v.lessonIndex-1)] *)
Definition onPrev (v : View) : View :=
  {| mode := mode v; sectionIndex := sectionIndex v;
     lessonIndex := Z.max 0 (lessonIndex v - 1) |}.

(** [Math.min(currentSection.lessons.length-1, v.lessonIndex+1)] *)
Definition onNext (v : View) : option View :=
  s ← currentSection v;
  Some {| mode := mode v; sectionIndex := sectionIndex v;
          lessonIndex :=
            Z.min (Z.of_nat (List.length (lessons s)) - 1) (lessonIndex v + 1) |}.

Definition handle (a : App) (e : Event) : option App :=
  match e with
  | OpenHome =>
      Some (set_view (λ _, {| mode := m_home; sectionIndex := 0; lessonIndex := 0 |}) a)
  | Nav => Some (set_view (with_mode m_section) a)
  | OpenDashboard => Some (set_view (with_mode m_dashboard) a)
  | OpenExam => Some (set_view (with_mode m_exam) a)
  | OpenSettings => Some (set_view (with_mode m_settings) a)
  | Select i =>
      Some (set_view (λ _, {| mode := m_section; sectionIndex := Z.of_nat i;
                              lessonIndex := 0 |}) a)
  | Prev => Some (set_view onPrev a)
  | Next => v ← onNext (view a); Some (set_view (λ _, v) a)
  | OpenTest => Some (set_view (with_mode m_test) a)
  | CancelTest => Some (set_view (with_mode m_section) a)
  | MarkLessonComplete => markLessonComplete a
  | SectionTestSubmit percent => onSectionTestSubmit percent a
  | FinalExamSubmit percent => Some (onFinalExamSubmit percent a)
  | SaveSettings s =>
      Some {| progress := progress a; settings := s; view := view a;
              tutorOpen := tutorOpen a |}
  | ToggleTutor =>
      Some {| progress := progress a; settings := settings a; view := view a;
              tutorOpen := negb (tutorOpen a) |}
  end.

(** a session: the events handled one after the other *)
Fixpoint run (a : App) (es : list Event) : option App :=
  match es with
  | [] => Some a
  | e :: es' => a' ← handle a e; run a' es'
  end.

End IbEconTutor.

(** * Vocabulary of the statements *)

(** A character predicate holding of every character of a string. *)
Fixpoint string_forall (P : ascii → bool) (s : string) : bool :=
  match s with
  | EmptyString => true
  | String c s' => P c && string_forall P s'
  end.

(** [k] holds no letter, upper or lower case. *)
Definition letter_free (k : string) : Prop :=
  string_forall (λ c, negb (JS.is_alpha c)) k = true.

(** the points of the questions of one type *)
Definition total_of (t : QType) (qs : list Question) : Z :=
  fold_left (λ s q, s + maxScore q)
    (List.filter (λ q, match type q, t with
                       | mcq, mcq | short, short => true
                       | _, _ => false
                       end) qs) 0.

(** every multiple-choice question is answered with its correct index *)
Definition choices_right (answers : gmap string JsVal) (qs : list Question) : Prop :=
  Forall (λ q, type q = mcq →
               ∃ c, answer q = Some c ∧ answers !! id q = Some (VNum c)) qs.

(** every short answer is a text (or missing) that the grader awards 0,
    whatever the service does with the request *)
Definition shorts_zero (answers : gmap string JsVal) (apiKey : option string)
    (net : nat → Remote) (qs : list Question) : Prop :=
  Forall (λ q, type q = short →
               ∃ text, answer_text (answers !! id q) = Some text ∧
                       ∀ n, score (openAIGrade (net n) (prompt q) text
                                     (rubric_of q) apiKey) = 0) qs.

(** the correct option of each multiple-choice question, nothing else *)
Definition answers_all_right : gmap string JsVal :=
  list_to_map [("E1", VNum 1); ("E3", VNum 1); ("E5", VNum 1);
               ("E7", VNum 2); ("E9", VNum 0); ("E11", VNum 1)].

(** some results of an exam: full marks on E1, E7, E6, E12, E4, E3 and E5,
    half of E2, nothing else *)
Definition some_results : gmap string Z :=
  list_to_map [("E1", 1); ("E7", 1); ("E2", 2); ("E5", 1); ("E3", 1);
               ("E6", 4); ("E12", 4); ("E4", 4)].

(** no request is ever answered *)
Definition no_service : nat → Remote := λ _, Rejected.

(** the sections whose list of exam questions holds [qid], in table order *)
Definition owners (qid : string) : list string :=
  map fst (List.filter (λ '(_, ids), existsb (String.eqb qid) ids) section_map).

(** the elements of key [v] under [f], in list order *)
Definition with_key {A : Type} (f : A → Z) (v : Z) (l : list A) : list A :=
  List.filter (λ a, f a =? v) l.

(** the candidates of the recommendation, sorted *)
Definition sorted_candidates (perQuestion : gmap string Z) : list (string * Z) :=
  sort (λ a b, a.2 - b.2)
    (List.filter (λ '(_, v), v <? 70) (scoresBySection perQuestion)).

(** the number of criteria and the maximum score as the scorer reads them
    ([|| 3]), and the number of criteria an answer hits *)
Definition criteria_count (R : Rubric) : Z :=
  JS.or_default (Z.of_nat (List.length (criteria R))) 3.
Definition max_score (R : Rubric) : Z := JS.or_default (r_maxScore R) 3.
Definition hits (A : string) (R : Rubric) : Z :=
  Z.of_nat (List.length (List.filter (hit (JS.toLowerCase A)) (criteria R))).

(** the first character of a string satisfies [P] *)
Definition starts_with (P : ascii → bool) (s : string) : bool :=
  match s with
  | EmptyString => false
  | String c _ => P c
  end.

(** [s] holds the pattern of a score: digits, possibly a point and further
    digits, white space, a slash, white space, digits. *)
Definition holds_score_pattern (s : string) : Prop :=
  ∃ pre d1 dot d2 sp1 sp2 d3 post,
    s = pre +:+ d1 +:+ dot +:+ d2 +:+ sp1 +:+ "/" +:+ sp2 +:+ d3 +:+ post ∧
    JS.nonempty d1 = true ∧ string_forall JS.is_digit d1 = true ∧
    (dot = "" ∨ dot = ".") ∧
    string_forall JS.is_digit d2 = true ∧
    string_forall JS.is_space sp1 = true ∧
    string_forall JS.is_space sp2 = true ∧
    JS.nonempty d3 = true ∧ string_forall JS.is_digit d3 = true.

(** a string without its first character *)
Definition string_tail (s : string) : string :=
  match s with
  | EmptyString => ""
  | String _ r => r
  end.

(** the short-answer questions of a list, and how many they are *)
Definition is_short (q : Question) : bool :=
  match type q with
  | short => true
  | mcq => false
  end.
Definition shorts (qs : list Question) : nat :=
  List.length (List.filter is_short qs).

(** the points a list of questions is worth *)
Definition total (qs : list Question) : Z :=
  fold_left (λ s q, s + maxScore q) qs 0.

(** the answer recorded for a short-answer question is a non-zero number,
    which the grader cannot lowercase *)
Definition number_for_text (answers : gmap string JsVal) (q : Question) : Prop :=
  type q = short ∧ ∃ n, n ≠ 0 ∧ answers !! id q = Some (VNum n).

(** the two loops are in step: same points, same maximum, same requests *)
Definition in_step (a : SectionTest.State) (b : FinalExam.State) : Prop :=
  SectionTest.points a = FinalExam.points b ∧
  SectionTest.max a = FinalExam.max b ∧
  SectionTest.calls a = FinalExam.calls b.

(** the requests a run over [qs] issues: one for each short-answer
    question when a key is set, none otherwise *)
Definition requests (apiKey : option string) (qs : list Question) : nat :=
  if has_key apiKey then shorts qs else 0%nat.

(** [s] holds no underscore *)
Definition no_underscore (s : string) : Prop :=
  string_forall (λ c, negb (Ascii.eqb c "_")) s = true.

(** The view points at a section of the curriculum and at one of its
    lessons: [currentSection] and [currentLesson] are defined. *)
Definition valid_view (v : View) : Prop :=
  ∃ s, currentSection v = Some s ∧
       0 <= lessonIndex v < Z.of_nat (List.length (lessons s)).

(** the events the page can raise: a selection names a section shown *)
Definition offered (e : Event) : Prop :=
  match e with
  | Select i => (i < List.length curriculum)%nat
  | _ => True
  end.

(** the progress holds nothing but what the curriculum can produce: flags
    of lessons of the curriculum, all true, and records of its sections with
    at least one attempt and a best that is not negative *)
Definition sound_progress (p : Progress) : Prop :=
  (∀ k b, lessonsCompleted p !! k = Some b →
     b = true ∧
     ∃ s L, In s curriculum ∧ In L (lessons s) ∧
            k = lesson_key (section_id s) (lesson_id L)) ∧
  (∀ k r, sectionScores p !! k = Some r →
     (∃ s, In s curriculum ∧ section_id s = k) ∧ 1 <= attempts r ∧ 0 <= best r) ∧
  0 <= attempts (exam p) ∧ 0 <= best (exam p).

(** the exam submissions among some events *)
Definition exam_submits (es : list Event) : nat :=
  List.length (List.filter (λ e, match e with FinalExamSubmit _ => true | _ => false end) es).

(** [k] holds a letter *)
Definition has_letter (k : string) : bool :=
  negb (string_forall (λ c, negb (JS.is_alpha c)) k).

(** The invariant of a question: it is worth more than 0 points; a
    multiple-choice question has options and a correct index among them; a
    short-answer question has a rubric with at least one criterion, each of
    which holds a letter. *)
Definition well_formed (q : Question) : bool :=
  (0 <? maxScore q) &&
  match type q with
  | mcq =>
      match options q, answer q with
      | Some os, Some a => (0 <=? a) && (a <? Z.of_nat (List.length os))
      | _, _ => false
      end
  | short =>
      match rubric q with
      | Some r =>
          negb (List.length (q_criteria r) =? 0)%nat && forallb has_letter (q_criteria r)
      | None => false
      end
  end.

(** every question of the course: the section tests, then the exam *)
Definition all_questions : list Question :=
  concat (map (λ s, questions (test s)) curriculum) ++ finalExam.

(** *** Where the conventions of the embedding hold

    Numbers are exact and strings are read character by character as ASCII.
    The statements that depend on this carry one of the conditions below,
    which keep them to the inputs on which the code computes what the
    embedding computes; nothing is stated outside. *)

(** every character of [s] is an ASCII character: on such a text
    [toLowerCase] changes [A-Z] only and [\s] is TAB, LF, VT, FF, CR and the
    blank *)
Definition ascii_only (s : string) : Prop :=
  string_forall (λ c, (nat_of_ascii c <? 128)%nat) s = true.

(** [s] holds no character of [a-z] *)
Definition no_lower_letter (s : string) : Prop :=
  string_forall (λ c, negb (JS.is_lower c)) s = true.

(** the length of the longest run of digits of [s] *)
Fixpoint longest_digit_run (s : string) : nat :=
  match s with
  | EmptyString => 0%nat
  | String _ s' =>
      Nat.max (String.length (Regex.span_digits s).1) (longest_digit_run s')
  end.

(** No numeral of the response has more than 308 digits, so that every
    total the pattern can capture is below [10^308] and [parseFloat] reads
    it as a finite number. (Of two numerals beyond the range of the numbers
    [parseFloat] makes [Infinity] twice, whose quotient is [NaN], and
    [Math.round] and [Math.min] hand [NaN] on.) *)
Definition numerals_in_range (r : Remote) : Prop :=
  match r with
  | Content content => (longest_digit_run content <= 308)%nat
  | Rejected | NotText => True
  end.

(** the same of every response the service gives when a key is set *)
Definition service_in_range (apiKey : option string) (net : nat → Remote) : Prop :=
  has_key apiKey = true → ∀ n, numerals_in_range (net n).

(** The share [h * m / n] lies half-way between two integers: there
    [Math.round] decides on the last bit of the binary quotient. *)
Definition half_way (h m n : Z) : Prop := (2 * (h * m) + n) mod (2 * n) = 0.

(** The names every object inherits from [Object.prototype]: for these
    [answers[name]] is a function or an object, not [undefined], also when
    nothing was recorded. *)
Definition Object_prototype : list string :=
  ["constructor"; "hasOwnProperty"; "isPrototypeOf"; "propertyIsEnumerable";
   "toLocaleString"; "toString"; "valueOf"; "__proto__";
   "__defineGetter__"; "__defineSetter__"; "__lookupGetter__"; "__lookupSetter__"].

(** no question is named as an inherited property, so that [answers[q.id]]
    is what was recorded for the question and nothing else *)
Definition own_ids (qs : list Question) : Prop :=
  Forall (λ q, ¬ In (id q) Object_prototype) qs.

(** * Properties *)

(** ** The model on the examples of the application *)

Example tokens_of_a_criterion :
  tokens "Link to capital/tech improving productivity"
  = ["link"; "to"; "capital"; "tech"; "improving"; "productivity"].
Proof. reflexivity. Qed.

Example split_keeps_outer_empty_pieces :
  JS.split_non_letters "  ab  cd " = [""; "ab"; "cd"; ""].
Proof. reflexivity. Qed.

(** The three criteria of question f2 are all hit by this answer. *)
Example ppc_answer_scores_3 :
  scoreShortAnswer
    "Investment shifts the PPC outward because productivity rises over the long run"
    {| criteria := ["Outward shift of PPC";
                    "Link to capital/tech improving productivity";
                    "Time dimension (long run)"];
       r_maxScore := 3 |} = 3.
Proof. reflexivity. Qed.

(** One criterion of two, out of 3 points: 1.5 rounds up to 2. *)
Example half_rounds_up :
  scoreShortAnswer "cs" {| criteria := ["CS falls"; "PS rises"]; r_maxScore := 3 |} = 2.
Proof. reflexivity. Qed.

Example empty_answer_scores_0 (R : Rubric) : scoreShortAnswer "" R = 0.
Proof. reflexivity. Qed.

Example match_leftmost : Regex.search "1.2.3/4" = Some ("2.3", "4").
Proof. reflexivity. Qed.

Example match_spaces_around_slash :
  Regex.search "Score: 2.5 / 4 good" = Some ("2.5", "4").
Proof. reflexivity. Qed.

Example match_none : Regex.search "three out of four" = None.
Proof. reflexivity. Qed.

(** 2.5 of 4 rescaled onto 4 points is 2.5, which rounds to 3. *)
Example remote_score_rescaled :
  openAIGrade (Content "I give 2.5/4.") "p" "cs"
    {| criteria := ["CS falls"]; r_maxScore := 4 |} (Some "sk")
  = {| score := 3; g_feedback := "I give 2.5/4." |}.
Proof. reflexivity. Qed.

(** A total of 0 is replaced by the maximum, and the result is capped. *)
Example remote_score_capped :
  openAIGrade (Content "7/0") "p" "cs"
    {| criteria := ["CS falls"]; r_maxScore := 4 |} (Some "sk")
  = {| score := 4; g_feedback := "7/0" |}.
Proof. reflexivity. Qed.

(** A response without a score keeps the rubric scorer's score. *)
Example remote_without_score :
  openAIGrade (Content "Well argued.") "p" "cs"
    {| criteria := ["CS falls"; "PS rises"]; r_maxScore := 4 |} (Some "sk")
  = {| score := 2; g_feedback := "Well argued." |}.
Proof. reflexivity. Qed.

Example candidates_of_some_results :
  scoresBySection some_results
  = [("foundations", 50); ("micro-markets", 100); ("micro-failure", 100);
     ("macro", 29); ("global", 50); ("development", 25)].
Proof. vm_compute. reflexivity. Qed.

(** ** Rounding and exact quotients *)

Lemma Math_round_comp (x y : Q) : (x == y)%Q → JS.Math_round x = JS.Math_round y.
Proof.
  intros E. unfold JS.Math_round. apply Qfloor_comp. now rewrite E.
Qed.

Lemma Math_round_inject (z : Z) : JS.Math_round (inject_Z z) = z.
Proof.
  unfold JS.Math_round, Qfloor, Qplus, inject_Z; simpl.
  symmetry. apply Z.div_unique with (r := 1); lia.
Qed.

Lemma Math_round_mono (x y : Q) : (x <= y)%Q → JS.Math_round x <= JS.Math_round y.
Proof.
  intros L. unfold JS.Math_round. apply Qfloor_resp_le.
  now apply Qplus_le_l.
Qed.

Lemma Math_round_between (x : Q) (lo hi : Z) :
  (inject_Z lo <= x)%Q → (x <= inject_Z hi)%Q → lo <= JS.Math_round x <= hi.
Proof.
  intros L H. split.
  - rewrite <- (Math_round_inject lo). now apply Math_round_mono.
  - rewrite <- (Math_round_inject hi). now apply Math_round_mono.
Qed.

Lemma Math_min_cases (x y : Q) :
  (JS.Math_min x y = x ∧ (x <= y)%Q) ∨ (JS.Math_min x y = y ∧ (y <= x)%Q).
Proof.
  unfold JS.Math_min. destruct (Qle_bool x y) eqn:E.
  - left. split; [reflexivity|]. now apply Qle_bool_iff.
  - right. split; [reflexivity|].
    apply Qlt_le_weak, Qnot_le_lt. intros L. apply Qle_bool_iff in L. congruence.
Qed.

Lemma or_default_pos (x : Z) : 0 < x → JS.or_default x 3 = x.
Proof. unfold JS.or_default. destruct (Z.eqb_spec x 0); lia. Qed.

Lemma Qdiv_nonneg (a b : Q) : (0 <= a)%Q → (0 < b)%Q → (0 <= a / b)%Q.
Proof.
  intros A B. apply Qle_shift_div_l; [assumption|]. now rewrite Qmult_0_l.
Qed.

(** ** The heuristic grader *)

Lemma hits_range (t : string) (ks : list string) (a : Z) :
  a <= fold_left (count_hit t) ks a <= a + Z.of_nat (List.length ks).
Proof.
  revert a. induction ks as [|k ks IH]; intros a; simpl; [lia|].
  specialize (IH (count_hit t a k)).
  unfold count_hit in *. destruct (hit t k); lia.
Qed.

Lemma hits_all (t : string) (ks : list string) (a : Z) :
  Forall (λ k, hit t k = true) ks →
  fold_left (count_hit t) ks a = a + Z.of_nat (List.length ks).
Proof.
  intros H. revert a. induction H as [|k ks Hk _ IH]; intros a; simpl; [lia|].
  rewrite IH. unfold count_hit. rewrite Hk. lia.
Qed.

Lemma hits_none (t : string) (ks : list string) (a : Z) :
  Forall (λ k, hit t k = false) ks → fold_left (count_hit t) ks a = a.
Proof.
  intros H. revert a. induction H as [|k ks Hk _ IH]; intros a; simpl; [lia|].
  rewrite IH. unfold count_hit. now rewrite Hk.
Qed.

(** The ratio of the scorer lies between 0 and 1. *)
Lemma ratio_range (s n : Z) :
  0 <= s <= n → 0 < n →
  (0 <= JS.Math_min (inject_Z s / inject_Z n) 1 <= 1)%Q.
Proof.
  intros [S0 Sn] N.
  assert (P : (0 < inject_Z n)%Q) by (rewrite <- (Zlt_Qlt 0); exact N).
  assert (L : (0 <= inject_Z s / inject_Z n)%Q).
  { apply Qdiv_nonneg; [|exact P]. rewrite <- (Zle_Qle 0). exact S0. }
  destruct (Math_min_cases (inject_Z s / inject_Z n) 1) as [[-> H]|[-> H]].
  - split; assumption.
  - split; [discriminate | apply Qle_refl].
Qed.

Lemma scoreShortAnswer_range (text : string) (cs : list string) (m : Z) :
  0 < m → 0 <= scoreShortAnswer text {| criteria := cs; r_maxScore := m |} <= m.
Proof.
  intros M. unfold scoreShortAnswer; simpl.
  destruct (JS.nonempty text); simpl; [|lia].
  rewrite (or_default_pos m M).
  set (n := Z.of_nat (List.length cs)).
  set (t := JS.toLowerCase text).
  pose proof (hits_range t cs 0) as H; fold n in H.
  set (s := fold_left (count_hit t) cs 0) in *.
  assert (R : (0 <= JS.Math_min (inject_Z s / inject_Z (JS.or_default n 3)) 1 <= 1)%Q).
  { unfold JS.or_default. destruct (Z.eqb_spec n 0) as [E|E].
    - apply ratio_range; lia.
    - apply ratio_range; lia. }
  destruct R as [R0 R1].
  assert (P : (0 <= inject_Z m)%Q) by (rewrite <- (Zle_Qle 0); lia).
  apply Math_round_between.
  - change (inject_Z 0) with 0%Q. now apply Qmult_le_0_compat.
  - rewrite <- (Qmult_1_l (inject_Z m)) at 2.
    now apply Qmult_le_compat_r.
Qed.

(** *** Letter-free criteria *)

Lemma lower_char_is_lower (c : ascii) :
  JS.is_lower (JS.lower_char c) = JS.is_alpha c.
Proof.
  destruct c as [[] [] [] [] [] [] [] []]; reflexivity.
Qed.

Lemma toLowerCase_letter_free (k : string) :
  letter_free k →
  string_forall (λ c, negb (JS.is_lower c)) (JS.toLowerCase k) = true.
Proof.
  unfold letter_free. induction k as [|c k IH]; simpl; [reflexivity|].
  intros [Hc Hk]%andb_prop. rewrite lower_char_is_lower, Hc. simpl. now apply IH.
Qed.

Lemma split_from_no_letters (cur : string) (in_sep : bool) (s : string) :
  string_forall (λ c, negb (JS.is_lower c)) s = true →
  List.filter JS.nonempty (JS.split_from cur in_sep s)
  = List.filter JS.nonempty [JS.rev_string "" cur].
Proof.
  revert cur in_sep. induction s as [|c s IH]; intros cur in_sep; simpl.
  - reflexivity.
  - intros [Hc Hs]%andb_prop. apply negb_true_iff in Hc. rewrite Hc.
    destruct in_sep.
    + now apply IH.
    + simpl. rewrite (IH "" true Hs). simpl.
      destruct (JS.nonempty (JS.rev_string "" cur)); reflexivity.
Qed.

Lemma tokens_letter_free (k : string) : letter_free k → tokens k = [].
Proof.
  intros H. unfold tokens, JS.split_non_letters.
  now rewrite split_from_no_letters by now apply toLowerCase_letter_free.
Qed.

Lemma tokens_nonempty (k p : string) : In p (tokens k) → JS.nonempty p = true.
Proof.
  unfold tokens. intros H. now apply List.filter_In in H.
Qed.

Lemma includes_empty_text (p : string) : JS.nonempty p = true → JS.includes "" p = false.
Proof. destruct p; [discriminate|reflexivity]. Qed.

Lemma nonempty_toLowerCase (s : string) :
  JS.nonempty (JS.toLowerCase s) = JS.nonempty s.
Proof. destruct s; reflexivity. Qed.

(** A criterion with a token, all of whose tokens occur in [t], is hit. *)
Lemma hit_all_tokens (t k : string) :
  tokens k ≠ [] →
  (∀ p, In p (tokens k) → JS.includes t p = true) →
  hit t k = true.
Proof.
  unfold hit. destruct (tokens k) as [|p ps]; [congruence|].
  intros _ H. simpl. rewrite (H p); [reflexivity | now left].
Qed.

Lemma letter_free_toLowerCase (k : string) :
  no_lower_letter (JS.toLowerCase k) → letter_free k.
Proof.
  unfold letter_free, no_lower_letter. induction k as [|c k IH]; simpl; [reflexivity|].
  rewrite lower_char_is_lower. intros [Hc Hk]%andb_prop. rewrite Hc. simpl. now apply IH.
Qed.

Lemma tokens_no_lower_letter (k : string) :
  no_lower_letter (JS.toLowerCase k) → tokens k = [].
Proof.
  intros H. unfold tokens, JS.split_non_letters.
  now rewrite split_from_no_letters by exact H.
Qed.

(** An answer that hits no criterion has the score 0. *)
Lemma score_no_hit (A : string) (R : list string) (max : Z) :
  Forall (λ k, ∀ t : string, hit t k = false) R →
  scoreShortAnswer A {| criteria := R; r_maxScore := max |} = 0.
Proof.
  intros HR. unfold scoreShortAnswer; simpl.
  destruct (JS.nonempty A); simpl; [|reflexivity].
  rewrite hits_none.
  - apply (Math_round_comp _ 0). unfold JS.Math_min.
    assert (E : (inject_Z 0 / inject_Z (JS.or_default (Z.of_nat (List.length R)) 3) == 0)%Q)
      by (unfold Qdiv; apply Qmult_0_l).
    assert (L : Qle_bool (inject_Z 0 / inject_Z (JS.or_default (Z.of_nat (List.length R)) 3)) 1 = true)
      by (apply Qle_bool_iff; rewrite E; discriminate).
    rewrite L, E. apply Qmult_0_l.
  - eapply Forall_impl; [exact HR|]. intros k H. apply H.
Qed.

(** ** C4, C5, C10 *)

(** C4: for every rubric, every answer text and every maximum score
    [max > 0], the rubric scorer returns an integer between 0 and [max]. *)
Theorem score_within_max (A : string) (R : list string) (max : Z) :
  0 < max →
  0 <= scoreShortAnswer A {| criteria := R; r_maxScore := max |} <= max.
Proof.
  apply scoreShortAnswer_range.
Qed.

Lemma score_within_max_witness :
  0 <= scoreShortAnswer "Investment raises productivity"
         {| criteria := ["Outward shift of PPC";
                         "Link to capital/tech improving productivity"];
            r_maxScore := 3 |} <= 3.
Proof.
  apply (score_within_max "Investment raises productivity"
           ["Outward shift of PPC"; "Link to capital/tech improving productivity"] 3).
  lia.
Defined.

(** C10: a criterion whose lowercased text holds no character of [a-z] has
    no token and is hit by no answer text, and a criterion of ASCII
    characters is such exactly when it holds no letter (a numeric or
    punctuation-only phrase); a rubric all of whose criteria are such scores
    0 on every answer text and for every maximum score. *)
Theorem letter_free_rubric_scores_zero :
  (∀ k : string, no_lower_letter (JS.toLowerCase k) →
     tokens k = [] ∧ ∀ t : string, hit t k = false) ∧
  (∀ k : string, ascii_only k →
     (letter_free k ↔ no_lower_letter (JS.toLowerCase k))) ∧
  (∀ (A : string) (R : list string) (max : Z),
     Forall (λ k, no_lower_letter (JS.toLowerCase k)) R →
     scoreShortAnswer A {| criteria := R; r_maxScore := max |} = 0) ∧
  (∀ (A : string) (R : list string) (max : Z),
     Forall (λ k, ascii_only k ∧ letter_free k) R →
     scoreShortAnswer A {| criteria := R; r_maxScore := max |} = 0).
Proof.
  assert (Hk : ∀ k : string, no_lower_letter (JS.toLowerCase k) →
                 tokens k = [] ∧ ∀ t : string, hit t k = false).
  { intros k H. pose proof (tokens_no_lower_letter k H) as E. split; [exact E|].
    intros t. unfold hit. now rewrite E. }
  assert (Hz : ∀ (A : string) (R : list string) (max : Z),
     Forall (λ k, no_lower_letter (JS.toLowerCase k)) R →
     scoreShortAnswer A {| criteria := R; r_maxScore := max |} = 0).
  { intros A R max HR. apply score_no_hit.
    eapply Forall_impl; [exact HR|]. intros k H. now apply Hk. }
  split; [exact Hk|]. split; [|split; [exact Hz|]].
  - intros k _. split; [apply toLowerCase_letter_free | apply letter_free_toLowerCase].
  - intros A R max HR. apply Hz.
    eapply Forall_impl; [exact HR|]. intros k [_ H]. now apply toLowerCase_letter_free.
Qed.

Lemma letter_free_rubric_scores_zero_witness :
  scoreShortAnswer "growth of 100% in 2024"
    {| criteria := ["2024 (100%)"; "3.5"]; r_maxScore := 4 |} = 0.
Proof.
  apply (proj2 (proj2 (proj2 letter_free_rubric_scores_zero))).
  repeat constructor.
Defined.

Lemma Math_min_one (x : Q) : (x == 1)%Q → (JS.Math_min x 1 == 1)%Q.
Proof.
  intros E. destruct (Math_min_cases x 1) as [[-> _]|[-> _]]; [exact E|reflexivity].
Qed.

Lemma or_default_id (x d : Z) : x ≠ 0 → JS.or_default x d = x.
Proof. unfold JS.or_default. destruct (Z.eqb_spec x 0); congruence. Qed.

(** C5, as stated, fails: the tokens of a letter-free criterion all occur
    in any answer, there being none, and yet the criterion is not hit. *)
Lemma every_token_present_not_full_marks :
  ¬ (∀ (A : string) (R : list string) (max : Z),
       (∀ k p, In k R → In p (tokens k) →
               JS.includes (JS.toLowerCase A) p = true) →
       scoreShortAnswer A {| criteria := R; r_maxScore := max |} = max).
Proof.
  intros H. specialize (H "growth" ["2024"] 3).
  assert (E : scoreShortAnswer "growth" {| criteria := ["2024"]; r_maxScore := 3 |} = 0)
    by reflexivity.
  rewrite E in H. enough (0 = 3) by lia. apply H.
  intros k p [<-|[]] Hp. exact (False_ind _ Hp).
Qed.

(** C5, amended: for a rubric with at least one criterion, each of which
    has at least one token, and a maximum score other than 0, if every token
    of every criterion occurs in the lowercased answer then the score is the
    maximum score. *)
Theorem every_token_present_full_marks (A : string) (R : list string) (max : Z) :
  R ≠ [] →
  max ≠ 0 →
  (∀ k, In k R → tokens k ≠ []) →
  (∀ k p, In k R → In p (tokens k) → JS.includes (JS.toLowerCase A) p = true) →
  scoreShortAnswer A {| criteria := R; r_maxScore := max |} = max.
Proof.
  intros HR Hmax Htok Hall. unfold scoreShortAnswer; simpl.
  assert (HA : JS.nonempty A = true).
  { destruct R as [|k R']; [congruence|].
    pose proof (Htok k (or_introl eq_refl)) as Hk.
    destruct (tokens k) as [|p ps] eqn:E; [congruence|].
    assert (Hp : In p (tokens k)) by (rewrite E; now left).
    pose proof (Hall k p (or_introl eq_refl) Hp) as Hi.
    rewrite <- nonempty_toLowerCase.
    destruct (JS.toLowerCase A); [|reflexivity].
    rewrite includes_empty_text in Hi; [discriminate|].
    now apply (tokens_nonempty k). }
  rewrite HA; simpl.
  rewrite hits_all.
  2:{ apply List.Forall_forall. intros k Hk. apply hit_all_tokens; [now apply Htok|].
      intros p Hp. now apply Hall with k. }
  set (n := Z.of_nat (List.length R)).
  assert (Hn : n ≠ 0) by (destruct R; [congruence | subst n; cbn [List.length]; lia]).
  rewrite (or_default_id n 3 Hn), (or_default_id max 3 Hmax).
  rewrite <- (Math_round_inject max) at 2. apply Math_round_comp.
  rewrite Math_min_one; [apply Qmult_1_l|].
  simpl (0 + n). apply Qmult_inv_r.
  intros E. apply Hn. change 0%Q with (inject_Z 0) in E.
  exact (proj1 (inject_Z_injective n 0) E).
Qed.

Lemma every_token_present_full_marks_witness :
  scoreShortAnswer "Output falls and PRICES rise"
    {| criteria := ["Prices"; "falls/rise"]; r_maxScore := 4 |} = 4.
Proof.
  apply (every_token_present_full_marks "Output falls and PRICES rise"
           ["Prices"; "falls/rise"] 4).
  - discriminate.
  - lia.
  - intros k [<-|[<-|[]]]; discriminate.
  - intros k p [<-|[<-|[]]]; simpl.
    + intros [<-|[]]. reflexivity.
    + intros [<-|[<-|[]]]; reflexivity.
Defined.

(** ** The remote grading adapter *)

Lemma span_digits_digits (s : string) :
  string_forall JS.is_digit (Regex.span_digits s).1 = true.
Proof.
  induction s as [|c s IH]; simpl; [reflexivity|].
  destruct (JS.is_digit c) eqn:D; [|reflexivity].
  destruct (Regex.span_digits s) as [d r]. simpl in *. now rewrite D, IH.
Qed.

Lemma digit_value_nonneg (c : ascii) : JS.is_digit c = true → 0 <= digit_value c.
Proof.
  unfold JS.is_digit, digit_value. intros [L _]%andb_prop.
  apply Nat.leb_le in L. lia.
Qed.

Lemma digits_value_nonneg (d : string) (acc : Z) :
  string_forall JS.is_digit d = true → 0 <= acc → 0 <= digits_value acc d.
Proof.
  revert acc. induction d as [|c d IH]; intros acc; simpl; [auto|].
  intros [Hc Hd]%andb_prop Hacc. apply IH; [exact Hd|].
  pose proof (digit_value_nonneg c Hc). lia.
Qed.

Lemma parseFloat_nonneg (s : string) : (0 <= parseFloat s)%Q.
Proof.
  unfold parseFloat.
  pose proof (span_digits_digits s) as Hi.
  destruct (Regex.span_digits s) as [i r]. simpl in Hi.
  assert (I : (0 <= inject_Z (digits_value 0 i))%Q).
  { rewrite <- (Zle_Qle 0). apply digits_value_nonneg; [exact Hi|lia]. }
  destruct r as [|c f]; [exact I|].
  destruct (Ascii.eqb_spec c "."%char) as [->|N].
  - pose proof (span_digits_digits f) as Hf.
    destruct (Regex.span_digits f) as [fd r']. simpl in Hf.
    rewrite <- (Qplus_0_l 0). apply Qplus_le_compat; [exact I|].
    unfold Qle; simpl. rewrite Z.mul_1_r.
    apply digits_value_nonneg; [exact Hf|lia].
  - destruct c as [[] [] [] [] [] [] [] []]; try exact I. congruence.
Qed.

(** The score rescaled from a matched "got/total" lies within the maximum. *)
Lemma rescaled_range (got denom0 : Q) (m : Z) :
  (0 <= got)%Q → (0 <= denom0)%Q → 0 < m →
  0 <= Z.min
         (JS.Math_round
            ((got / (if Qeq_bool denom0 0 then inject_Z m else denom0)) * inject_Z m))
         m <= m.
Proof.
  intros G D M.
  assert (P : (0 < inject_Z m)%Q) by (rewrite <- (Zlt_Qlt 0); exact M).
  set (denom := if Qeq_bool denom0 0 then inject_Z m else denom0).
  assert (Dp : (0 < denom)%Q).
  { subst denom. destruct (Qeq_bool denom0 0) eqn:E; [exact P|].
    apply Qle_lteq in D. destruct D as [D|D]; [exact D|].
    symmetry in D. apply Qeq_bool_iff in D. congruence. }
  assert (X : (0 <= got / denom * inject_Z m)%Q).
  { apply Qmult_le_0_compat; [now apply Qdiv_nonneg | now apply Qlt_le_weak]. }
  assert (0 <= JS.Math_round (got / denom * inject_Z m)).
  { rewrite <- (Math_round_inject 0). now apply Math_round_mono. }
  lia.
Qed.

Lemma openAIGrade_range (remote : Remote) (prompt answer : string)
    (cs : list string) (m : Z) (apiKey : option string) :
  0 < m →
  (has_key apiKey = true → numerals_in_range remote) →
  0 <= score (openAIGrade remote prompt answer
                {| criteria := cs; r_maxScore := m |} apiKey) <= m.
Proof.
  intros M _. pose proof (scoreShortAnswer_range answer cs m M) as H.
  unfold openAIGrade. destruct (has_key apiKey); simpl; [|exact H].
  destruct remote as [|content|]; simpl; try exact H.
  destruct (Regex.search content) as [[m1 m2]|]; [|exact H].
  rewrite (or_default_pos m M).
  apply rescaled_range; [apply parseFloat_nonneg .. | exact M].
Qed.


Lemma openAIGrade_any_text (remote : Remote) (prompt answer : string)
    (R : Rubric) (apiKey : option string) :
  openAIGrade_any remote prompt (VStr answer) R apiKey
  = Some (openAIGrade remote prompt answer R apiKey).
Proof.
  unfold openAIGrade_any, openAIGrade.
  destruct (has_key apiKey); simpl; [|reflexivity].
  destruct remote; reflexivity.
Qed.

(** On a number other than 0 every path throws: the scorer is called
    outside the [try] when no key is set, and again in the [catch]. *)
Lemma openAIGrade_any_number (remote : Remote) (prompt : string) (n : Z)
    (R : Rubric) (apiKey : option string) :
  n ≠ 0 → openAIGrade_any remote prompt (VNum n) R apiKey = None.
Proof.
  intros N. apply Z.eqb_neq in N. unfold openAIGrade_any, scoreShortAnswer_any.
  rewrite N. destruct (has_key apiKey); simpl; [|reflexivity].
  destruct remote; reflexivity.
Qed.

(** The loops call the adapter on [answers[q.id] || ""]. *)
Lemma openAIGrade_any_answer (remote : Remote) (prompt : string)
    (a : option JsVal) (R : Rubric) (apiKey : option string) :
  openAIGrade_any remote prompt (answer_or_empty a) R apiKey
  = text ← answer_text a; Some (openAIGrade remote prompt text R apiKey).
Proof.
  destruct a as [[n|t]|]; cbn [answer_or_empty answer_text].
  - destruct (Z.eqb_spec n 0) as [_|N].
    + apply openAIGrade_any_text.
    + now apply openAIGrade_any_number.
  - apply openAIGrade_any_text.
  - apply openAIGrade_any_text.
Qed.

Lemma section_body_calls_adapter (answers : gmap string JsVal)
    (apiKey : option string)
    (net : nat → Remote) (st : SectionTest.State) (q : Question) :
  type q = short →
  SectionTest.body answers apiKey net st q
  = res ← openAIGrade_any (net (SectionTest.calls st)) (prompt q)
            (answer_or_empty (answers !! id q)) (rubric_of q) apiKey;
    Some {| SectionTest.points := SectionTest.points st + score res;
            SectionTest.max := SectionTest.max st + maxScore q;
            SectionTest.feedback := <[id q := g_feedback res]> (SectionTest.feedback st);
            SectionTest.calls := next_call apiKey (SectionTest.calls st) |}.
Proof.
  intros T. unfold SectionTest.body. rewrite T, openAIGrade_any_answer.
  destruct (answer_text (answers !! id q)); reflexivity.
Qed.

Lemma final_body_calls_adapter (answers : gmap string JsVal)
    (apiKey : option string)
    (net : nat → Remote) (st : FinalExam.State) (q : Question) :
  type q = short →
  FinalExam.body answers apiKey net st q
  = res ← openAIGrade_any (net (FinalExam.calls st)) (prompt q)
            (answer_or_empty (answers !! id q)) (rubric_of q) apiKey;
    Some {| FinalExam.points := FinalExam.points st + score res;
            FinalExam.max := FinalExam.max st + maxScore q;
            FinalExam.perQuestion := <[id q := score res]> (FinalExam.perQuestion st);
            FinalExam.calls := next_call apiKey (FinalExam.calls st) |}.
Proof.
  intros T. unfold FinalExam.body. rewrite T, openAIGrade_any_answer.
  destruct (answer_text (answers !! id q)); reflexivity.
Qed.



(** ** The assessment loops *)

Lemma strict_eq_spec (a : option JsVal) (c : Z) :
  strict_eq a (Some c) = true ↔ a = Some (VNum c).
Proof.
  destruct a as [[n|s]|]; simpl; split; try discriminate.
  - intros ->%Z.eqb_eq. reflexivity.
  - intros [= ->]. apply Z.eqb_refl.
Qed.

(** C6: a multiple-choice question with correct index [c] is awarded its
    [maxScore] when the recorded answer is strictly equal to [c] (the number
    [c] itself, not a string and not [undefined]) and 0 otherwise, in the
    section test as in the final exam, which also records the award under
    the question's id; an unanswered question is awarded 0. *)
Theorem mcq_award (answers : gmap string JsVal) (apiKey : option string)
    (net : nat → Remote) (q : Question) (c : Z) :
  type q = mcq →
  answer q = Some c →
  ∃ aw : Z,
    (answers !! id q = Some (VNum c) → aw = maxScore q) ∧
    (answers !! id q ≠ Some (VNum c) → aw = 0) ∧
    (answers !! id q = None → aw = 0) ∧
    (∀ st, ∃ st',
       SectionTest.body answers apiKey net st q = Some st' ∧
       SectionTest.points st' = SectionTest.points st + aw ∧
       SectionTest.max st' = SectionTest.max st + maxScore q) ∧
    (∀ st, ∃ st',
       FinalExam.body answers apiKey net st q = Some st' ∧
       FinalExam.points st' = FinalExam.points st + aw ∧
       FinalExam.max st' = FinalExam.max st + maxScore q ∧
       FinalExam.perQuestion st' !! id q = Some aw).
Proof.
  intros Ht Ha.
  exists (if strict_eq (answers !! id q) (Some c) then maxScore q else 0).
  pose proof (strict_eq_spec (answers !! id q) c) as S.
  split; [|split; [|split; [|split]]].
  - intros E. apply S in E. now rewrite E.
  - intros N. destruct (strict_eq (answers !! id q) (Some c)); [|reflexivity].
    exfalso. apply N, S. reflexivity.
  - intros E. now rewrite E.
  - intros st. unfold SectionTest.body. rewrite Ht, Ha.
    eexists. split; [reflexivity|]. simpl. split; reflexivity.
  - intros st. unfold FinalExam.body. rewrite Ht, Ha.
    eexists. split; [reflexivity|]. simpl.
    split; [reflexivity|]. split; [reflexivity|]. apply lookup_insert_eq.
Qed.

Lemma mcq_award_witness :
  ∃ aw st',
    FinalExam.body {[ "E7" := VNum 2 ]} None no_service FinalExam.init
      (mcq_question "E7" "In the long run firms:" ["a"; "b"; "c"; "d"] 2 1)
    = Some st' ∧
    FinalExam.points st' = 0 + aw ∧
    aw = 1.
Proof.
  destruct (mcq_award {[ "E7" := VNum 2 ]} None no_service
              (mcq_question "E7" "In the long run firms:" ["a"; "b"; "c"; "d"] 2 1) 2
              eq_refl eq_refl)
    as (aw & Heq & _ & _ & _ & Hfinal).
  destruct (Hfinal FinalExam.init) as (st' & Hb & Hp & _).
  exists aw, st'. split; [exact Hb|]. split; [exact Hp|].
  apply Heq. reflexivity.
Defined.

(** *** The final exam with every choice right and no short-answer point *)

Lemma fold_left_add_shift {A : Type} (f : A → Z) (l : list A) (a : Z) :
  fold_left (λ s x, s + f x) l a = a + fold_left (λ s x, s + f x) l 0.
Proof.
  revert a. induction l as [|x l IH]; intros a; simpl; [lia|].
  rewrite (IH (a + f x)), (IH (0 + f x)). lia.
Qed.

Section AllChoicesRight.
Context (answers : gmap string JsVal) (apiKey : option string)
        (net : nat → Remote).

Lemma final_body_mcq (st : FinalExam.State) (q : Question) (c : Z) :
  type q = mcq → answer q = Some c → answers !! id q = Some (VNum c) →
  FinalExam.body answers apiKey net st q
  = Some {| FinalExam.points := FinalExam.points st + maxScore q;
            FinalExam.max := FinalExam.max st + maxScore q;
            FinalExam.perQuestion :=
              <[id q := maxScore q]> (FinalExam.perQuestion st);
            FinalExam.calls := FinalExam.calls st |}.
Proof.
  intros T Ha Hl. unfold FinalExam.body. rewrite T, Ha, Hl. simpl.
  now rewrite Z.eqb_refl.
Qed.

Lemma final_body_short (st : FinalExam.State) (q : Question) (text : string) :
  type q = short → answer_text (answers !! id q) = Some text →
  FinalExam.body answers apiKey net st q
  = Some {| FinalExam.points :=
              FinalExam.points st
              + score (openAIGrade (net (FinalExam.calls st)) (prompt q) text
                         (rubric_of q) apiKey);
            FinalExam.max := FinalExam.max st + maxScore q;
            FinalExam.perQuestion :=
              <[id q := score (openAIGrade (net (FinalExam.calls st)) (prompt q)
                                 text (rubric_of q) apiKey)]>
                (FinalExam.perQuestion st);
            FinalExam.calls := next_call apiKey (FinalExam.calls st) |}.
Proof.
  intros T Ht. unfold FinalExam.body. now rewrite T, Ht.
Qed.

Lemma final_loop_totals (qs : list Question) (st : FinalExam.State) :
  choices_right answers qs → shorts_zero answers apiKey net qs →
  ∃ st', for_of (FinalExam.body answers apiKey net) st qs = Some st' ∧
         FinalExam.points st' = FinalExam.points st + total_of mcq qs ∧
         FinalExam.max st'
         = FinalExam.max st + total_of mcq qs + total_of short qs.
Proof.
  revert st. induction qs as [|q qs IH]; intros st Hc Hs.
  - exists st. unfold total_of; simpl. repeat split; lia.
  - apply Forall_cons in Hc as [Hq Hc]. apply Forall_cons in Hs as [Hq' Hs].
    unfold total_of in *. simpl for_of.
    destruct (type q) eqn:T.
    + destruct (Hq eq_refl) as (c & Ha & Hl).
      rewrite (final_body_mcq st q c T Ha Hl). simpl.
      edestruct IH as (st' & -> & Hp & Hm); [exact Hc | exact Hs |].
      exists st'. split; [reflexivity|]. simpl in Hp, Hm. rewrite T.
      simpl. rewrite (fold_left_add_shift _ _ (0 + maxScore q)). lia.
    + destruct (Hq' eq_refl) as (text & Ht & Hz0).
      rewrite (final_body_short st q text T Ht), Hz0. simpl.
      edestruct IH as (st' & -> & Hp & Hm); [exact Hc | exact Hs |].
      exists st'. split; [reflexivity|]. simpl in Hp, Hm. rewrite T.
      simpl. rewrite (fold_left_add_shift _ _ (0 + maxScore q)). lia.
Qed.

End AllChoicesRight.

Lemma answers_all_right_ok : choices_right answers_all_right finalExam.
Proof.
  unfold choices_right, finalExam.
  repeat (apply Forall_cons; split;
          [intros T; first [discriminate T | eexists; split; vm_compute; reflexivity]|]).
  apply Forall_nil_2.
Qed.

Lemma answers_all_right_shorts :
  shorts_zero answers_all_right None no_service finalExam.
Proof.
  unfold shorts_zero, finalExam.
  repeat (apply Forall_cons; split;
          [intros T; first [discriminate T
                           | exists ""; split; [vm_compute; reflexivity
                                               | intros n; reflexivity]]|]).
  apply Forall_nil_2.
Qed.

Lemma final_exam_grade (answers : gmap string JsVal) (apiKey : option string)
    (net : nat → Remote) :
  choices_right answers finalExam →
  shorts_zero answers apiKey net finalExam →
  ∃ r, FinalExam.grade answers apiKey net = Some r ∧
       FinalExam.percent r = percent_of 6 28.
Proof.
  intros Hc Hs. unfold FinalExam.grade.
  destruct (final_loop_totals answers apiKey net finalExam FinalExam.init Hc Hs)
    as (st & -> & Hp & Hm).
  change (total_of mcq finalExam) with 6 in *.
  change (total_of short finalExam) with 22 in *.
  simpl in Hp, Hm. eexists. split; [reflexivity|]. simpl. now rewrite Hp, Hm.
Qed.

(** C1, as stated, fails: the short answers of the exam carry 22 points,
    not 18, so the percentage is not 25. *)
Lemma final_exam_percent_not_25 :
  ¬ (∀ (answers : gmap string JsVal) (apiKey : option string) (net : nat → Remote),
       choices_right answers finalExam →
       shorts_zero answers apiKey net finalExam →
       FinalExam.percent <$> FinalExam.grade answers apiKey net = Some (Some 25)).
Proof.
  intros H.
  specialize (H answers_all_right None no_service
                answers_all_right_ok answers_all_right_shorts).
  destruct (final_exam_grade answers_all_right None no_service
              answers_all_right_ok answers_all_right_shorts) as (r & Hr & Hp).
  rewrite Hr in H. simpl in H. rewrite Hp in H. vm_compute in H. discriminate H.
Qed.

(** C1, amended: grading the final exam with every multiple-choice
    question answered correctly and every short answer awarded 0 points
    returns an overall percent of 21, that is round(100 × 6/28): 6
    multiple-choice points awarded out of a total of 28, the 6
    multiple-choice points plus 22 short-answer points. *)
Theorem final_exam_percent_21 (answers : gmap string JsVal)
    (apiKey : option string) (net : nat → Remote) :
  choices_right answers finalExam →
  shorts_zero answers apiKey net finalExam →
  ∃ r, FinalExam.grade answers apiKey net = Some r ∧
       FinalExam.percent r = Some 21 ∧
       FinalExam.percent r = percent_of 6 (6 + 22) ∧
       total_of mcq finalExam = 6 ∧
       total_of short finalExam = 22.
Proof.
  intros Hc Hs.
  destruct (final_exam_grade answers apiKey net Hc Hs) as (r & Hr & Hp).
  exists r. split; [exact Hr|]. rewrite Hp. repeat split.
Qed.

Lemma final_exam_percent_21_witness :
  ∃ r, FinalExam.grade answers_all_right None no_service = Some r ∧
       FinalExam.percent r = Some 21.
Proof.
  destruct (final_exam_percent_21 answers_all_right None no_service
              answers_all_right_ok answers_all_right_shorts)
    as (r & Hr & Hp & _).
  exists r. split; assumption.
Defined.

(** ** The recommendation table *)

Ltac split_in H :=
  repeat match type of H with
         | In _ (_ :: _) => destruct H as [H|H]
         | In _ [] => destruct H
         | _ ∨ _ => destruct H as [H|H]
         | False => destruct H
         end.

(** C2, as stated, fails: question E2 is listed under two sections. *)
Lemma question_E2_has_two_sections :
  ¬ (∀ (qid s1 s2 : string) (ids1 ids2 : list string),
       In (s1, ids1) section_map → In (s2, ids2) section_map →
       In qid ids1 → In qid ids2 → s1 = s2).
Proof.
  intros H.
  specialize (H "E2" "foundations" "macro" ["E2"] ["E2"; "E10"]).
  enough ("foundations" = "macro") by discriminate.
  apply H; simpl; auto 10.
Qed.

(** C2, amended: every question id other than E2 is in the list of at most
    one section; E2 is in the lists of exactly two, foundations and macro;
    a question may be in no list, as E9 is, and no list repeats an id. *)
Theorem section_map_ownership :
  (∀ (qid s1 s2 : string) (ids1 ids2 : list string),
     qid ≠ "E2" →
     In (s1, ids1) section_map → In (s2, ids2) section_map →
     In qid ids1 → In qid ids2 → s1 = s2) ∧
  owners "E2" = ["foundations"; "macro"] ∧
  owners "E9" = [] ∧
  Forall (λ e, NoDup e.2) section_map.
Proof.
  split; [|split; [reflexivity|split; [reflexivity|]]].
  - intros qid s1 s2 ids1 ids2 N H1 H2 Q1 Q2.
    unfold section_map in H1, H2.
    split_in H1; inversion H1; subst; clear H1; split_in Q1; subst;
      try congruence;
      split_in H2; inversion H2; subst; clear H2; try reflexivity;
      split_in Q2; discriminate Q2.
  - unfold section_map.
    repeat (apply Forall_cons; split; [simpl; apply NoDup_ListNoDup;
      repeat (constructor; [simpl; intuition discriminate|]); constructor|]).
    apply Forall_nil_2.
Qed.

Lemma section_map_ownership_witness :
  "E7" ≠ "E2" ∧ "micro-markets" = "micro-markets".
Proof.
  split; [discriminate|].
  apply (proj1 section_map_ownership "E7" "micro-markets" "micro-markets"
           ["E1"; "E7"] ["E1"; "E7"]).
  - discriminate.
  - simpl; auto.
  - simpl; auto.
  - simpl; auto.
  - simpl; auto.
Defined.

(** ** The progress store *)

(** C9: marking lesson [l] of section [s] complete sets the entry of the
    key [s_l] of [lessonsCompleted] to [true] and changes nothing else: every
    other entry, [sectionScores] and [exam] are as before; doing it twice
    gives the same state as doing it once. *)
Theorem markLessonComplete_frame (p : Progress) (s l : string) :
  let p' := markLessonComplete s l p in
  lessonsCompleted p' !! lesson_key s l = Some true ∧
  (∀ k, k ≠ lesson_key s l → lessonsCompleted p' !! k = lessonsCompleted p !! k) ∧
  sectionScores p' = sectionScores p ∧
  exam p' = exam p ∧
  markLessonComplete s l p' = p'.
Proof.
  simpl. split; [apply lookup_insert_eq|].
  split; [intros k N; now apply lookup_insert_ne|].
  split; [reflexivity|]. split; [reflexivity|].
  unfold markLessonComplete; simpl. now rewrite insert_insert_eq.
Qed.

Lemma markLessonComplete_frame_witness :
  lessonsCompleted (markLessonComplete "macro" "adas" defaultProgress)
    !! "macro_policy" = None.
Proof.
  rewrite (proj1 (proj2 (markLessonComplete_frame defaultProgress "macro" "adas"))).
  - reflexivity.
  - discriminate.
Defined.

Lemma section_record_after_submit (p : Progress) (s : string) (x : Z) :
  sectionScores (onSectionTestSubmit s x p) !! s
  = Some {| attempts := attempts_of p s + 1; best := Z.max (best_of p s) x |}.
Proof. apply lookup_insert_eq. Qed.

Lemma or_default_zero (x : Z) : JS.or_default x 0 = x.
Proof. unfold JS.or_default. now destruct (Z.eqb_spec x 0). Qed.

Lemma attempts_after_submit (p : Progress) (s : string) (x : Z) :
  attempts_of (onSectionTestSubmit s x p) s = attempts_of p s + 1.
Proof.
  unfold attempts_of at 1. rewrite section_record_after_submit. simpl.
  apply or_default_zero.
Qed.

Lemma best_after_submit (p : Progress) (s : string) (x : Z) :
  best_of (onSectionTestSubmit s x p) s = Z.max (best_of p s) x.
Proof.
  unfold best_of at 1. rewrite section_record_after_submit. simpl.
  apply or_default_zero.
Qed.

(** C8: each submission for section [s] adds exactly 1 to the attempts of
    [s] and sets its best to the maximum of the previous best and the
    submitted percent, so the best never decreases, over any sequence of
    submissions from any state; the percents 40, 90, 60 submitted in turn
    from the empty record give best 90 and attempts 3. *)
Theorem section_test_submissions (p : Progress) (s : string) :
  (∀ x, let p' := onSectionTestSubmit s x p in
        sectionScores p' !! s
        = Some {| attempts := attempts_of p s + 1;
                  best := Z.max (best_of p s) x |} ∧
        attempts_of p' s = attempts_of p s + 1 ∧
        best_of p' s = Z.max (best_of p s) x ∧
        best_of p s <= best_of p' s) ∧
  (∀ xs, let p' := fold_left (λ q x, onSectionTestSubmit s x q) xs p in
         attempts_of p' s = attempts_of p s + Z.of_nat (List.length xs) ∧
         best_of p' s = fold_left Z.max xs (best_of p s) ∧
         best_of p s <= best_of p' s) ∧
  sectionScores
    (fold_left (λ q x, onSectionTestSubmit s x q) [40; 90; 60] defaultProgress) !! s
  = Some {| attempts := 3; best := 90 |}.
Proof.
  split; [|split].
  - intros x. cbv zeta. rewrite section_record_after_submit, attempts_after_submit,
      best_after_submit. repeat split; lia.
  - intros xs. cbv zeta. revert p. induction xs as [|x xs IH]; intros p.
    + simpl. repeat split; lia.
    + cbn [fold_left List.length]. destruct (IH (onSectionTestSubmit s x p)) as (Ha & Hb & Hc).
      rewrite attempts_after_submit in Ha. rewrite best_after_submit in Hb, Hc.
      repeat split; lia.
  - cbn [fold_left]. rewrite section_record_after_submit.
    rewrite !attempts_after_submit, !best_after_submit.
    reflexivity.
Qed.

Lemma section_test_submissions_witness :
  best_of (fold_left (λ q x, onSectionTestSubmit "macro" x q) [40; 90; 60]
             defaultProgress) "macro" = 90.
Proof.
  rewrite (proj1 (proj2 (proj1 (proj2
            (section_test_submissions defaultProgress "macro")) [40; 90; 60]))).
  reflexivity.
Defined.

(** ** Sorting with a comparator [f a - f b] *)

Section SortFacts.
Context {A : Type} (f : A → Z).

Local Abbreviation cmp := (λ a b : A, f a - f b).

Lemma insert_sorted_In (x y : A) (l : list A) :
In y (insert_sorted cmp x l) ↔ y = x ∨ In y l.
Proof.
induction l as [|z l IH]; simpl.
- intuition.
- destruct (f x - f z <=? 0); simpl; [intuition|]. rewrite IH. intuition.
Qed.

Lemma sort_In (y : A) (l : list A) : In y (sort cmp l) ↔ In y l.
Proof.
induction l as [|x l IH]; simpl; [reflexivity|].
rewrite insert_sorted_In, IH. intuition.
Qed.

Lemma insert_sorted_with_key (v : Z) (x : A) (l : list A) :
with_key f v (insert_sorted cmp x l) = with_key f v (x :: l).
Proof.
induction l as [|y l IH]; [reflexivity|]. simpl insert_sorted.
destruct (Z.leb_spec (f x - f y) 0) as [L|L]; [reflexivity|].
unfold with_key in *. simpl in *. rewrite IH.
destruct (Z.eqb_spec (f y) v), (Z.eqb_spec (f x) v); try reflexivity. lia.
Qed.

(** Stability: the elements of each key keep their order. *)
Lemma sort_with_key (v : Z) (l : list A) :
with_key f v (sort cmp l) = with_key f v l.
Proof.
induction l as [|x l IH]; [reflexivity|]. simpl sort.
rewrite insert_sorted_with_key. unfold with_key in *. simpl. now rewrite IH.
Qed.

Lemma insert_sorted_sorted (x : A) (l : list A) :
StronglySorted (λ a b, f a <= f b) l →
StronglySorted (λ a b, f a <= f b) (insert_sorted cmp x l).
Proof.
induction 1 as [|y l S IH F]; simpl.
- repeat constructor.
- destruct (Z.leb_spec (f x - f y) 0) as [L|L].
  + constructor; [now constructor|]. constructor; [lia|].
    eapply List.Forall_impl; [|exact F]. simpl. intros; lia.
  + constructor; [exact IH|]. apply List.Forall_forall. intros z Hz.
    apply insert_sorted_In in Hz as [->|Hz]; [lia|].
    rewrite List.Forall_forall in F. now apply F.
Qed.

Lemma sort_sorted (l : list A) : StronglySorted (λ a b, f a <= f b) (sort cmp l).
Proof.
induction l as [|x l IH]; simpl; [constructor | now apply insert_sorted_sorted].
Qed.

End SortFacts.

(** ** Positions and sublists *)

Lemma sublist_In {A : Type} (l k : list A) (x : A) :
  l `sublist_of` k → In x l → In x k.
Proof.
  induction 1; simpl; intuition.
Qed.

Lemma sorted_sublist_pair {A : Type} (R : A → A → Prop) (l : list A) (a b : A) :
  StronglySorted R l → [a; b] `sublist_of` l → R a b.
Proof.
  induction 1 as [|x l S IH F]; intros H; inversion H; subst.
  - rewrite List.Forall_forall in F. apply F.
    eapply sublist_In; [eassumption | now left].
  - now apply IH.
Qed.

Lemma lookup_pair_sublist {A : Type} (l : list A) (i j : nat) (a b : A) :
  (i < j)%nat → l !! i = Some a → l !! j = Some b → [a; b] `sublist_of` l.
Proof.
  revert i j. induction l as [|x l IH]; intros i j Hij Hi Hj; [discriminate|].
  destruct i as [|i].
  - simpl in Hi. injection Hi as ->. destruct j as [|j]; [lia|]. simpl in Hj.
    apply sublist_skip. apply sublist_cons_l. 
    apply list_elem_of_lookup_2 in Hj. apply list_elem_of_split in Hj as (l1 & l2 & ->).
    exists l1, l2. split; [reflexivity | apply sublist_nil_l].
  - destruct j as [|j]; [lia|]. simpl in Hi, Hj.
    apply sublist_cons. apply (IH i j); [lia | assumption ..].
Qed.

Lemma sublist_pair_lookup {A : Type} (l : list A) (a b : A) :
  [a; b] `sublist_of` l →
  ∃ m n, (m < n)%nat ∧ l !! m = Some a ∧ l !! n = Some b.
Proof.
  induction l as [|x l IH]; intros H; inversion H; subst.
  - assert (Hb : b ∈ l).
    { apply list_elem_of_In. eapply sublist_In; [eassumption | now left]. }
    apply list_elem_of_lookup_1 in Hb as [n Hn].
    exists 0%nat, (S n). repeat split; [lia | assumption].
  - destruct (IH H2) as (m & n & Hmn & Hm & Hn).
    exists (S m), (S n). repeat split; [lia | assumption ..].
Qed.

Lemma filter_sublist {A : Type} (p : A → bool) (l : list A) :
  List.filter p l `sublist_of` l.
Proof.
  induction l as [|x l IH]; simpl; [constructor|].
  destruct (p x); [now apply sublist_skip | now apply sublist_cons].
Qed.

Lemma sublist_filter_mono {A : Type} (p : A → bool) (l k : list A) :
  l `sublist_of` k → List.filter p l `sublist_of` List.filter p k.
Proof.
  induction 1 as [|x l k H IH|x l k H IH]; simpl.
  - constructor.
  - destruct (p x); [now apply sublist_skip | exact IH].
  - destruct (p x); [now apply sublist_cons | exact IH].
Qed.

(** ** C7 *)

Lemma scoresBySection_entries (perQuestion : gmap string Z) :
  scoresBySection perQuestion
  = map (λ '(sec, ids), (sec, section_score perQuestion ids)) section_map.
Proof. reflexivity. Qed.

Lemma weakSections_eq (perQuestion : gmap string Z) (percent : option Z) :
  weakSections (generateRecommendations perQuestion percent)
  = map (λ '(k, v), {| sectionId := k; ws_score := v |})
      (take 3 (sorted_candidates perQuestion)).
Proof. reflexivity. Qed.

Lemma weakSections_lookup (perQuestion : gmap string Z) (percent : option Z)
    (i : nat) (w : WeakSection) :
  weakSections (generateRecommendations perQuestion percent) !! i = Some w →
  take 3 (sorted_candidates perQuestion) !! i = Some (sectionId w, ws_score w).
Proof.
  rewrite weakSections_eq, list_lookup_fmap.
  destruct (take 3 (sorted_candidates perQuestion) !! i) as [[k v]|];
    intros H; [|discriminate H].
  injection H as <-. reflexivity.
Qed.

Lemma sorted_candidates_In (perQuestion : gmap string Z) (e : string * Z) :
  In e (sorted_candidates perQuestion) →
  In e (scoresBySection perQuestion) ∧ e.2 < 70.
Proof.
  unfold sorted_candidates. rewrite (sort_In snd). rewrite List.filter_In.
  destruct e as [k v]. simpl. intros [H L]. split; [exact H|]. lia.
Qed.

(** C7: whatever the per-question results, the weak sections returned are
    sections of the table with their scores, each below 70; there are at
    most 3 of them; their scores are non-decreasing along the list; and two
    of equal score come in the order the sections have in the table. *)
Theorem weak_sections_sorted (perQuestion : gmap string Z) (percent : option Z) :
  let scores := scoresBySection perQuestion in
  let weak := weakSections (generateRecommendations perQuestion percent) in
  scores = map (λ '(sec, ids), (sec, section_score perQuestion ids)) section_map ∧
  (∀ w, In w weak → In (sectionId w, ws_score w) scores ∧ ws_score w < 70) ∧
  (List.length weak ≤ 3)%nat ∧
  (∀ (i j : nat) (a b : WeakSection),
     (i < j)%nat → weak !! i = Some a → weak !! j = Some b →
     ws_score a <= ws_score b ∧
     (ws_score a = ws_score b →
      ∃ m n : nat, (m < n)%nat ∧
        scores !! m = Some (sectionId a, ws_score a) ∧
        scores !! n = Some (sectionId b, ws_score b))).
Proof.
  intros scores weak. split; [apply scoresBySection_entries|].
  split; [|split].
  - intros w Hw. apply list_elem_of_In, list_elem_of_lookup_1 in Hw as [i Hi].
    apply weakSections_lookup in Hi.
    apply list_elem_of_lookup_2, list_elem_of_In in Hi.
    apply (sublist_In _ _ _ (sublist_take _ 3)) in Hi.
    now apply sorted_candidates_In in Hi.
  - subst weak. rewrite weakSections_eq, length_map, length_take. lia.
  - intros i j a b Hij Ha Hb.
    apply weakSections_lookup in Ha, Hb.
    pose proof (lookup_pair_sublist _ i j _ _ Hij Ha Hb) as Hs.
    assert (Hs' : [(sectionId a, ws_score a); (sectionId b, ws_score b)]
                  `sublist_of` sorted_candidates perQuestion)
      by (etrans; [exact Hs | apply sublist_take]).
    split.
    + apply (sorted_sublist_pair (λ x y : string * Z, x.2 <= y.2) _ _ _
               (sort_sorted snd _) Hs').
    + intros E. apply sublist_pair_lookup.
      apply (sublist_filter_mono (λ e : string * Z, e.2 =? ws_score a)) in Hs'.
      assert (F : List.filter (λ e : string * Z, e.2 =? ws_score a)
                    [(sectionId a, ws_score a); (sectionId b, ws_score b)]
                  = [(sectionId a, ws_score a); (sectionId b, ws_score b)]).
      { simpl. rewrite Z.eqb_refl.
        now rewrite (proj2 (Z.eqb_eq (ws_score b) (ws_score a)) (eq_sym E)). }
      rewrite F in Hs'. clear F. unfold sorted_candidates in Hs'.
      change (List.filter (λ e : string * Z, e.2 =? ws_score a)) with
        (with_key (snd : string * Z → Z) (ws_score a)) in Hs'.
      rewrite (sort_with_key snd) in Hs'.
      etrans; [exact Hs'|]. etrans; apply filter_sublist.
Qed.

Lemma weak_sections_sorted_witness :
  weakSections (generateRecommendations some_results (Some 46))
  = [ {| sectionId := "development"; ws_score := 25 |};
      {| sectionId := "macro"; ws_score := 29 |};
      {| sectionId := "foundations"; ws_score := 50 |} ] ∧
  25 <= 50.
Proof.
  split; [vm_compute; reflexivity|].
  pose proof (weak_sections_sorted some_results (Some 46)) as H.
  cbv zeta in H. destruct H as (_ & _ & _ & H).
  apply (H 0%nat 2%nat {| sectionId := "development"; ws_score := 25 |}
           {| sectionId := "foundations"; ws_score := 50 |}).
  - lia.
  - vm_compute; reflexivity.
  - vm_compute; reflexivity.
Defined.

(** * Further properties of the application *)

(** ** Strings *)

Lemma append_cons (x : ascii) (a b : string) :
  String x a +:+ b = String x (a +:+ b).
Proof. reflexivity. Qed.

Lemma append_empty_l (a : string) : "" +:+ a = a.
Proof. reflexivity. Qed.

Lemma append_assoc (a b c : string) : (a +:+ b) +:+ c = a +:+ (b +:+ c).
Proof.
  induction a as [|x a IH]; [reflexivity|]. rewrite !append_cons. now f_equal.
Qed.

Lemma append_empty_r (a : string) : a +:+ "" = a.
Proof.
  induction a as [|x a IH]; [reflexivity|]. rewrite append_cons. now f_equal.
Qed.

Lemma prefix_spec (p t : string) :
  String.prefix p t = true ↔ ∃ b, t = p +:+ b.
Proof.
  revert p. induction t as [|y t IH]; intros p.
  - destruct p as [|x p]; simpl.
    + split; [exists ""; reflexivity | reflexivity].
    + split; [discriminate | intros [b H]; discriminate H].
  - destruct p as [|x p]; simpl.
    + split; [exists (String y t); reflexivity | reflexivity].
    + destruct (ascii_dec x y) as [->|N].
      * rewrite IH. split; intros [b H]; exists b.
        -- now rewrite H.
        -- now injection H.
      * split; [discriminate | intros [b H]; injection H; congruence].
Qed.

(** [t.includes(p)] holds exactly when [p] is a substring of [t]. *)
Lemma includes_spec (t p : string) :
  JS.includes t p = true ↔ ∃ a b, t = a +:+ p +:+ b.
Proof.
  induction t as [|y t IH].
  - change (JS.includes "" p) with (String.prefix p "" || false).
    rewrite orb_false_r, prefix_spec. split.
    + intros [b H]. exists "", b. exact H.
    + intros (a & b & H). destruct a; [|discriminate H]. exists b. exact H.
  - change (JS.includes (String y t) p)
      with (String.prefix p (String y t) || JS.includes t p).
    rewrite orb_true_iff, IH, prefix_spec. split.
    + intros [[b H]|(a & b & H)].
      * exists "", b. exact H.
      * exists (String y a), b. rewrite append_cons. now rewrite H.
    + intros (a & b & H). destruct a as [|x a].
      * left. exists b. exact H.
      * right. rewrite append_cons in H. injection H as _ H. exists a, b. exact H.
Qed.

Lemma includes_context (t p a b : string) :
  JS.includes t p = true → JS.includes (a +:+ t +:+ b) p = true.
Proof.
  rewrite !includes_spec. intros (a' & b' & ->).
  exists (a +:+ a'), (b' +:+ b). now rewrite !append_assoc.
Qed.

Lemma includes_trans (t k p : string) :
  JS.includes t k = true → JS.includes k p = true → JS.includes t p = true.
Proof.
  intros H1 H2. apply includes_spec in H1 as (a & b & ->).
  now apply includes_context.
Qed.

Lemma toLowerCase_app (a b : string) :
  JS.toLowerCase (a +:+ b) = JS.toLowerCase a +:+ JS.toLowerCase b.
Proof.
  induction a as [|x a IH]; [reflexivity|]. rewrite append_cons. simpl.
  rewrite append_cons. now f_equal.
Qed.

Lemma lower_char_idem (c : ascii) : JS.lower_char (JS.lower_char c) = JS.lower_char c.
Proof. destruct c as [[] [] [] [] [] [] [] []]; reflexivity. Qed.

Lemma toLowerCase_idem (s : string) :
  JS.toLowerCase (JS.toLowerCase s) = JS.toLowerCase s.
Proof.
  induction s as [|c s IH]; simpl; [reflexivity|]. now rewrite lower_char_idem, IH.
Qed.

Lemma rev_string_app (acc s : string) :
  JS.rev_string acc s = JS.rev_string "" s +:+ acc.
Proof.
  revert acc. induction s as [|c s IH]; intros acc; simpl; [reflexivity|].
  rewrite (IH (String c acc)), (IH (String c "")), append_assoc. reflexivity.
Qed.

Lemma string_forall_app (P : ascii → bool) (a b : string) :
  string_forall P (a +:+ b) = string_forall P a && string_forall P b.
Proof.
  induction a as [|x a IH]; simpl; [reflexivity|]. now rewrite IH, andb_assoc.
Qed.

Lemma string_forall_rev (P : ascii → bool) (s : string) :
  string_forall P (JS.rev_string "" s) = string_forall P s.
Proof.
  induction s as [|c s IH]; simpl; [reflexivity|].
  rewrite rev_string_app, string_forall_app, IH. simpl.
  rewrite andb_true_r. apply andb_comm.
Qed.

(** ** The tokens of a criterion *)

(** Every piece of the split is a run of letters of the text read: with
    [pre] the text before the piece being read, the pieces are substrings of
    the whole. *)
Lemma split_from_pieces (s cur pre : string) (in_sep : bool) (p : string) :
  (in_sep = true → cur = "") →
  string_forall JS.is_lower cur = true →
  In p (JS.split_from cur in_sep s) →
  string_forall JS.is_lower p = true ∧
  ∃ a b, pre +:+ JS.rev_string "" cur +:+ s = a +:+ p +:+ b.
Proof.
  revert cur pre in_sep. induction s as [|c s IH]; intros cur pre in_sep Hsep Hcur; simpl.
  - intros [<-|[]]. split; [now rewrite string_forall_rev|].
    exists pre, "". reflexivity.
  - destruct (JS.is_lower c) eqn:L.
    + intros Hp. destruct (IH (String c cur) pre false) as (Hl & a & b & E); auto.
      * discriminate.
      * simpl. now rewrite L.
      * split; [exact Hl|]. exists a, b. rewrite <- E. simpl.
        rewrite (rev_string_app (String c "")), append_assoc. reflexivity.
    + destruct in_sep.
      * intros Hp. rewrite (Hsep eq_refl) in *. simpl.
        destruct (IH "" (pre +:+ String c "") true) as (Hl & a & b & E); auto.
        split; [exact Hl|]. exists a, b. rewrite <- E. simpl.
        now rewrite append_assoc.
      * intros [<-|Hp].
        -- split; [now rewrite string_forall_rev|].
           exists pre, (String c s). reflexivity.
        -- destruct (IH "" (pre +:+ JS.rev_string "" cur +:+ String c "") true)
             as (Hl & a & b & E); auto.
           split; [exact Hl|]. exists a, b. rewrite <- E. simpl.
           now rewrite !append_assoc.
Qed.

(** X1: every token of a criterion is a non-empty run of lower-case
    letters that occurs in the lowercased criterion. *)
Theorem tokens_sound (k p : string) :
  In p (tokens k) →
  JS.nonempty p = true ∧
  string_forall JS.is_lower p = true ∧
  JS.includes (JS.toLowerCase k) p = true.
Proof.
  intros H. split; [now apply (tokens_nonempty k)|].
  unfold tokens in H. apply List.filter_In in H as [H _].
  destruct (split_from_pieces (JS.toLowerCase k) "" "" false p) as (Hl & a & b & E);
    [discriminate | reflexivity | exact H |].
  split; [exact Hl|]. apply includes_spec. exists a, b. exact E.
Qed.

Lemma tokens_sound_witness :
  JS.includes "time dimension (long run)" "dimension" = true.
Proof.
  apply (tokens_sound "Time dimension (long run)" "dimension").
  simpl. auto.
Defined.

Lemma nonempty_rev (s : string) : JS.nonempty (JS.rev_string "" s) = JS.nonempty s.
Proof.
  destruct s as [|c s]; [reflexivity|]. simpl. rewrite rev_string_app.
  destruct (JS.rev_string "" s); reflexivity.
Qed.

Lemma split_from_has_piece (s cur : string) (in_sep : bool) :
  JS.nonempty cur = true ∨ string_forall (λ c, negb (JS.is_lower c)) s = false →
  ∃ p, In p (JS.split_from cur in_sep s) ∧ JS.nonempty p = true.
Proof.
  revert cur in_sep. induction s as [|c s IH]; intros cur in_sep; simpl.
  - intros [H|H]; [|discriminate H].
    exists (JS.rev_string "" cur). split; [now left | now rewrite nonempty_rev].
  - destruct (JS.is_lower c) eqn:L; simpl.
    + intros _. apply IH. now left.
    + intros H. destruct in_sep.
      * apply IH. exact H.
      * destruct H as [H|H].
        -- exists (JS.rev_string "" cur). split; [now left | now rewrite nonempty_rev].
        -- destruct (IH "" true (or_intror H)) as (p & Hp & Hn).
           exists p. split; [now right | exact Hn].
Qed.

Lemma toLowerCase_has_letter (k : string) :
  string_forall (λ c, negb (JS.is_alpha c)) k = false →
  string_forall (λ c, negb (JS.is_lower c)) (JS.toLowerCase k) = false.
Proof.
  induction k as [|c k IH]; simpl; [discriminate|].
  rewrite lower_char_is_lower.
  destruct (JS.is_alpha c); simpl; [reflexivity | exact IH].
Qed.

Lemma tokens_has_letter (k : string) : ¬ letter_free k → tokens k ≠ [].
Proof.
  unfold letter_free. intros H.
  destruct (string_forall (λ c, negb (JS.is_alpha c)) k) eqn:E; [congruence|].
  destruct (split_from_has_piece (JS.toLowerCase k) "" false) as (p & Hp & Hn).
  { right. now apply toLowerCase_has_letter. }
  unfold tokens, JS.split_non_letters. intros T.
  assert (Hin : In p (List.filter JS.nonempty (JS.split_from "" false (JS.toLowerCase k))))
    by (apply List.filter_In; now split).
  rewrite T in Hin. destruct Hin.
Qed.

(** X2: a criterion has a token exactly when its lowercased text holds a
    character of [a-z]; a criterion with a letter of [A-Z] or [a-z] has one
    and, among the criteria of ASCII characters, no other has; and every
    answer whose lowercased text contains the lowercased criterion then hits
    it. *)
Theorem criterion_hit_by_quote (k : string) :
  (tokens k = [] ↔ no_lower_letter (JS.toLowerCase k)) ∧
  (¬ letter_free k → tokens k ≠ []) ∧
  (ascii_only k → tokens k ≠ [] → ¬ letter_free k) ∧
  (tokens k ≠ [] →
   ∀ A, JS.includes (JS.toLowerCase A) (JS.toLowerCase k) = true →
        hit (JS.toLowerCase A) k = true).
Proof.
  split; [|split; [|split]].
  - split; [|apply tokens_no_lower_letter].
    intros T. apply toLowerCase_letter_free. unfold letter_free.
    destruct (string_forall (λ c, negb (JS.is_alpha c)) k) eqn:E; [reflexivity|].
    exfalso. apply (tokens_has_letter k); [|exact T].
    unfold letter_free. congruence.
  - apply tokens_has_letter.
  - intros _ T L. apply T. now apply tokens_letter_free.
  - intros N A H. apply hit_all_tokens; [exact N|].
    intros p Hp. apply includes_trans with (JS.toLowerCase k); [exact H|].
    unfold tokens in Hp. apply List.filter_In in Hp as [Hp _].
    destruct (split_from_pieces (JS.toLowerCase k) "" "" false p) as (_ & a & b & E);
      [discriminate | reflexivity | exact Hp |].
    apply includes_spec. exists a, b. exact E.
Qed.

Lemma criterion_hit_by_quote_witness :
  hit (JS.toLowerCase "I would say: PRICE LEVEL DIFFERENCES matter") "Price level differences"
  = true.
Proof.
  apply (proj2 (proj2 (proj2 (criterion_hit_by_quote "Price level differences")))).
  - intros E. vm_compute in E. discriminate E.
  - vm_compute. reflexivity.
Defined.

(** ** The score in closed form *)

Lemma hits_count (t : string) (ks : list string) (a : Z) :
  fold_left (count_hit t) ks a
  = a + Z.of_nat (List.length (List.filter (hit t) ks)).
Proof.
  revert a. induction ks as [|k ks IH]; intros a; simpl; [lia|].
  rewrite IH. unfold count_hit. destruct (hit t k); simpl List.length; lia.
Qed.

Lemma filter_length_le {A : Type} (f : A → bool) (l : list A) :
  (List.length (List.filter f l) ≤ List.length l)%nat.
Proof.
  induction l as [|x l IH]; simpl; [lia|]. destruct (f x); simpl; lia.
Qed.

Lemma Math_round_frac (a n : Z) :
  0 < n → JS.Math_round (inject_Z a / inject_Z n) = (2 * a + n) / (2 * n).
Proof.
  intros N. destruct n as [|p|p]; try lia.
  unfold JS.Math_round.
  rewrite (Qfloor_comp _ ((2 * a + Z.pos p) # (2 * p))).
  - reflexivity.
  - unfold Qeq, Qplus, Qdiv, Qmult, Qinv, inject_Z. simpl Qnum. simpl Qden.
    rewrite ?Pos2Z.inj_mul. ring.
Qed.

Lemma criteria_count_pos (R : Rubric) : 0 < criteria_count R.
Proof.
  unfold criteria_count, JS.or_default.
  destruct (Z.eqb_spec (Z.of_nat (List.length (criteria R))) 0); lia.
Qed.

Lemma hits_le_count (A : string) (R : Rubric) : 0 <= hits A R <= criteria_count R.
Proof.
  unfold hits, criteria_count, JS.or_default.
  pose proof (filter_length_le (hit (JS.toLowerCase A)) (criteria R)).
  destruct (Z.eqb_spec (Z.of_nat (List.length (criteria R))) 0); lia.
Qed.

(** The cap of the ratio at 1 never applies, and the score is the rounded
    share of the maximum score. *)
Lemma scoreShortAnswer_closed (A : string) (R : Rubric) :
  scoreShortAnswer A R
  = if JS.nonempty A
    then (2 * (hits A R * max_score R) + criteria_count R) / (2 * criteria_count R)
    else 0.
Proof.
  unfold scoreShortAnswer. destruct (JS.nonempty A); cbn [negb]; [|reflexivity].
  cbv zeta. rewrite hits_count. rewrite Z.add_0_l.
  change (Z.of_nat (List.length (List.filter (hit (JS.toLowerCase A)) (criteria R))))
    with (hits A R).
  change (JS.or_default (Z.of_nat (List.length (criteria R))) 3) with (criteria_count R).
  change (JS.or_default (r_maxScore R) 3) with (max_score R).
  pose proof (criteria_count_pos R) as N. pose proof (hits_le_count A R) as [H0 H1].
  assert (P : (0 < inject_Z (criteria_count R))%Q) by (rewrite <- (Zlt_Qlt 0); exact N).
  assert (L : Qle_bool (inject_Z (hits A R) / inject_Z (criteria_count R)) 1 = true).
  { apply Qle_bool_iff. apply Qle_shift_div_r; [exact P|].
    rewrite Qmult_1_l. rewrite <- Zle_Qle. exact H1. }
  unfold JS.Math_min. rewrite L.
  rewrite <- (Math_round_frac _ _ N). apply Math_round_comp.
  rewrite inject_Z_mult. unfold Qdiv. ring.
Qed.

Lemma hit_empty (k : string) : hit "" k = false.
Proof.
  unfold hit. apply not_true_is_false. intros H.
  apply existsb_exists in H as (p & Hp & Hi).
  rewrite includes_empty_text in Hi; [discriminate|]. now apply (tokens_nonempty k).
Qed.

Lemma hits_empty (R : Rubric) : hits "" R = 0.
Proof.
  unfold hits. cbn [JS.toLowerCase].
  induction (criteria R) as [|k ks IH]; [reflexivity|].
  cbn [List.filter]. now rewrite hit_empty.
Qed.

(** The score is the rounded share, for the empty answer too. *)
Lemma scoreShortAnswer_share (A : string) (R : Rubric) :
  scoreShortAnswer A R
  = (2 * (hits A R * max_score R) + criteria_count R) / (2 * criteria_count R).
Proof.
  rewrite scoreShortAnswer_closed. destruct A as [|c A]; [|reflexivity].
  cbn [JS.nonempty]. rewrite hits_empty. pose proof (criteria_count_pos R).
  symmetry. apply Z.div_small. lia.
Qed.

(** X3: the score is a whole number nearest to the share of the maximum
    score that the criteria hit make up, hits times maximum over the number
    of criteria (the cap of the ratio at 1 is never reached); unless that
    share lies half-way between two integers it is the share rounded half
    up. This for rubrics whose number of criteria times the maximum score is
    below 2^50, where the quotient and the product are computed to within
    less than the smallest gap that can decide the rounding. An empty answer
    scores 0. A missing or zero maximum score counts as 3, and so does an
    empty list of criteria. *)
Theorem score_is_rounded_share (A : string) (R : Rubric) :
  0 <= hits A R <= criteria_count R ∧
  (JS.nonempty A = false → scoreShortAnswer A R = 0) ∧
  (criteria_count R * Z.abs (max_score R) < 2 ^ 50 →
   2 * Z.abs (criteria_count R * scoreShortAnswer A R - hits A R * max_score R)
     <= criteria_count R ∧
   (¬ half_way (hits A R) (max_score R) (criteria_count R) →
    scoreShortAnswer A R
    = (2 * (hits A R * max_score R) + criteria_count R) / (2 * criteria_count R))) ∧
  (r_maxScore R = 0 → max_score R = 3) ∧
  (criteria R = [] → criteria_count R = 3 ∧ hits A R = 0).
Proof.
  split; [apply hits_le_count|]. split; [|split; [|split]].
  - intros E. rewrite scoreShortAnswer_closed. now rewrite E.
  - intros _. split; [|intros _; apply scoreShortAnswer_share].
    rewrite scoreShortAnswer_share. pose proof (criteria_count_pos R) as N.
    set (n := criteria_count R) in *. set (x := hits A R * max_score R).
    pose proof (Z.div_mod (2 * x + n) (2 * n)) as D.
    pose proof (Z.mod_pos_bound (2 * x + n) (2 * n)) as B.
    set (q := (2 * x + n) / (2 * n)) in *.
    assert (E : 2 * (n * q) = 2 * n * q) by ring. lia.
  - intros E. unfold max_score. now rewrite E.
  - intros E. unfold criteria_count, hits. now rewrite E.
Qed.

Lemma score_is_rounded_share_witness :
  scoreShortAnswer "Consumer surplus: CS falls"
    {| criteria := ["CS falls"; "PS rises"]; r_maxScore := 4 |} = 2.
Proof.
  destruct (score_is_rounded_share "Consumer surplus: CS falls"
              {| criteria := ["CS falls"; "PS rises"]; r_maxScore := 4 |})
    as (_ & _ & H & _).
  destruct H as [_ H]; [vm_compute; reflexivity|].
  rewrite H; [vm_compute; reflexivity|].
  unfold half_way. vm_compute. discriminate.
Defined.

Lemma hit_mono (t k a b : string) :
  hit t k = true → hit (a +:+ t +:+ b) k = true.
Proof.
  unfold hit. rewrite !existsb_exists. intros (p & Hp & Hi).
  exists p. split; [exact Hp | now apply includes_context].
Qed.

Lemma filter_length_mono {A : Type} (f g : A → bool) (l : list A) :
  (∀ x, f x = true → g x = true) →
  (List.length (List.filter f l) ≤ List.length (List.filter g l))%nat.
Proof.
  intros H. induction l as [|x l IH]; simpl; [lia|].
  destruct (f x) eqn:F.
  - rewrite (H x F). simpl. lia.
  - destruct (g x); simpl; lia.
Qed.

Lemma nonempty_app (a b : string) :
  JS.nonempty (a +:+ b) = JS.nonempty a || JS.nonempty b.
Proof. destruct a; [reflexivity|]. reflexivity. Qed.

(** X4: with a maximum score that is not negative, text added before or
    after an answer never lowers its score. *)
Theorem score_monotone_in_answer (A pre post : string) (R : Rubric) :
  0 <= r_maxScore R →
  scoreShortAnswer A R <= scoreShortAnswer (pre +:+ A +:+ post) R.
Proof.
  intros M. rewrite !scoreShortAnswer_closed.
  pose proof (criteria_count_pos R) as N.
  assert (Mp : 0 <= max_score R).
  { unfold max_score, JS.or_default. destruct (Z.eqb_spec (r_maxScore R) 0); lia. }
  assert (H : hits A R <= hits (pre +:+ A +:+ post) R).
  { unfold hits. apply Nat2Z.inj_le. apply filter_length_mono. intros k Hk.
    rewrite !toLowerCase_app. now apply hit_mono. }
  pose proof (hits_le_count A R) as [H0 _].
  rewrite !nonempty_app.
  destruct (JS.nonempty A); simpl.
  - rewrite orb_true_r. apply Z.div_le_mono; nia.
  - destruct (JS.nonempty pre || JS.nonempty post); [|lia].
    apply Z.div_pos; [|lia].
    pose proof (hits_le_count (pre +:+ A +:+ post) R). nia.
Qed.

Lemma score_monotone_in_answer_witness :
  scoreShortAnswer "prices" {| criteria := ["Higher prices"; "Lower output"]; r_maxScore := 4 |}
  <= scoreShortAnswer ("So " +:+ "prices" +:+ " rise and output falls")
       {| criteria := ["Higher prices"; "Lower output"]; r_maxScore := 4 |}.
Proof.
  apply (score_monotone_in_answer "prices" "So " " rise and output falls"
           {| criteria := ["Higher prices"; "Lower output"]; r_maxScore := 4 |}).
  simpl. lia.
Defined.

Lemma filter_length_perm {A : Type} (f : A → bool) (l l' : list A) :
  Permutation l l' →
  List.length (List.filter f l) = List.length (List.filter f l').
Proof.
  induction 1 as [|x l l' _ IH|x y l|l l' l'' _ IH1 _ IH2]; simpl.
  - reflexivity.
  - destruct (f x); simpl; now rewrite IH.
  - destruct (f x), (f y); reflexivity.
  - now rewrite IH1.
Qed.

(** X5: the score does not depend on the order of the criteria. *)
Theorem score_order_independent (A : string) (cs cs' : list string) (m : Z) :
  Permutation cs cs' →
  scoreShortAnswer A {| criteria := cs; r_maxScore := m |}
  = scoreShortAnswer A {| criteria := cs'; r_maxScore := m |}.
Proof.
  intros P. rewrite !scoreShortAnswer_closed.
  unfold hits, criteria_count, max_score; simpl.
  now rewrite (filter_length_perm _ _ _ P), (Permutation_length P).
Qed.

Lemma score_order_independent_witness :
  scoreShortAnswer "ps rises" {| criteria := ["CS falls"; "PS rises"]; r_maxScore := 4 |}
  = scoreShortAnswer "ps rises" {| criteria := ["PS rises"; "CS falls"]; r_maxScore := 4 |}.
Proof.
  apply (score_order_independent "ps rises" ["CS falls"; "PS rises"]
           ["PS rises"; "CS falls"] 4).
  apply perm_swap.
Defined.

Lemma tokens_toLowerCase (k : string) : tokens (JS.toLowerCase k) = tokens k.
Proof. unfold tokens. now rewrite toLowerCase_idem. Qed.

Lemma hits_same_lower (t : string) (cs cs' : list string) :
  map JS.toLowerCase cs = map JS.toLowerCase cs' →
  List.length (List.filter (hit t) cs) = List.length (List.filter (hit t) cs').
Proof.
  revert cs'. induction cs as [|k cs IH]; intros [|k' cs'] E; try discriminate E.
  - reflexivity.
  - simpl in E. injection E as Ek E. simpl.
    assert (H : hit t k = hit t k').
    { unfold hit. now rewrite <- (tokens_toLowerCase k), Ek, tokens_toLowerCase. }
    rewrite H. destruct (hit t k'); simpl; now rewrite (IH cs' E).
Qed.

(** X6: the scorer ignores letter case, in the answer and in the criteria:
    answers with the same lowercased text, and rubrics whose criteria are the
    same once lowercased, score the same. *)
Theorem score_ignores_case (A B : string) (cs cs' : list string) (m : Z) :
  JS.toLowerCase A = JS.toLowerCase B →
  map JS.toLowerCase cs = map JS.toLowerCase cs' →
  scoreShortAnswer A {| criteria := cs; r_maxScore := m |}
  = scoreShortAnswer B {| criteria := cs'; r_maxScore := m |}.
Proof.
  intros EA Ec. rewrite !scoreShortAnswer_closed.
  rewrite <- (nonempty_toLowerCase A), <- (nonempty_toLowerCase B), EA.
  unfold hits, criteria_count, max_score; simpl. rewrite EA.
  rewrite (hits_same_lower _ cs cs' Ec).
  assert (L : List.length cs = List.length cs').
  { rewrite <- (length_map JS.toLowerCase cs), Ec. apply length_map. }
  now rewrite L.
Qed.

Lemma score_ignores_case_witness :
  scoreShortAnswer "TAX Revenue" {| criteria := ["Tax revenue"]; r_maxScore := 2 |}
  = scoreShortAnswer "tax revenue" {| criteria := ["TAX REVENUE"]; r_maxScore := 2 |}.
Proof.
  apply (score_ignores_case "TAX Revenue" "tax revenue" ["Tax revenue"] ["TAX REVENUE"] 2);
    reflexivity.
Defined.

(** X7: an answer that hits no criterion scores 0 whatever the maximum
    score; so do the empty answer and every answer to a rubric without
    criteria. *)
Theorem score_zero_without_hit (A : string) (R : Rubric) :
  A = "" ∨ Forall (λ k, hit (JS.toLowerCase A) k = false) (criteria R) →
  scoreShortAnswer A R = 0.
Proof.
  intros [->|H]; [reflexivity|]. rewrite scoreShortAnswer_closed.
  destruct (JS.nonempty A); [|reflexivity].
  assert (E : hits A R = 0).
  { unfold hits. induction H as [|k ks Hk _ IH]; simpl; [reflexivity|].
    now rewrite Hk. }
  rewrite E. pose proof (criteria_count_pos R).
  apply Z.div_small. lia.
Qed.

Lemma score_zero_without_hit_witness :
  scoreShortAnswer "I do not know" {| criteria := []; r_maxScore := 4 |} = 0.
Proof.
  apply (score_zero_without_hit "I do not know" {| criteria := []; r_maxScore := 4 |}).
  right. constructor.
Defined.

(** ** The pattern of a score *)

Lemma span_digits_spec (s : string) :
  s = (Regex.span_digits s).1 +:+ (Regex.span_digits s).2 ∧
  string_forall JS.is_digit (Regex.span_digits s).1 = true ∧
  starts_with JS.is_digit (Regex.span_digits s).2 = false.
Proof.
  induction s as [|c s (IH1 & IH2 & IH3)]; simpl; [auto|].
  destruct (JS.is_digit c) eqn:D.
  - destruct (Regex.span_digits s) as [d r]. simpl in *.
    rewrite append_cons, <- IH1, D, IH2. auto.
  - simpl. auto.
Qed.

Lemma span_digits_app (d r : string) :
  string_forall JS.is_digit d = true → starts_with JS.is_digit r = false →
  Regex.span_digits (d +:+ r) = (d, r).
Proof.
  intros Hd Hr. induction d as [|c d IH].
  - rewrite append_empty_l. destruct r as [|x r]; [reflexivity|].
    simpl in *. now rewrite Hr.
  - simpl in Hd. apply andb_prop in Hd as [Hc Hd].
    rewrite append_cons. simpl. now rewrite Hc, (IH Hd).
Qed.

Lemma skip_spaces_spec (s : string) :
  ∃ sp, s = sp +:+ Regex.skip_spaces s ∧ string_forall JS.is_space sp = true.
Proof.
  induction s as [|c s (sp & E & H)]; simpl.
  - exists "". auto.
  - destruct (JS.is_space c) eqn:S.
    + exists (String c sp). rewrite append_cons, <- E. simpl. now rewrite S, H.
    + exists "". auto.
Qed.

Lemma skip_spaces_app (sp r : string) :
  string_forall JS.is_space sp = true → starts_with JS.is_space r = false →
  Regex.skip_spaces (sp +:+ r) = r.
Proof.
  intros Hs Hr. induction sp as [|c sp IH].
  - rewrite append_empty_l. destruct r as [|x r]; [reflexivity|].
    simpl in *. now rewrite Hr.
  - simpl in Hs. apply andb_prop in Hs as [Hc Hs].
    rewrite append_cons. simpl. now rewrite Hc, (IH Hs).
Qed.

Lemma match_point {X : Type} (f : string → X) (g : X) (s : string) :
  match s with
  | String "."%char r => f r
  | _ => g
  end
  = if starts_with (Ascii.eqb ".") s then f (string_tail s) else g.
Proof.
  destruct s as [|c r]; [reflexivity|].
  destruct c as [[] [] [] [] [] [] [] []]; reflexivity.
Qed.

Lemma match_slash {X : Type} (f : string → X) (g : X) (s : string) :
  match s with
  | String "/"%char r => f r
  | _ => g
  end
  = if starts_with (Ascii.eqb "/") s then f (string_tail s) else g.
Proof.
  destruct s as [|c r]; [reflexivity|].
  destruct c as [[] [] [] [] [] [] [] []]; reflexivity.
Qed.

(** [match_here] without the destructuring lets *)
Lemma match_here_eq (s : string) :
  Regex.match_here s
  = let d1 := (Regex.span_digits s).1 in
    let r1 := (Regex.span_digits s).2 in
    if negb (JS.nonempty d1) then None
    else
      let dot := if starts_with (Ascii.eqb ".") r1 then "." else "" in
      let r2 := if starts_with (Ascii.eqb ".") r1 then string_tail r1 else r1 in
      let d2 := (Regex.span_digits r2).1 in
      let r3 := (Regex.span_digits r2).2 in
      if starts_with (Ascii.eqb "/") (Regex.skip_spaces r3)
      then
        let d3 := (Regex.span_digits
                     (Regex.skip_spaces (string_tail (Regex.skip_spaces r3)))).1 in
        if negb (JS.nonempty d3) then None else Some (d1 +:+ dot +:+ d2, d3)
      else None.
Proof.
  unfold Regex.match_here. destruct (Regex.span_digits s) as [d1 r1].
  cbn [fst snd]. cbv zeta.
  destruct (negb (JS.nonempty d1)); [reflexivity|].
  rewrite (match_point (λ r, (".", r)) ("", r1)).
  destruct (starts_with (Ascii.eqb ".") r1).
  - destruct (Regex.span_digits (string_tail r1)) as [d2 r3]. cbn [fst snd].
    rewrite match_slash.
    destruct (starts_with (Ascii.eqb "/") (Regex.skip_spaces r3)); [|reflexivity].
    destruct (Regex.span_digits _) as [d3 r5]. reflexivity.
  - destruct (Regex.span_digits r1) as [d2 r3]. cbn [fst snd].
    rewrite match_slash.
    destruct (starts_with (Ascii.eqb "/") (Regex.skip_spaces r3)); [|reflexivity].
    destruct (Regex.span_digits _) as [d3 r5]. reflexivity.
Qed.

Lemma starts_with_char (c0 : ascii) (r : string) :
  starts_with (Ascii.eqb c0) r = true → r = String c0 (string_tail r).
Proof.
  destruct r as [|c r]; simpl; [discriminate|].
  now intros ->%Ascii.eqb_eq.
Qed.

Lemma space_not_digit (c : ascii) : JS.is_space c = true → JS.is_digit c = false.
Proof. destruct c as [[] [] [] [] [] [] [] []]; (discriminate || reflexivity). Qed.

Lemma space_not_point (c : ascii) : JS.is_space c = true → Ascii.eqb "." c = false.
Proof. destruct c as [[] [] [] [] [] [] [] []]; (discriminate || reflexivity). Qed.

Lemma digit_not_space (c : ascii) : JS.is_digit c = true → JS.is_space c = false.
Proof. destruct c as [[] [] [] [] [] [] [] []]; (discriminate || reflexivity). Qed.

Lemma starts_with_spaces_slash (P : ascii → bool) (sp x : string) :
  (∀ c, JS.is_space c = true → P c = false) → P "/"%char = false →
  string_forall JS.is_space sp = true →
  starts_with P (sp +:+ String "/" x) = false.
Proof.
  intros HP Hs Hsp. destruct sp as [|c sp]; [exact Hs|].
  simpl in Hsp. apply andb_prop in Hsp as [Hc _]. rewrite append_cons. simpl. auto.
Qed.

Lemma starts_with_digits (d x : string) :
  JS.nonempty d = true → string_forall JS.is_digit d = true →
  starts_with JS.is_digit (d +:+ x) = true ∧
  starts_with JS.is_space (d +:+ x) = false.
Proof.
  destruct d as [|c d]; [discriminate|]. intros _ H. simpl in H.
  apply andb_prop in H as [Hc _]. rewrite append_cons. simpl.
  split; [exact Hc | now apply digit_not_space].
Qed.

Lemma span_digits_nonempty (s : string) :
  starts_with JS.is_digit s = true → JS.nonempty (Regex.span_digits s).1 = true.
Proof.
  destruct s as [|c s]; simpl; [discriminate|]. intros ->.
  now destruct (Regex.span_digits s).
Qed.

(** the text from the white space before the slash on *)
Lemma match_tail (sp1 sp2 d3 post : string) :
  string_forall JS.is_space sp1 = true →
  string_forall JS.is_space sp2 = true →
  JS.nonempty d3 = true → string_forall JS.is_digit d3 = true →
  let R := sp1 +:+ "/" +:+ sp2 +:+ d3 +:+ post in
  starts_with JS.is_digit R = false ∧
  starts_with (Ascii.eqb ".") R = false ∧
  Regex.skip_spaces R = String "/" (sp2 +:+ d3 +:+ post) ∧
  JS.nonempty (Regex.span_digits (Regex.skip_spaces (sp2 +:+ d3 +:+ post))).1 = true.
Proof.
  intros H1 H2 Hn Hd R. subst R.
  destruct (starts_with_digits d3 post Hn Hd) as [Sd Ss].
  repeat split.
  - apply starts_with_spaces_slash; auto using space_not_digit.
  - apply starts_with_spaces_slash; auto using space_not_point.
  - now apply skip_spaces_app.
  - rewrite (skip_spaces_app sp2 _ H2 Ss). now apply span_digits_nonempty.
Qed.

Lemma match_here_complete (d1 dot d2 sp1 sp2 d3 post : string) :
  JS.nonempty d1 = true → string_forall JS.is_digit d1 = true →
  dot = "" ∨ dot = "." →
  string_forall JS.is_digit d2 = true →
  string_forall JS.is_space sp1 = true →
  string_forall JS.is_space sp2 = true →
  JS.nonempty d3 = true → string_forall JS.is_digit d3 = true →
  is_Some (Regex.match_here
             (d1 +:+ dot +:+ d2 +:+ sp1 +:+ "/" +:+ sp2 +:+ d3 +:+ post)).
Proof.
  intros N1 D1 Hdot D2 S1 S2 N3 D3.
  destruct (match_tail sp1 sp2 d3 post S1 S2 N3 D3) as (Rd & Rp & Rs & Rn).
  set (R := sp1 +:+ "/" +:+ sp2 +:+ d3 +:+ post) in *.
  rewrite match_here_eq. cbv zeta.
  destruct Hdot as [-> | ->].
  - rewrite append_empty_l, <- append_assoc.
    rewrite (span_digits_app (d1 +:+ d2) R);
      [|now rewrite string_forall_app, D1, D2 | exact Rd].
    cbn [fst snd]. rewrite nonempty_app, N1. cbn [orb negb]. rewrite Rp.
    assert (E0 : Regex.span_digits R = ("", R))
      by exact (span_digits_app "" R eq_refl Rd).
    rewrite E0. cbn [fst snd].
    rewrite Rs. cbn [starts_with string_tail]. rewrite Ascii.eqb_refl.
    rewrite Rn. cbn [negb]. eauto.
  - change ("." +:+ d2 +:+ R) with (String "." (d2 +:+ R)).
    rewrite (span_digits_app d1 (String "." (d2 +:+ R)) D1 eq_refl).
    cbn [fst snd]. rewrite N1. cbn [negb starts_with string_tail].
    rewrite Ascii.eqb_refl.
    rewrite (span_digits_app d2 R D2 Rd). cbn [fst snd].
    rewrite Rs. cbn [starts_with string_tail]. rewrite Ascii.eqb_refl.
    rewrite Rn. cbn [negb]. eauto.
Qed.

Lemma match_here_sound (s m1 m2 : string) :
  Regex.match_here s = Some (m1, m2) →
  ∃ d1 dot d2 sp1 sp2 post,
    s = d1 +:+ dot +:+ d2 +:+ sp1 +:+ "/" +:+ sp2 +:+ m2 +:+ post ∧
    m1 = d1 +:+ dot +:+ d2 ∧
    JS.nonempty d1 = true ∧ string_forall JS.is_digit d1 = true ∧
    (dot = "" ∨ dot = ".") ∧
    string_forall JS.is_digit d2 = true ∧
    string_forall JS.is_space sp1 = true ∧
    string_forall JS.is_space sp2 = true ∧
    JS.nonempty m2 = true ∧ string_forall JS.is_digit m2 = true.
Proof.
  rewrite match_here_eq. cbv zeta.
  destruct (span_digits_spec s) as (E1 & D1 & _).
  set (d1 := (Regex.span_digits s).1) in *.
  set (r1 := (Regex.span_digits s).2) in *.
  destruct (JS.nonempty d1) eqn:N1; cbn [negb]; [|discriminate].
  set (dot := if starts_with (Ascii.eqb ".") r1 then "." else "").
  set (r2 := if starts_with (Ascii.eqb ".") r1 then string_tail r1 else r1).
  assert (Er1 : r1 = dot +:+ r2).
  { subst dot r2. destruct (starts_with (Ascii.eqb ".") r1) eqn:P; [|reflexivity].
    now apply starts_with_char. }
  assert (Hdot : dot = "" ∨ dot = ".").
  { subst dot. destruct (starts_with (Ascii.eqb ".") r1); auto. }
  destruct (span_digits_spec r2) as (E2 & D2 & _).
  set (d2 := (Regex.span_digits r2).1) in *.
  set (r3 := (Regex.span_digits r2).2) in *.
  destruct (skip_spaces_spec r3) as (sp1 & E3 & S1).
  destruct (starts_with (Ascii.eqb "/") (Regex.skip_spaces r3)) eqn:Sl; [|discriminate].
  apply starts_with_char in Sl.
  set (r4 := string_tail (Regex.skip_spaces r3)) in *.
  destruct (skip_spaces_spec r4) as (sp2 & E4 & S2).
  destruct (span_digits_spec (Regex.skip_spaces r4)) as (E5 & D3 & _).
  set (d3 := (Regex.span_digits (Regex.skip_spaces r4)).1) in *.
  set (r5 := (Regex.span_digits (Regex.skip_spaces r4)).2) in *.
  destruct (JS.nonempty d3) eqn:N3; cbn [negb]; [|discriminate].
  intros [= <- <-].
  exists d1, dot, d2, sp1, sp2, r5. repeat split; auto.
  rewrite E1 at 1. rewrite Er1, E2, E3, Sl, E4, E5.
  change (String "/" (sp2 +:+ d3 +:+ r5)) with ("/" +:+ sp2 +:+ d3 +:+ r5).
  reflexivity.
Qed.

Lemma search_unfold (s : string) :
  Regex.search s
  = match Regex.match_here s with
    | Some m => Some m
    | None =>
        match s with
        | EmptyString => None
        | String _ s' => Regex.search s'
        end
    end.
Proof. destruct s; reflexivity. Qed.

Lemma search_complete (s : string) :
  holds_score_pattern s → is_Some (Regex.search s).
Proof.
  intros (pre & d1 & dot & d2 & sp1 & sp2 & d3 & post & -> & H).
  destruct H as (N1 & D1 & Hdot & D2 & S1 & S2 & N3 & D3).
  pose proof (match_here_complete d1 dot d2 sp1 sp2 d3 post N1 D1 Hdot D2 S1 S2 N3 D3)
    as [m Hm].
  set (X := d1 +:+ dot +:+ d2 +:+ sp1 +:+ "/" +:+ sp2 +:+ d3 +:+ post) in *.
  induction pre as [|c pre IH].
  - rewrite append_empty_l, search_unfold, Hm. eauto.
  - rewrite append_cons, search_unfold.
    destruct (Regex.match_here (String c (pre +:+ X))); [eauto | exact IH].
Qed.

Lemma search_sound (s m1 m2 : string) :
  Regex.search s = Some (m1, m2) →
  ∃ pre post, 
    (∃ d1 dot d2 sp1 sp2,
       s = pre +:+ d1 +:+ dot +:+ d2 +:+ sp1 +:+ "/" +:+ sp2 +:+ m2 +:+ post ∧
       m1 = d1 +:+ dot +:+ d2 ∧
       JS.nonempty d1 = true ∧ string_forall JS.is_digit d1 = true ∧
       (dot = "" ∨ dot = ".") ∧
       string_forall JS.is_digit d2 = true ∧
       string_forall JS.is_space sp1 = true ∧
       string_forall JS.is_space sp2 = true ∧
       JS.nonempty m2 = true ∧ string_forall JS.is_digit m2 = true).
Proof.
  induction s as [|c s IH]; rewrite search_unfold.
  - destruct (Regex.match_here "") as [m|] eqn:M; [|discriminate].
    intros [= ->]. apply match_here_sound in M
      as (d1 & dot & d2 & sp1 & sp2 & post & E & H).
    exists "", post, d1, dot, d2, sp1, sp2. split; [exact E | exact H].
  - destruct (Regex.match_here (String c s)) as [m|] eqn:M.
    + intros [= ->]. apply match_here_sound in M
        as (d1 & dot & d2 & sp1 & sp2 & post & E & H).
      exists "", post, d1, dot, d2, sp1, sp2. split; [exact E | exact H].
    + intros H. destruct (IH H) as (pre & post & d1 & dot & d2 & sp1 & sp2 & E & H').
      exists (String c pre), post, d1, dot, d2, sp1, sp2.
      split; [|exact H']. rewrite append_cons. now rewrite E.
Qed.

(** X8: in a text of ASCII characters [content.match] finds a score exactly
    when the text holds the pattern (digits, possibly a point and more
    digits, white space, a slash, white space, digits): the greedy reading of
    the matcher misses no match. The second group it returns is a non-empty
    run of digits and the first starts with a digit. *)
Theorem search_finds_the_pattern (s : string) :
  ascii_only s →
  (is_Some (Regex.search s) ↔ holds_score_pattern s) ∧
  (∀ m1 m2, Regex.search s = Some (m1, m2) →
     starts_with JS.is_digit m1 = true ∧
     JS.nonempty m2 = true ∧ string_forall JS.is_digit m2 = true ∧
     JS.includes s m1 = true ∧ JS.includes s m2 = true).
Proof.
  intros _. split; [split|].
  - intros [[m1 m2] H].
    destruct (search_sound s m1 m2 H)
      as (pre & post & d1 & dot & d2 & sp1 & sp2 & E & _ & H').
    exists pre, d1, dot, d2, sp1, sp2, m2, post. split; [exact E | exact H'].
  - apply search_complete.
  - intros m1 m2 H.
    destruct (search_sound s m1 m2 H)
      as (pre & post & d1 & dot & d2 & sp1 & sp2 & E & Em & N1 & D1 & _ & _ & _ & _ & N3 & D3).
    split; [|split; [exact N3|split; [exact D3|split]]].
    + subst m1. now apply (starts_with_digits d1 (dot +:+ d2)).
    + apply includes_spec. exists pre, (sp1 +:+ "/" +:+ sp2 +:+ m2 +:+ post).
      rewrite E, Em. now rewrite !append_assoc.
    + apply includes_spec.
      exists (pre +:+ d1 +:+ dot +:+ d2 +:+ sp1 +:+ "/" +:+ sp2), post.
      rewrite E. now rewrite !append_assoc.
Qed.

Lemma search_finds_the_pattern_witness :
  is_Some (Regex.search "Overall: 3.5 / 4 (good)").
Proof.
  apply (proj2 (proj1 (search_finds_the_pattern "Overall: 3.5 / 4 (good)" eq_refl))).
  exists "Overall: ", "3", ".", "5", " ", " ", "4", " (good)".
  repeat split; auto.
Defined.

(** *** Numerals *)

Lemma span_digits_all (d : string) :
  string_forall JS.is_digit d = true → Regex.span_digits d = (d, "").
Proof.
  induction d as [|c d IH]; [reflexivity|]. cbn [string_forall Regex.span_digits].
  intros [Hc Hd]%andb_prop. rewrite Hc, (IH Hd). reflexivity.
Qed.

Lemma parseFloat_digits (d : string) :
  string_forall JS.is_digit d = true → parseFloat d = inject_Z (digits_value 0 d).
Proof.
  intros H. unfold parseFloat. now rewrite (span_digits_all d H).
Qed.

Lemma span_digits_prefix (d post : string) :
  string_forall JS.is_digit d = true →
  (String.length d <= String.length (Regex.span_digits (d +:+ post)).1)%nat.
Proof.
  induction d as [|c d IH]; [cbn [String.length]; lia|].
  cbn [string_forall]. intros [Hc Hd]%andb_prop.
  rewrite append_cons. cbn [Regex.span_digits]. rewrite Hc.
  specialize (IH Hd). destruct (Regex.span_digits (d +:+ post)) as [x y].
  cbn [fst String.length] in *. lia.
Qed.

Lemma longest_digit_run_here (s : string) :
  (String.length (Regex.span_digits s).1 <= longest_digit_run s)%nat.
Proof.
  destruct s as [|c s]; [cbn; lia|]. cbn [longest_digit_run]. lia.
Qed.

Lemma longest_digit_run_suffix (pre s : string) :
  (longest_digit_run s <= longest_digit_run (pre +:+ s))%nat.
Proof.
  induction pre as [|c pre IH]; [now rewrite append_empty_l|].
  rewrite append_cons. cbn [longest_digit_run]. lia.
Qed.

Lemma digits_value_below (d : string) (acc : Z) :
  string_forall JS.is_digit d = true → 0 <= acc →
  digits_value acc d < (acc + 1) * 10 ^ Z.of_nat (String.length d).
Proof.
  revert acc. induction d as [|c d IH]; intros acc; cbn [string_forall digits_value String.length].
  - intros _ _. lia.
  - intros [Hc Hd]%andb_prop Hacc.
    assert (Dc : 0 <= digit_value c <= 9).
    { unfold JS.is_digit, digit_value in *. apply andb_prop in Hc as [L U].
      apply Nat.leb_le in L, U. lia. }
    specialize (IH (10 * acc + digit_value c) Hd ltac:(lia)).
    rewrite Nat2Z.inj_succ, Z.pow_succ_r by lia.
    assert (P : 0 < 10 ^ Z.of_nat (String.length d)) by (apply Z.pow_pos_nonneg; lia).
    nia.
Qed.

(** What [numerals_in_range] is for: the total that the pattern captures
    in such a response is below [10^308], within the finite numbers. *)
Lemma matched_total_in_range (content m1 m2 : string) :
  numerals_in_range (Content content) →
  Regex.search content = Some (m1, m2) →
  (0 <= parseFloat m2 < inject_Z (10 ^ 308))%Q.
Proof.
  cbn [numerals_in_range]. intros L H. split; [apply parseFloat_nonneg|].
  destruct (search_sound content m1 m2 H)
    as (pre & post & d1 & dot & d2 & sp1 & sp2 & E & _ & _ & _ & _ & _ & _ & _ & _ & D3).
  rewrite (parseFloat_digits m2 D3). rewrite <- Zlt_Qlt.
  assert (Hl : (String.length m2 <= 308)%nat).
  { pose proof (span_digits_prefix m2 post D3) as P1.
    pose proof (longest_digit_run_here (m2 +:+ post)) as P2.
    pose proof (longest_digit_run_suffix
                  (pre +:+ d1 +:+ dot +:+ d2 +:+ sp1 +:+ "/" +:+ sp2) (m2 +:+ post)) as P3.
    rewrite !append_assoc in P3. rewrite <- E in P3. lia. }
  pose proof (digits_value_below m2 0 D3 ltac:(lia)) as B.
  assert (10 ^ Z.of_nat (String.length m2) <= 10 ^ 308)
    by (apply Z.pow_le_mono_r; lia).
  lia.
Qed.

(** ** The remote adapters *)

(** X9: with a credential, when a response of ASCII characters states a
    whole number of points out of the question's own maximum (below 2^50),
    that number is the score, capped at the maximum, whatever the answer
    and the rubric. *)
Theorem remote_score_out_of_maximum (content prompt answer m1 m2 : string)
    (cs : list string) (m : Z) (apiKey : option string) :
  has_key apiKey = true →
  0 < m < 2 ^ 50 →
  ascii_only content →
  Regex.search content = Some (m1, m2) →
  string_forall JS.is_digit m1 = true →
  digits_value 0 m2 = m →
  score (openAIGrade (Content content) prompt answer
           {| criteria := cs; r_maxScore := m |} apiKey)
  = Z.min (digits_value 0 m1) m.
Proof.
  intros K [M _] _ S W E. unfold openAIGrade. rewrite K, S. simpl.
  rewrite (or_default_pos m M).
  assert (D2 : string_forall JS.is_digit m2 = true).
  { destruct (search_sound content m1 m2 S)
      as (pre & post & d1 & dot & d2 & sp1 & sp2 & _ & _ & _ & _ & _ & _ & _ & _ & _ & D3).
    exact D3. }
  rewrite (parseFloat_digits m1 W), (parseFloat_digits m2 D2), E.
  assert (P : (0 < inject_Z m)%Q) by (rewrite <- (Zlt_Qlt 0); exact M).
  assert (Z0 : Qeq_bool (inject_Z m) 0 = false).
  { destruct (Qeq_bool (inject_Z m) 0) eqn:B; [|reflexivity].
    apply Qeq_bool_iff in B. rewrite B in P. now apply Qlt_irrefl in P. }
  rewrite Z0. f_equal.
  rewrite <- (Math_round_inject (digits_value 0 m1)) at 2. apply Math_round_comp.
  field. intros H. rewrite H in P. now apply Qlt_irrefl in P.
Qed.

Lemma remote_score_out_of_maximum_witness :
  score (openAIGrade (Content "Mark: 3/4, see below.") "p" "no idea"
           {| criteria := ["CS falls"]; r_maxScore := 4 |} (Some "sk"))
  = Z.min (digits_value 0 "3") 4.
Proof.
  apply (remote_score_out_of_maximum "Mark: 3/4, see below." "p" "no idea" "3" "4"
           ["CS falls"] 4 (Some "sk")); try reflexivity.
  lia.
Defined.

(** X10: neither adapter ever hands back an empty text: the feedback of
    [openAIGrade] is never empty, and a text reply of [assistantReply] is
    never empty, whatever the service does; without a credential the reply
    is one fixed message, the same for every context and question. *)
Theorem adapters_never_blank (remote : Remote) (apiKey : option string) :
  (∀ prompt answer rubric,
     JS.nonempty (g_feedback (openAIGrade remote prompt answer rubric apiKey)) = true) ∧
  (∀ context question text,
     assistantReply remote apiKey context question = Said text →
     JS.nonempty text = true) ∧
  (has_key apiKey = false →
   ∀ remote' context question context' question',
     assistantReply remote apiKey context question
     = assistantReply remote' apiKey context' question' ∧
     ∃ text, assistantReply remote apiKey context question = Said text ∧
             Forall (λ h, JS.includes text h = true) hints).
Proof.
  split; [|split].
  - intros prompt answer rubric. unfold openAIGrade.
    destruct (has_key apiKey); simpl; [|reflexivity].
    destruct remote as [|content|]; simpl; try reflexivity.
    destruct (JS.nonempty content) eqn:N; [exact N | reflexivity].
  - intros context question text. unfold assistantReply.
    destruct (has_key apiKey); simpl; [|now intros [= <-]].
    destruct remote as [|content|]; try (now intros [= <-]).
    destruct (JS.nonempty content) eqn:N; now intros [= <-].
  - intros K remote' context question context' question'.
    unfold assistantReply. rewrite K. simpl. split; [reflexivity|].
    eexists. split; [reflexivity|].
    repeat (apply Forall_cons; split; [vm_compute; reflexivity|]).
    apply Forall_nil_2.
Qed.

Lemma adapters_never_blank_witness :
  JS.nonempty "(No response)" = true.
Proof.
  apply (proj1 (proj2 (adapters_never_blank (Content "") (Some "sk"))) "ctx" "q").
  reflexivity.
Defined.

(** ** The assessment loops, in general *)

Lemma answer_text_None (a : option JsVal) :
  answer_text a = None ↔ ∃ n, n ≠ 0 ∧ a = Some (VNum n).
Proof.
  destruct a as [[n|s]|]; simpl.
  - destruct (Z.eqb_spec n 0) as [->|N]; split; try discriminate.
    + intros (m & Hm & [= <-]). congruence.
    + intros _. exists n. auto.
    + reflexivity.
  - split; [discriminate | intros (n & _ & H); discriminate H].
  - split; [discriminate | intros (n & _ & H); discriminate H].
Qed.

Lemma percent_of_range (p m : Z) :
  0 <= p <= m → 0 < m → ∃ v, percent_of p m = Some v ∧ 0 <= v <= 100.
Proof.
  intros [P0 Pm] M. unfold percent_of.
  destruct (Z.eqb_spec m 0) as [E|_]; [lia|].
  eexists. split; [reflexivity|].
  assert (Q : (0 < inject_Z m)%Q) by (rewrite <- (Zlt_Qlt 0); exact M).
  assert (R0 : (0 <= inject_Z p / inject_Z m)%Q).
  { apply Qdiv_nonneg; [|exact Q]. rewrite <- (Zle_Qle 0). exact P0. }
  assert (R1 : (inject_Z p / inject_Z m <= 1)%Q).
  { apply Qle_shift_div_r; [exact Q|]. rewrite Qmult_1_l, <- Zle_Qle. exact Pm. }
  apply Math_round_between.
  - change (inject_Z 0) with (0 * 100)%Q. apply Qmult_le_compat_r; [exact R0|discriminate].
  - change (inject_Z 100) with (1 * 100)%Q. apply Qmult_le_compat_r; [exact R1|discriminate].
Qed.

Lemma percent_of_full (m : Z) : 0 < m → percent_of m m = Some 100.
Proof.
  intros M. unfold percent_of. destruct (Z.eqb_spec m 0) as [E|N]; [lia|].
  f_equal. rewrite <- (Math_round_inject 100). apply Math_round_comp.
  unfold Qdiv. rewrite Qmult_inv_r; [reflexivity|].
  intros H. apply N. change 0%Q with (inject_Z 0) in H.
  exact (proj1 (inject_Z_injective m 0) H).
Qed.

Lemma percent_of_nothing (m : Z) : m ≠ 0 → percent_of 0 m = Some 0.
Proof.
  intros N. unfold percent_of. destruct (Z.eqb_spec m 0) as [E|_]; [congruence|].
  f_equal. rewrite <- (Math_round_inject 0). apply Math_round_comp.
  unfold Qdiv. change (inject_Z 0) with 0%Q. now rewrite !Qmult_0_l.
Qed.

Lemma total_cons (q : Question) (qs : list Question) :
  total (q :: qs) = maxScore q + total qs.
Proof.
  unfold total. simpl. rewrite (fold_left_add_shift _ _ (0 + maxScore q)). lia.
Qed.

(** *** One step of each loop *)

Lemma section_body_cases (answers : gmap string JsVal) (apiKey : option string)
    (net : nat → Remote) (st : SectionTest.State) (q : Question) :
  (answer_text (answers !! id q) = None ∧ type q = short ∧
   SectionTest.body answers apiKey net st q = None) ∨
  ∃ st' aw,
    SectionTest.body answers apiKey net st q = Some st' ∧
    (type q = short → answer_text (answers !! id q) ≠ None) ∧
    SectionTest.points st' = SectionTest.points st + aw ∧
    SectionTest.max st' = SectionTest.max st + maxScore q ∧
    SectionTest.calls st'
    = (if is_short q then next_call apiKey (SectionTest.calls st)
       else SectionTest.calls st) ∧
    (∃ fb, SectionTest.feedback st' = <[id q := fb]> (SectionTest.feedback st)) ∧
    (type q = mcq →
     aw = if strict_eq (answers !! id q) (answer q) then maxScore q else 0) ∧
    (type q = short → ∃ text,
       answer_text (answers !! id q) = Some text ∧
       aw = score (openAIGrade (net (SectionTest.calls st)) (prompt q) text
                     (rubric_of q) apiKey)).
Proof.
  unfold SectionTest.body, is_short. destruct (type q) eqn:T.
  - right. eexists. eexists. split; [reflexivity|]. simpl.
    repeat split; try congruence; eauto.
  - destruct (answer_text (answers !! id q)) as [text|] eqn:A.
    + right. eexists. eexists. split; [reflexivity|]. simpl.
      repeat split; try congruence; eauto.
    + left. auto.
Qed.

Lemma final_body_cases (answers : gmap string JsVal) (apiKey : option string)
    (net : nat → Remote) (st : FinalExam.State) (q : Question) :
  (answer_text (answers !! id q) = None ∧ type q = short ∧
   FinalExam.body answers apiKey net st q = None) ∨
  ∃ st' aw,
    FinalExam.body answers apiKey net st q = Some st' ∧
    (type q = short → answer_text (answers !! id q) ≠ None) ∧
    FinalExam.points st' = FinalExam.points st + aw ∧
    FinalExam.max st' = FinalExam.max st + maxScore q ∧
    FinalExam.calls st'
    = (if is_short q then next_call apiKey (FinalExam.calls st)
       else FinalExam.calls st) ∧
    FinalExam.perQuestion st' = <[id q := aw]> (FinalExam.perQuestion st) ∧
    (type q = mcq →
     aw = if strict_eq (answers !! id q) (answer q) then maxScore q else 0) ∧
    (type q = short → ∃ text,
       answer_text (answers !! id q) = Some text ∧
       aw = score (openAIGrade (net (FinalExam.calls st)) (prompt q) text
                     (rubric_of q) apiKey)).
Proof.
  unfold FinalExam.body, is_short. destruct (type q) eqn:T.
  - right. eexists. eexists. split; [reflexivity|]. simpl.
    repeat split; try congruence; eauto.
  - destruct (answer_text (answers !! id q)) as [text|] eqn:A.
    + right. eexists. eexists. split; [reflexivity|]. simpl.
      repeat split; try congruence; eauto.
    + left. auto.
Qed.

(** the award of one step lies between 0 and the points of the question *)
Lemma award_range (answers : gmap string JsVal) (apiKey : option string)
    (r : Remote) (q : Question) (aw : Z) :
  0 < maxScore q →
  (has_key apiKey = true → numerals_in_range r) →
  (type q = mcq →
   aw = if strict_eq (answers !! id q) (answer q) then maxScore q else 0) →
  (type q = short → ∃ text,
     answer_text (answers !! id q) = Some text ∧
     aw = score (openAIGrade r (prompt q) text (rubric_of q) apiKey)) →
  0 <= aw <= maxScore q.
Proof.
  intros M F Hm Hs. destruct (type q) eqn:T.
  - rewrite (Hm eq_refl). destruct (strict_eq _ _); lia.
  - destruct (Hs eq_refl) as (text & _ & ->). unfold rubric_of.
    now apply openAIGrade_range.
Qed.

Lemma number_for_text_iff (answers : gmap string JsVal) (q : Question) :
  number_for_text answers q ↔
  type q = short ∧ answer_text (answers !! id q) = None.
Proof. unfold number_for_text. now rewrite answer_text_None. Qed.

Lemma shorts_cons (q : Question) (qs : list Question) :
  shorts (q :: qs) = ((if is_short q then 1 else 0) + shorts qs)%nat.
Proof. unfold shorts. simpl. now destruct (is_short q). Qed.

Lemma is_short_true (q : Question) : is_short q = true ↔ type q = short.
Proof. unfold is_short. destruct (type q); split; congruence. Qed.

Lemma openAIGrade_ext (r1 r2 : Remote) (prompt answer : string) (R : Rubric)
    (apiKey : option string) :
  (has_key apiKey = true → r1 = r2) →
  openAIGrade r1 prompt answer R apiKey = openAIGrade r2 prompt answer R apiKey.
Proof.
  intros H. unfold openAIGrade. destruct (has_key apiKey); simpl; [|reflexivity].
  now rewrite (H eq_refl).
Qed.

Section Loops.
Context (answers : gmap string JsVal) (apiKey : option string).

Local Abbreviation requests := (requests apiKey).

Lemma section_loop_throws (net : nat → Remote) (qs : list Question)
    (st : SectionTest.State) :
  for_of (SectionTest.body answers apiKey net) st qs = None ↔
  Exists (number_for_text answers) qs.
Proof.
  revert st. induction qs as [|q qs IH]; intros st; simpl.
  - rewrite Exists_nil. split; [discriminate | tauto].
  - rewrite Exists_cons, number_for_text_iff.
    destruct (section_body_cases answers apiKey net st q)
      as [(A & T & ->)|(st' & aw & -> & Hs & _)]; simpl.
    + split; auto.
    + rewrite IH. split; [auto|]. intros [[T A]|H]; [|exact H].
      now destruct (Hs T).
Qed.

Lemma section_loop_totals (net : nat → Remote) (qs : list Question)
    (st st' : SectionTest.State) :
  for_of (SectionTest.body answers apiKey net) st qs = Some st' →
  SectionTest.max st' = SectionTest.max st + total qs ∧
  SectionTest.calls st' = (SectionTest.calls st + requests qs)%nat ∧
  (Forall (λ q, 0 < maxScore q) qs → service_in_range apiKey net →
   0 <= SectionTest.points st' - SectionTest.points st <= total qs).
Proof.
  revert st. induction qs as [|q qs IH]; intros st; simpl.
  - intros [= <-]. unfold total, requests, shorts. simpl.
    repeat split; try lia. destruct (has_key apiKey); lia.
  - destruct (section_body_cases answers apiKey net st q)
      as [(_ & _ & ->)|(st1 & aw & -> & _ & Hp & Hm & Hc & _ & Ha & Hb)]; simpl;
      [discriminate|].
    intros H. destruct (IH st1 H) as (Im & Ic & Ip).
    rewrite total_cons. unfold requests in *. rewrite shorts_cons.
    split; [lia|]. split.
    + rewrite Ic, Hc. unfold next_call. destruct (is_short q), (has_key apiKey); lia.
    + intros F S. apply Forall_cons in F as [Fq F].
      pose proof (award_range answers apiKey (net (SectionTest.calls st)) q aw Fq
                    (λ K, S K _) Ha Hb).
      specialize (Ip F S). lia.
Qed.

Lemma section_loop_ext (net1 net2 : nat → Remote) (qs : list Question)
    (st : SectionTest.State) :
  (∀ n, (SectionTest.calls st ≤ n < SectionTest.calls st + requests qs)%nat →
        net1 n = net2 n) →
  for_of (SectionTest.body answers apiKey net1) st qs
  = for_of (SectionTest.body answers apiKey net2) st qs.
Proof.
  revert st. induction qs as [|q qs IH]; intros st H; simpl; [reflexivity|].
  assert (E : SectionTest.body answers apiKey net1 st q
              = SectionTest.body answers apiKey net2 st q).
  { unfold SectionTest.body. destruct (type q) eqn:T; [reflexivity|].
    destruct (answer_text (answers !! id q)) as [text|]; simpl; [|reflexivity].
    rewrite (openAIGrade_ext (net1 (SectionTest.calls st)) (net2 (SectionTest.calls st))).
    - reflexivity.
    - intros K. apply H. unfold requests. rewrite K, shorts_cons.
      unfold is_short. rewrite T. lia. }
  rewrite E.
  destruct (section_body_cases answers apiKey net2 st q)
    as [(_ & _ & ->)|(st1 & aw & -> & _ & _ & _ & Hc & _)]; simpl; [reflexivity|].
  apply IH. intros n Hn. apply H. rewrite Hc in Hn.
  unfold requests, next_call in *. rewrite shorts_cons.
  destruct (is_short q), (has_key apiKey); lia.
Qed.

Lemma final_loop_throws (net : nat → Remote) (qs : list Question)
    (st : FinalExam.State) :
  for_of (FinalExam.body answers apiKey net) st qs = None ↔
  Exists (number_for_text answers) qs.
Proof.
  revert st. induction qs as [|q qs IH]; intros st; simpl.
  - rewrite Exists_nil. split; [discriminate | tauto].
  - rewrite Exists_cons, number_for_text_iff.
    destruct (final_body_cases answers apiKey net st q)
      as [(A & T & ->)|(st' & aw & -> & Hs & _)]; simpl.
    + split; auto.
    + rewrite IH. split; [auto|]. intros [[T A]|H]; [|exact H].
      now destruct (Hs T).
Qed.

Lemma final_loop_ext (net1 net2 : nat → Remote) (qs : list Question)
    (st : FinalExam.State) :
  (∀ n, (FinalExam.calls st ≤ n < FinalExam.calls st + requests qs)%nat →
        net1 n = net2 n) →
  for_of (FinalExam.body answers apiKey net1) st qs
  = for_of (FinalExam.body answers apiKey net2) st qs.
Proof.
  revert st. induction qs as [|q qs IH]; intros st H; simpl; [reflexivity|].
  assert (E : FinalExam.body answers apiKey net1 st q
              = FinalExam.body answers apiKey net2 st q).
  { unfold FinalExam.body. destruct (type q) eqn:T; [reflexivity|].
    destruct (answer_text (answers !! id q)) as [text|]; simpl; [|reflexivity].
    rewrite (openAIGrade_ext (net1 (FinalExam.calls st)) (net2 (FinalExam.calls st))).
    - reflexivity.
    - intros K. apply H. unfold requests. rewrite K, shorts_cons.
      unfold is_short. rewrite T. lia. }
  rewrite E.
  destruct (final_body_cases answers apiKey net2 st q)
    as [(_ & _ & ->)|(st1 & aw & -> & _ & _ & _ & Hc & _)]; simpl; [reflexivity|].
  apply IH. intros n Hn. apply H. rewrite Hc in Hn.
  unfold requests, next_call in *. rewrite shorts_cons.
  destruct (is_short q), (has_key apiKey); lia.
Qed.

(** The two loops stay in step. *)
Lemma loops_in_step (net : nat → Remote) (qs : list Question)
    (a : SectionTest.State) (b : FinalExam.State) :
  in_step a b →
  match for_of (SectionTest.body answers apiKey net) a qs,
        for_of (FinalExam.body answers apiKey net) b qs with
  | Some a', Some b' => in_step a' b'
  | None, None => True
  | _, _ => False
  end.
Proof.
  revert a b. induction qs as [|q qs IH]; intros a b S; simpl; [exact S|].
  destruct S as (Sp & Sm & Sc).
  unfold SectionTest.body, FinalExam.body. destruct (type q).
  - simpl. apply IH. repeat split; simpl; congruence.
  - destruct (answer_text (answers !! id q)) as [text|]; simpl; [|exact I].
    apply IH. rewrite Sc. repeat split; simpl; congruence.
Qed.

End Loops.

Lemma total_pos (qs : list Question) :
  qs ≠ [] → Forall (λ q, 0 < maxScore q) qs → 0 < total qs.
Proof.
  intros N F. induction F as [|q qs Hq F IH]; [congruence|].
  rewrite total_cons. destruct qs as [|q' qs'].
  - unfold total. simpl. lia.
  - assert (0 < total (q' :: qs')) by (apply IH; discriminate). lia.
Qed.

(** X11: a run of either loop issues one request for each short-answer
    question when a key is set and none otherwise, and reads the responses
    in order: two services that agree on that many first responses give the
    same result. In particular, without a key the result does not depend on
    the service at all. *)
Theorem grade_reads_one_response_per_short_answer
    (answers : gmap string JsVal) (apiKey : option string) (net1 net2 : nat → Remote) :
  (∀ qs st',
     for_of (SectionTest.body answers apiKey net1) SectionTest.init qs = Some st' →
     SectionTest.calls st' = requests apiKey qs) ∧
  (∀ qs,
     (∀ n, (n < requests apiKey qs)%nat → net1 n = net2 n) →
     SectionTest.grade qs answers apiKey net1 = SectionTest.grade qs answers apiKey net2) ∧
  ((∀ n, (n < requests apiKey finalExam)%nat → net1 n = net2 n) →
   FinalExam.grade answers apiKey net1 = FinalExam.grade answers apiKey net2) ∧
  (has_key apiKey = false →
   (∀ qs, SectionTest.grade qs answers apiKey net1
          = SectionTest.grade qs answers apiKey net2) ∧
   FinalExam.grade answers apiKey net1 = FinalExam.grade answers apiKey net2).
Proof.
  assert (S : ∀ qs, (∀ n, (n < requests apiKey qs)%nat → net1 n = net2 n) →
    SectionTest.grade qs answers apiKey net1 = SectionTest.grade qs answers apiKey net2).
  { intros qs H. unfold SectionTest.grade.
    rewrite (section_loop_ext answers apiKey net1 net2); [reflexivity|].
    intros n Hn. apply H. simpl in Hn. lia. }
  assert (F : (∀ n, (n < requests apiKey finalExam)%nat → net1 n = net2 n) →
    FinalExam.grade answers apiKey net1 = FinalExam.grade answers apiKey net2).
  { intros H. unfold FinalExam.grade.
    rewrite (final_loop_ext answers apiKey net1 net2); [reflexivity|].
    intros n Hn. apply H. simpl in Hn. lia. }
  split; [|split; [exact S|split; [exact F|]]].
  - intros qs st' H.
    destruct (section_loop_totals answers apiKey net1 qs _ _ H) as (_ & Hc & _).
    exact Hc.
  - intros K. unfold requests in S, F. rewrite K in S, F.
    split; [intros qs; apply S | apply F]; intros n Hn; lia.
Qed.

Lemma grade_reads_one_response_per_short_answer_witness :
  FinalExam.grade answers_all_right (Some "sk-test")
    (λ n, if (n <? 6)%nat then Content "0/4" else Rejected)
  = FinalExam.grade answers_all_right (Some "sk-test") (λ _, Content "0/4").
Proof.
  apply (proj1 (proj2 (proj2 (grade_reads_one_response_per_short_answer
           answers_all_right (Some "sk-test")
           (λ n, if (n <? 6)%nat then Content "0/4" else Rejected)
           (λ _, Content "0/4"))))).
  intros n Hn. change (requests (Some "sk-test") finalExam) with 6%nat in Hn.
  destruct (Nat.ltb_spec n 6); [reflexivity | lia].
Defined.

Lemma own_ids_course : own_ids all_questions.
Proof.
  assert (H : forallb (λ q, negb (existsb (String.eqb (id q)) Object_prototype))
                all_questions = true) by (vm_compute; reflexivity).
  rewrite forallb_forall in H. apply List.Forall_forall. intros q Hq I.
  specialize (H q Hq). apply negb_true_iff in H.
  assert (T : existsb (String.eqb (id q)) Object_prototype = true).
  { apply existsb_exists. exists (id q). split; [exact I | apply String.eqb_refl]. }
  congruence.
Qed.

(** X12: when no question is named as a property that every object
    inherits ([constructor], [toString], ...), and no question of the course
    is, either loop throws exactly when the answer recorded for some
    short-answer question is a non-zero number; with texts, or nothing,
    recorded for the short-answer questions it returns a result. *)
Theorem grade_throws_iff (answers : gmap string JsVal) (apiKey : option string)
    (net : nat → Remote) :
  (∀ qs, own_ids qs →
         (SectionTest.grade qs answers apiKey net = None ↔
          Exists (number_for_text answers) qs)) ∧
  own_ids all_questions ∧
  (FinalExam.grade answers apiKey net = None ↔
   Exists (number_for_text answers) finalExam).
Proof.
  split; [|split; [exact own_ids_course|]].
  - intros qs _. rewrite <- (section_loop_throws answers apiKey net qs SectionTest.init).
    unfold SectionTest.grade.
    destruct (for_of _ SectionTest.init qs); simpl; split; congruence.
  - rewrite <- (final_loop_throws answers apiKey net finalExam FinalExam.init).
    unfold FinalExam.grade.
    destruct (for_of _ FinalExam.init finalExam); simpl; split; congruence.
Qed.

Lemma grade_throws_iff_witness :
  SectionTest.grade
    [short_question "f4" "Explain the shift." ["Outward shift of PPC"] "One cause." 3]
    (list_to_map [("f4", VNum 7)]) None no_service = None.
Proof.
  apply (proj1 (grade_throws_iff (list_to_map [("f4", VNum 7)]) None no_service)
           [short_question "f4" "Explain the shift." ["Outward shift of PPC"] "One cause." 3]).
  - apply Forall_cons. split; [|apply Forall_nil_2].
    intros I. unfold Object_prototype in I. split_in I; discriminate I.
  - apply Exists_cons_hd. split; [reflexivity|]. exists 7. split; [lia | reflexivity].
Defined.

(** X13: for a non-empty list of questions that are each worth more than 0
    points, and a service none of whose responses holds a numeral of more
    than 308 digits, the percent a section test returns is an integer from 0
    to 100; for a list worth 0 points in all (the empty list is one) there is
    no percent, the quotient not being a number. *)
Theorem section_test_percent_range (answers : gmap string JsVal)
    (apiKey : option string) (net : nat → Remote) (qs : list Question)
    (r : SectionTest.Result) :
  SectionTest.grade qs answers apiKey net = Some r →
  (qs ≠ [] → Forall (λ q, 0 < maxScore q) qs → service_in_range apiKey net →
   ∃ p, SectionTest.percent r = Some p ∧ 0 <= p <= 100) ∧
  (total qs = 0 → SectionTest.percent r = None).
Proof.
  unfold SectionTest.grade.
  destruct (for_of _ SectionTest.init qs) as [st|] eqn:L; simpl; [|discriminate].
  intros [= <-]. simpl.
  destruct (section_loop_totals answers apiKey net qs _ _ L) as (Hm & _ & Hp).
  simpl in Hm, Hp. split.
  - intros N F S. pose proof (total_pos qs N F). specialize (Hp F S).
    apply percent_of_range; lia.
  - intros E. unfold percent_of. rewrite Hm, E. reflexivity.
Qed.

Lemma section_test_percent_range_witness :
  ∃ p, SectionTest.percent <$>
         SectionTest.grade
           [mcq_question "f1" "Which best defines opportunity cost?"
              ["a"; "b"; "c"; "d"] 2 1;
            short_question "f4" "Explain the shift." ["Outward shift of PPC"] "One cause." 3]
           (list_to_map [("f1", VNum 2); ("f4", VStr "more capital")])
           (Some "sk-test") (λ _, Content "Mark: 2/3")
       = Some (Some p) ∧ 0 <= p <= 100.
Proof.
  destruct (SectionTest.grade _ _ (Some "sk-test") (λ _, Content "Mark: 2/3"))
    as [r|] eqn:G.
  - destruct (proj1 (section_test_percent_range _ _ _ _ r G)) as (p & Hp & Hr).
    + discriminate.
    + repeat constructor.
    + intros _ n. apply Nat.leb_le. vm_compute. reflexivity.
    + exists p. cbn [fmap option_fmap option_map]. rewrite Hp.
      split; [reflexivity | exact Hr].
  - exfalso. vm_compute in G. discriminate G.
Defined.

(** X14: the percent of the final exam is the percent a section test over
    the same twelve questions would return: the two loops grade alike. *)
Theorem final_exam_grades_like_a_section_test (answers : gmap string JsVal)
    (apiKey : option string) (net : nat → Remote) :
  FinalExam.percent <$> FinalExam.grade answers apiKey net
  = SectionTest.percent <$> SectionTest.grade finalExam answers apiKey net.
Proof.
  unfold FinalExam.grade, SectionTest.grade.
  pose proof (loops_in_step answers apiKey net finalExam SectionTest.init FinalExam.init)
    as H.
  destruct (for_of _ SectionTest.init finalExam) as [a|],
           (for_of _ FinalExam.init finalExam) as [b|]; simpl in *.
  - destruct H as (Hp & Hm & _); [repeat split|]. now rewrite Hp, Hm.
  - destruct H. repeat split.
  - destruct H. repeat split.
  - reflexivity.
Qed.

Lemma section_body_choice (answers : gmap string JsVal) (apiKey : option string)
    (net : nat → Remote) (st : SectionTest.State) (q : Question) :
  type q = mcq →
  SectionTest.body answers apiKey net st q
  = Some {| SectionTest.points :=
              SectionTest.points st
              + (if strict_eq (answers !! id q) (answer q) then maxScore q else 0);
            SectionTest.max := SectionTest.max st + maxScore q;
            SectionTest.feedback :=
              <[id q := if strict_eq (answers !! id q) (answer q) then "Correct"
                        else "Check the definition/mechanism and try again."]>
                (SectionTest.feedback st);
            SectionTest.calls := SectionTest.calls st |}.
Proof. intros T. unfold SectionTest.body. now rewrite T. Qed.

Lemma section_loop_choices (answers : gmap string JsVal) (apiKey : option string)
    (net : nat → Remote) (b : bool) (qs : list Question) (st : SectionTest.State) :
  Forall (λ q, type q = mcq ∧ strict_eq (answers !! id q) (answer q) = b) qs →
  ∃ st', for_of (SectionTest.body answers apiKey net) st qs = Some st' ∧
         SectionTest.points st'
         = SectionTest.points st + (if b then total qs else 0) ∧
         SectionTest.max st' = SectionTest.max st + total qs.
Proof.
  intros F. revert st. induction F as [|q qs [T E] _ IH]; intros st.
  - exists st. unfold total. simpl. repeat split; destruct b; lia.
  - cbn [for_of]. rewrite (section_body_choice answers apiKey net st q T), E.
    cbn [mbind option_bind].
    edestruct IH as (st' & -> & Hp & Hm).
    exists st'. split; [reflexivity|]. simpl in Hp, Hm. rewrite total_cons.
    destruct b; lia.
Qed.

(** X15: a test of multiple-choice questions only, worth more than 0 points
    in all, returns 100 when every recorded answer is strictly equal to the
    correct index and 0 when none is. *)
Theorem multiple_choice_test_extremes (answers : gmap string JsVal)
    (apiKey : option string) (net : nat → Remote) (b : bool) (qs : list Question) :
  0 < total qs →
  Forall (λ q, type q = mcq ∧ strict_eq (answers !! id q) (answer q) = b) qs →
  ∃ r, SectionTest.grade qs answers apiKey net = Some r ∧
       SectionTest.percent r = Some (if b then 100 else 0).
Proof.
  intros T F. unfold SectionTest.grade.
  destruct (section_loop_choices answers apiKey net b qs SectionTest.init F)
    as (st & -> & Hp & Hm).
  simpl in Hp, Hm. eexists. split; [reflexivity|]. simpl. rewrite Hp, Hm.
  destruct b; [apply percent_of_full; lia | apply percent_of_nothing; lia].
Qed.

Lemma multiple_choice_test_extremes_witness :
  ∃ r, SectionTest.grade
         [mcq_question "f1" "Which best defines opportunity cost?"
            ["a"; "b"; "c"; "d"] 2 1;
          mcq_question "f5" "Ceteris paribus means:" ["a"; "b"] 1 1]
         (list_to_map [("f1", VNum 0)]) None no_service = Some r ∧
       SectionTest.percent r = Some 0.
Proof.
  apply (multiple_choice_test_extremes (list_to_map [("f1", VNum 0)]) None no_service false
           [mcq_question "f1" "Which best defines opportunity cost?"
              ["a"; "b"; "c"; "d"] 2 1;
            mcq_question "f5" "Ceteris paribus means:" ["a"; "b"] 1 1]).
  - reflexivity.
  - repeat constructor.
Defined.

(** *** What the final exam records *)

Lemma final_loop_records (answers : gmap string JsVal) (apiKey : option string)
    (net : nat → Remote) (qs : list Question) (st st' : FinalExam.State) :
  for_of (FinalExam.body answers apiKey net) st qs = Some st' →
  NoDup (map id qs) →
  Forall (λ q, 0 < maxScore q) qs →
  service_in_range apiKey net →
  FinalExam.points st'
  = FinalExam.points st
    + fold_right (λ q s, awarded (FinalExam.perQuestion st') (id q) + s) 0 qs ∧
  FinalExam.max st' = FinalExam.max st + total qs ∧
  (∀ i, ¬ In i (map id qs) →
        FinalExam.perQuestion st' !! i = FinalExam.perQuestion st !! i) ∧
  Forall (λ q, ∃ v, FinalExam.perQuestion st' !! id q = Some v ∧
                    0 <= v <= maxScore q) qs.
Proof.
  revert st. induction qs as [|q qs IH]; intros st; simpl.
  - intros [= <-] _ _ _. unfold total. simpl. repeat split; auto; lia.
  - destruct (final_body_cases answers apiKey net st q)
      as [(_ & _ & ->)|(st1 & aw & -> & _ & Hp & Hm & _ & Hq & Ha & Hb)]; simpl;
      [discriminate|].
    intros L N F S. apply NoDup_cons in N as [Nq N]. apply Forall_cons in F as [Fq F].
    destruct (IH st1 L N F S) as (Ip & Im & Io & If).
    assert (Nq' : ¬ In (id q) (map id qs)) by (now rewrite <- list_elem_of_In).
    assert (E : FinalExam.perQuestion st' !! id q = Some aw).
    { rewrite (Io _ Nq'), Hq. apply lookup_insert_eq. }
    rewrite total_cons. unfold awarded at 1. rewrite E. simpl.
    split; [lia|]. split; [lia|]. split.
    + intros i Hi. rewrite Io by tauto. rewrite Hq.
      apply lookup_insert_ne. tauto.
    + constructor; [|exact If]. exists aw. split; [exact E|].
      now apply (award_range answers apiKey (net (FinalExam.calls st)) q aw Fq
                   (λ K, S K _)).
Qed.

Lemma finalExam_ids_NoDup : NoDup (map id finalExam).
Proof.
  apply (bool_decide_unpack (NoDup (map id finalExam))). vm_compute. reflexivity.
Qed.

Lemma finalExam_positive : Forall (λ q, 0 < maxScore q) finalExam.
Proof. unfold finalExam. repeat constructor. Qed.

(** X16: with a service none of whose responses holds a numeral of more
    than 308 digits, a final exam that returns has recorded, for each of its
    twelve questions and for nothing else, an award between 0 and the points
    of the question; its percent is the sum of these awards over the 28
    points of the exam, an integer from 0 to 100; and its recommendations
    are those of the recorded awards. *)
Theorem final_exam_result_is_consistent (answers : gmap string JsVal)
    (apiKey : option string) (net : nat → Remote) (r : FinalExam.Result) :
  service_in_range apiKey net →
  FinalExam.grade answers apiKey net = Some r →
  Forall (λ q, ∃ v, FinalExam.r_perQuestion r !! id q = Some v ∧
                    0 <= v <= maxScore q) finalExam ∧
  (∀ i, ¬ In i (map id finalExam) → FinalExam.r_perQuestion r !! i = None) ∧
  FinalExam.percent r
  = percent_of
      (fold_right (λ q s, awarded (FinalExam.r_perQuestion r) (id q) + s) 0 finalExam)
      28 ∧
  (∃ p, FinalExam.percent r = Some p ∧ 0 <= p <= 100) ∧
  FinalExam.recommendations r
  = generateRecommendations (FinalExam.r_perQuestion r) (FinalExam.percent r).
Proof.
  intros S. unfold FinalExam.grade.
  destruct (for_of _ FinalExam.init finalExam) as [st|] eqn:L;
    cbn [mbind option_bind]; [|discriminate].
  intros [= <-].
  cbn [FinalExam.r_perQuestion FinalExam.percent FinalExam.recommendations].
  destruct (final_loop_records answers apiKey net finalExam _ _ L
              finalExam_ids_NoDup finalExam_positive S) as (Hp & Hm & Ho & Hf).
  assert (T : total finalExam = 28) by (vm_compute; reflexivity).
  change (FinalExam.points FinalExam.init) with 0 in Hp.
  change (FinalExam.max FinalExam.init) with 0 in Hm.
  rewrite T in Hm. rewrite Z.add_0_l in Hp, Hm.
  split; [exact Hf|].
  split; [intros i Hi; rewrite (Ho i Hi); apply lookup_empty|].
  split; [rewrite Hp, Hm; reflexivity|]. split; [|reflexivity].
  rewrite Hm. apply percent_of_range; [|lia].
  assert (B : ∀ qs, Forall (λ q, ∃ v, FinalExam.perQuestion st !! id q = Some v ∧
                                      0 <= v <= maxScore q) qs →
              0 <= fold_right (λ q s, awarded (FinalExam.perQuestion st) (id q) + s) 0 qs
                <= total qs).
  { clear. induction 1 as [|q qs (v & Ev & Hv) _ IH]; [unfold total; simpl; lia|].
    rewrite total_cons. cbn [fold_right].
    assert (Ea : awarded (FinalExam.perQuestion st) (id q) = v)
      by (unfold awarded; now rewrite Ev).
    rewrite Ea. lia. }
  rewrite Hp. specialize (B finalExam Hf). rewrite T in B. exact B.
Qed.

Lemma final_exam_result_is_consistent_witness :
  ∃ p, FinalExam.percent <$>
         FinalExam.grade answers_all_right (Some "sk-test") (λ _, Content "Mark: 2.5/4")
       = Some (Some p) ∧ 0 <= p <= 100.
Proof.
  destruct (FinalExam.grade answers_all_right (Some "sk-test") (λ _, Content "Mark: 2.5/4"))
    as [r|] eqn:G.
  - destruct (final_exam_result_is_consistent answers_all_right (Some "sk-test")
                (λ _, Content "Mark: 2.5/4") r) as (_ & _ & _ & (p & Hp & Hr) & _).
    + intros _ n. apply Nat.leb_le. vm_compute. reflexivity.
    + exact G.
    + exists p. cbn [fmap option_fmap option_map]. rewrite Hp.
      split; [reflexivity | exact Hr].
  - exfalso. vm_compute in G. discriminate G.
Defined.

(** ** The recommendations, further *)

Lemma insert_sorted_perm {A : Type} (cmp : A → A → Z) (x : A) (l : list A) :
  Permutation (insert_sorted cmp x l) (x :: l).
Proof.
  induction l as [|y l IH]; simpl; [reflexivity|].
  destruct (cmp x y <=? 0); [reflexivity|].
  rewrite IH. apply perm_swap.
Qed.

Lemma sort_perm {A : Type} (cmp : A → A → Z) (l : list A) :
  Permutation (sort cmp l) l.
Proof.
  induction l as [|x l IH]; simpl; [reflexivity|].
  now rewrite insert_sorted_perm, IH.
Qed.

Lemma weakSections_lookup_iff (perQuestion : gmap string Z) (percent : option Z)
    (i : nat) (k : string) (v : Z) :
  weakSections (generateRecommendations perQuestion percent) !! i
  = Some {| sectionId := k; ws_score := v |} ↔
  take 3 (sorted_candidates perQuestion) !! i = Some (k, v).
Proof.
  split.
  - intros H. now apply weakSections_lookup in H.
  - intros H. rewrite weakSections_eq, list_lookup_fmap, H. reflexivity.
Qed.

Lemma sorted_candidates_In_iff (perQuestion : gmap string Z) (k : string) (v : Z) :
  In (k, v) (sorted_candidates perQuestion) ↔
  In (k, v) (scoresBySection perQuestion) ∧ v < 70.
Proof.
  unfold sorted_candidates. rewrite (sort_In snd), List.filter_In.
  rewrite Z.ltb_lt. tauto.
Qed.

Lemma scoresBySection_keys (perQuestion : gmap string Z) :
  map fst (scoresBySection perQuestion) = map fst section_map.
Proof. reflexivity. Qed.

Lemma weak_ids_NoDup (perQuestion : gmap string Z) (percent : option Z) :
  NoDup (map sectionId (weakSections (generateRecommendations perQuestion percent))).
Proof.
  rewrite weakSections_eq.
  assert (E : map sectionId
                (map (λ '(k, v), {| sectionId := k; ws_score := v |})
                   (take 3 (sorted_candidates perQuestion)))
              = map fst (take 3 (sorted_candidates perQuestion))).
  { rewrite map_map. apply map_ext. now intros [k v]. }
  rewrite E.
  apply (sublist_NoDup _ (map fst (sorted_candidates perQuestion)));
    [|apply (fmap_sublist fst); apply sublist_take].
  unfold sorted_candidates.
  rewrite (Permutation_map fst (sort_perm _ _)).
  apply (sublist_NoDup _ (map fst (scoresBySection perQuestion)));
    [|apply (fmap_sublist fst); apply filter_sublist].
  rewrite scoresBySection_keys.
  apply (bool_decide_unpack (NoDup (map fst section_map))). vm_compute. reflexivity.
Qed.

(** X17: the weak sections are distinct sections and are the weakest: a
    section scoring below 70 that is not listed scores at least as much as
    every listed one, and then the list is full; no section is listed
    exactly when every section scores 70 or more. *)
Theorem weak_sections_are_the_weakest (perQuestion : gmap string Z)
    (percent : option Z) :
  let scores := scoresBySection perQuestion in
  let weak := weakSections (generateRecommendations perQuestion percent) in
  NoDup (map sectionId weak) ∧
  (∀ sec v, In (sec, v) scores → v < 70 →
     (∀ w, In w weak → sectionId w ≠ sec) →
     List.length weak = 3%nat ∧ ∀ w, In w weak → ws_score w <= v) ∧
  (weak = [] ↔ ∀ sec v, In (sec, v) scores → 70 <= v).
Proof.
  intros scores weak. split; [apply weak_ids_NoDup|]. split.
  - intros sec v Hin Hv Hno.
    assert (Hs : In (sec, v) (sorted_candidates perQuestion))
      by (apply sorted_candidates_In_iff; now split).
    apply list_elem_of_In, list_elem_of_lookup_1 in Hs as [i Hi].
    assert (Hi3 : (3 ≤ i)%nat).
    { destruct (Nat.le_gt_cases 3 i) as [L|L]; [exact L|]. exfalso.
      assert (Ht : take 3 (sorted_candidates perQuestion) !! i = Some (sec, v))
        by (rewrite lookup_take_lt; auto).
      apply weakSections_lookup_iff with (percent := percent) in Ht.
      apply list_elem_of_lookup_2, list_elem_of_In in Ht.
      apply (Hno _ Ht). reflexivity. }
    pose proof (lookup_lt_Some _ _ _ Hi) as Hlen.
    split.
    + subst weak. rewrite weakSections_eq, length_map, length_take. lia.
    + intros w Hw. apply list_elem_of_In, list_elem_of_lookup_1 in Hw as [j Hj].
      apply weakSections_lookup in Hj.
      pose proof (lookup_lt_Some _ _ _ Hj) as Hj3. rewrite length_take in Hj3.
      rewrite lookup_take_lt in Hj by lia.
      apply (sorted_sublist_pair (λ x y : string * Z, x.2 <= y.2)
               (sorted_candidates perQuestion)
               (sectionId w, ws_score w) (sec, v) (sort_sorted snd _)).
      apply (lookup_pair_sublist _ j i); [lia | exact Hj | exact Hi].
  - subst weak. rewrite weakSections_eq. split.
    + intros E sec v Hin. destruct (Z.lt_ge_cases v 70) as [L|L]; [|exact L].
      exfalso. assert (Hs : In (sec, v) (sorted_candidates perQuestion))
        by (apply sorted_candidates_In_iff; now split).
      destruct (sorted_candidates perQuestion) as [|e l]; [destruct Hs|].
      discriminate E.
    + intros H. destruct (sorted_candidates perQuestion) as [|[k v] l] eqn:E;
        [reflexivity|].
      exfalso. assert (Hs : In (k, v) (sorted_candidates perQuestion))
        by (rewrite E; now left).
      apply sorted_candidates_In_iff in Hs as [Hin Hv].
      specialize (H k v Hin). lia.
Qed.

Lemma weak_sections_are_the_weakest_witness :
  List.length (weakSections (generateRecommendations some_results (Some 46))) = 3%nat.
Proof.
  pose proof (weak_sections_are_the_weakest some_results (Some 46)) as H.
  cbv zeta in H. destruct H as (_ & H & _).
  apply (H "global" 50).
  - vm_compute. auto 10.
  - lia.
  - intros w Hw. vm_compute in Hw.
    destruct Hw as [<-|[<-|[<-|[]]]]; discriminate.
Defined.

Lemma fold_left_add_ext {A : Type} (f g : A → Z) (l : list A) (a : Z) :
  (∀ x, In x l → f x = g x) →
  fold_left (λ s x, s + f x) l a = fold_left (λ s x, s + g x) l a.
Proof.
  revert a. induction l as [|x l IH]; intros a H; simpl; [reflexivity|].
  rewrite (H x (or_introl eq_refl)). apply IH. intros y Hy. apply H. now right.
Qed.

Lemma fold_left_add_bounds {A : Type} (f g : A → Z) (l : list A) :
  (∀ x, In x l → 0 <= f x <= g x) →
  0 <= fold_left (λ s x, s + f x) l 0 <= fold_left (λ s x, s + g x) l 0.
Proof.
  induction l as [|x l IH]; intros H; simpl; [lia|].
  rewrite (fold_left_add_shift f l (0 + f x)), (fold_left_add_shift g l (0 + g x)).
  pose proof (H x (or_introl eq_refl)).
  assert (0 <= fold_left (λ s x, s + f x) l 0 <= fold_left (λ s x, s + g x) l 0)
    by (apply IH; intros y Hy; apply H; now right).
  lia.
Qed.

Lemma section_score_ext (pq pq' : gmap string Z) (ids : list string) :
  (∀ i, In i ids → awarded pq' i = awarded pq i) →
  section_score pq' ids = section_score pq ids.
Proof.
  intros H. unfold section_score.
  now rewrite (fold_left_add_ext (awarded pq') (awarded pq) ids 0 H).
Qed.

Lemma section_score_range (pq : gmap string Z) (ids : list string) :
  (∀ i, In i ids → 0 <= awarded pq i <= max_of i) →
  0 <= section_score pq ids <= 100 ∧
  (0 < fold_left (λ s i, s + max_of i) ids 0 →
   ((∀ i, In i ids → awarded pq i = 0) → section_score pq ids = 0) ∧
   ((∀ i, In i ids → awarded pq i = max_of i) → section_score pq ids = 100)).
Proof.
  intros H. pose proof (fold_left_add_bounds (awarded pq) max_of ids H) as B.
  unfold section_score.
  set (got := fold_left (λ s i, s + awarded pq i) ids 0) in *.
  set (mx := fold_left (λ s i, s + max_of i) ids 0) in *.
  split.
  - destruct (Z.ltb_spec 0 mx) as [M|M]; [|lia].
    destruct (percent_of_range got mx B M) as (v & Ev & Hv).
    unfold percent_of in Ev. destruct (Z.eqb_spec mx 0); [lia|].
    injection Ev as <-. exact Hv.
  - intros M. destruct (Z.ltb_spec 0 mx) as [_|M']; [|lia]. split.
    + intros H0. assert (E : got = 0).
      { subst got. rewrite (fold_left_add_ext (awarded pq) (λ _, 0) ids 0 H0).
        clear. induction ids as [|i ids IH]; simpl; [reflexivity | exact IH]. }
      rewrite E. pose proof (percent_of_nothing mx ltac:(lia)) as P.
      unfold percent_of in P. destruct (Z.eqb_spec mx 0); [lia|]. now injection P.
    + intros H1. assert (E : got = mx).
      { subst got mx. apply fold_left_add_ext. exact H1. }
      rewrite E. pose proof (percent_of_full mx M) as P.
      unfold percent_of in P. destruct (Z.eqb_spec mx 0); [lia|]. now injection P.
Qed.

(** Every id of the table is the id of an exam question, worth more than 0. *)
Lemma section_map_ids (sec : string) (ids : list string) (i : string) :
  In (sec, ids) section_map → In i ids →
  ∃ q, In q finalExam ∧ id q = i ∧ max_of i = maxScore q ∧ 0 < maxScore q.
Proof.
  intros H Hi.
  assert (F : ∃ q, List.find (λ q, String.eqb (id q) i) finalExam = Some q ∧
                   0 < maxScore q).
  { unfold section_map in H.
    split_in H; inversion H; subst; clear H; split_in Hi; subst;
      (eexists; split; [vm_compute; reflexivity | reflexivity]). }
  destruct F as (q & F & M). exists q.
  pose proof (List.find_some _ _ F) as [Hq E]. apply String.eqb_eq in E.
  repeat split; auto. unfold max_of. now rewrite F.
Qed.

(** X18: when each exam question is awarded between 0 and its points, as
    the final exam does, every section of the table scores between 0 and
    100: 0 when none of its questions earned a point, 100 when all earned
    full marks; and every section has questions worth points, so that the
    score 100 for a section without questions is never used. *)
Theorem section_scores_within_0_100 (perQuestion : gmap string Z) :
  (∀ q, In q finalExam → 0 <= awarded perQuestion (id q) <= maxScore q) →
  ∀ sec ids, In (sec, ids) section_map →
    In (sec, section_score perQuestion ids) (scoresBySection perQuestion) ∧
    0 < fold_left (λ s i, s + max_of i) ids 0 ∧
    0 <= section_score perQuestion ids <= 100 ∧
    ((∀ i, In i ids → awarded perQuestion i = 0) →
     section_score perQuestion ids = 0) ∧
    ((∀ i, In i ids → awarded perQuestion i = max_of i) →
     section_score perQuestion ids = 100).
Proof.
  intros H sec ids Hin.
  assert (Hr : ∀ i, In i ids → 0 <= awarded perQuestion i <= max_of i).
  { intros i Hi. destruct (section_map_ids sec ids i Hin Hi) as (q & Hq & <- & -> & _).
    now apply H. }
  assert (M : 0 < fold_left (λ s i, s + max_of i) ids 0).
  { unfold section_map in Hin.
    split_in Hin; inversion Hin; subst; reflexivity. }
  destruct (section_score_range perQuestion ids Hr) as (R & E).
  destruct (E M) as (E0 & E1).
  split; [|auto].
  rewrite scoresBySection_entries.
  apply (in_map (λ '(sec, ids), (sec, section_score perQuestion ids)) _ _ Hin).
Qed.

Lemma section_scores_within_0_100_witness :
  0 <= section_score some_results ["E2"; "E10"] <= 100.
Proof.
  apply (section_scores_within_0_100 some_results) with (sec := "macro").
  - intros q Hq. unfold finalExam in Hq.
    split_in Hq; subst; vm_compute; split; discriminate.
  - simpl. auto 10.
Defined.

Lemma owners_none (i : string) :
  owners i = [] → ∀ sec ids, In (sec, ids) section_map → ¬ In i ids.
Proof.
  unfold owners. intros E sec ids H Hi.
  assert (Hf : In (sec, ids)
                 (List.filter (λ '(_, ids), existsb (String.eqb i) ids) section_map)).
  { apply List.filter_In. split; [exact H|]. apply existsb_exists.
    exists i. split; [exact Hi | apply String.eqb_refl]. }
  destruct (List.filter _ section_map); [destruct Hf | discriminate E].
Qed.

Lemma scoresBySection_ext (pq pq' : gmap string Z) :
  (∀ sec ids i, In (sec, ids) section_map → In i ids → awarded pq' i = awarded pq i) →
  scoresBySection pq' = scoresBySection pq.
Proof.
  intros H. rewrite !scoresBySection_entries. apply map_ext_in.
  intros [sec ids] Hin. f_equal. apply section_score_ext.
  intros i Hi. now apply (H sec ids).
Qed.

Lemma generateRecommendations_ext (pq pq' : gmap string Z) (percent : option Z) :
  scoresBySection pq' = scoresBySection pq →
  generateRecommendations pq' percent = generateRecommendations pq percent.
Proof. intros E. unfold generateRecommendations. rewrite E. reflexivity. Qed.

(** X19: the award of a question that no section of the table lists, as
    E9, never changes the recommendations: recording it, changing it or
    dropping it leaves them as they are. *)
Theorem unlisted_question_never_counts (perQuestion : gmap string Z)
    (percent : option Z) (i : string) (v : Z) :
  owners i = [] →
  generateRecommendations (<[i := v]> perQuestion) percent
  = generateRecommendations perQuestion percent ∧
  generateRecommendations (delete i perQuestion) percent
  = generateRecommendations perQuestion percent.
Proof.
  intros O. pose proof (owners_none i O) as N.
  split; apply generateRecommendations_ext, scoresBySection_ext;
    intros sec ids j Hin Hj; unfold awarded;
    assert (i ≠ j) by (intros ->; exact (N sec ids Hin Hj)).
  - now rewrite lookup_insert_ne.
  - now rewrite lookup_delete_ne.
Qed.

Lemma unlisted_question_never_counts_witness :
  generateRecommendations (<["E9" := 1]> some_results) (Some 50)
  = generateRecommendations some_results (Some 50).
Proof.
  apply (unlisted_question_never_counts some_results (Some 50) "E9" 1).
  reflexivity.
Defined.

(** ** The progress store, further *)

Lemma fold_max_le (xs : list Z) (a : Z) :
  a <= fold_left Z.max xs a ∧ Forall (λ x, x <= fold_left Z.max xs a) xs.
Proof.
  revert a. induction xs as [|x xs IH]; intros a; simpl; [split; [lia|constructor]|].
  destruct (IH (Z.max a x)) as [H1 H2]. split; [lia|].
  constructor; [lia | exact H2].
Qed.

Lemma fold_max_perm (xs ys : list Z) (a : Z) :
  Permutation xs ys → fold_left Z.max xs a = fold_left Z.max ys a.
Proof.
  intros P. revert a.
  induction P as [|x l l' _ IH|x y l|l l' l'' _ IH1 _ IH2]; intros a; simpl.
  - reflexivity.
  - apply IH.
  - f_equal. lia.
  - now rewrite IH1.
Qed.

(** X20: each exam submission adds exactly 1 to the attempts of the exam
    record and sets its best to the maximum of the previous best and the
    submitted percent, leaving the lesson flags and the section records as
    they were; after any sequence of submissions the attempts have grown by
    their number and the best is at least the previous best and at least
    every percent submitted. *)
Theorem exam_submissions (p : Progress) :
  (∀ x, let p' := onFinalExamSubmit x p in
        attempts (exam p') = attempts (exam p) + 1 ∧
        best (exam p') = Z.max (best (exam p)) x ∧
        lessonsCompleted p' = lessonsCompleted p ∧
        sectionScores p' = sectionScores p) ∧
  (∀ xs, let p' := fold_left (λ q x, onFinalExamSubmit x q) xs p in
         attempts (exam p') = attempts (exam p) + Z.of_nat (List.length xs) ∧
         best (exam p') = fold_left Z.max xs (best (exam p)) ∧
         best (exam p) <= best (exam p') ∧
         Forall (λ x, x <= best (exam p')) xs ∧
         lessonsCompleted p' = lessonsCompleted p ∧
         sectionScores p' = sectionScores p).
Proof.
  split; [intros x; repeat split|].
  intros xs. cbv zeta. revert p. induction xs as [|x xs IH]; intros p.
  - simpl. repeat split; try lia. constructor.
  - cbn [fold_left List.length].
    destruct (IH (onFinalExamSubmit x p)) as (Ha & Hb & _ & _ & Hl & Hs).
    cbn [onFinalExamSubmit exam attempts best lessonsCompleted sectionScores] in *.
    rewrite Ha, Hb, Hl, Hs.
    destruct (fold_max_le xs (Z.max (best (exam p)) x)) as [L F].
    repeat split; try lia.
    constructor; [lia | exact F].
Qed.

Lemma exam_submissions_witness :
  Forall (λ x, x <= best (exam (fold_left (λ q x, onFinalExamSubmit x q) [55; 80; 21]
                                  defaultProgress))) [55; 80; 21].
Proof.
  apply (proj2 (exam_submissions defaultProgress) [55; 80; 21]).
Defined.

Lemma section_submissions_fold (s : string) (x : Z) (xs : list Z) (p : Progress) :
  fold_left (λ q y, onSectionTestSubmit s y q) (x :: xs) p
  = {| lessonsCompleted := lessonsCompleted p;
       sectionScores :=
         <[s := {| attempts := attempts_of p s + Z.of_nat (List.length (x :: xs));
                   best := fold_left Z.max (x :: xs) (best_of p s) |}]>
           (sectionScores p);
       exam := exam p |}.
Proof.
  revert x p. induction xs as [|x' xs IH]; intros x p.
  - cbn [fold_left List.length]. unfold onSectionTestSubmit. repeat f_equal.
  - change (fold_left (λ q y, onSectionTestSubmit s y q) (x :: x' :: xs) p)
      with (fold_left (λ q y, onSectionTestSubmit s y q) (x' :: xs)
              (onSectionTestSubmit s x p)).
    rewrite IH, attempts_after_submit, best_after_submit.
    cbn [onSectionTestSubmit lessonsCompleted sectionScores exam fold_left].
    rewrite insert_insert_eq. f_equal. f_equal. f_equal.
    cbn [List.length]. lia.
Qed.

(** X21: the updates of the progress commute: the submissions of one
    section may come in any order, submissions of different sections,
    exam submissions and lesson completions may be interleaved in any order,
    and the progress reached is the same. *)
Theorem progress_updates_commute (p : Progress) :
  (∀ s xs ys, Permutation xs ys →
     fold_left (λ q x, onSectionTestSubmit s x q) xs p
     = fold_left (λ q x, onSectionTestSubmit s x q) ys p) ∧
  (∀ s1 s2 x y, s1 ≠ s2 →
     onSectionTestSubmit s1 x (onSectionTestSubmit s2 y p)
     = onSectionTestSubmit s2 y (onSectionTestSubmit s1 x p)) ∧
  (∀ x y, onFinalExamSubmit x (onFinalExamSubmit y p)
          = onFinalExamSubmit y (onFinalExamSubmit x p)) ∧
  (∀ s1 l1 s2 l2,
     markLessonComplete s1 l1 (markLessonComplete s2 l2 p)
     = markLessonComplete s2 l2 (markLessonComplete s1 l1 p)) ∧
  (∀ s l s' x y,
     markLessonComplete s l (onSectionTestSubmit s' x p)
     = onSectionTestSubmit s' x (markLessonComplete s l p) ∧
     markLessonComplete s l (onFinalExamSubmit y p)
     = onFinalExamSubmit y (markLessonComplete s l p) ∧
     onFinalExamSubmit y (onSectionTestSubmit s' x p)
     = onSectionTestSubmit s' x (onFinalExamSubmit y p)).
Proof.
  split; [|split; [|split; [|split]]].
  - intros s xs ys P. destruct xs as [|x xs], ys as [|y ys].
    + reflexivity.
    + apply Permutation_nil in P. discriminate P.
    + symmetry in P. apply Permutation_nil in P. discriminate P.
    + rewrite !section_submissions_fold.
      now rewrite (Permutation_length P), (fold_max_perm _ _ _ P).
  - intros s1 s2 x y N. unfold onSectionTestSubmit, attempts_of, best_of. simpl.
    rewrite !lookup_insert_ne by congruence.
    f_equal. apply insert_insert_ne. congruence.
  - intros x y. unfold onFinalExamSubmit. simpl. f_equal. f_equal; lia.
  - intros s1 l1 s2 l2. unfold markLessonComplete. simpl. f_equal.
    destruct (decide (lesson_key s1 l1 = lesson_key s2 l2)) as [->|N];
      [reflexivity | now apply insert_insert_ne].
  - intros s l s' x y. repeat split.
Qed.

Lemma progress_updates_commute_witness :
  fold_left (λ q x, onSectionTestSubmit "macro" x q) [40; 90; 60] defaultProgress
  = fold_left (λ q x, onSectionTestSubmit "macro" x q) [90; 60; 40] defaultProgress.
Proof.
  apply (proj1 (progress_updates_commute defaultProgress) "macro"
           [40; 90; 60] [90; 60; 40]).
  apply Permutation_cons_append with (l := [90; 60]) (x := 40).
Defined.

Lemma lesson_key_cons (c : ascii) (s l : string) :
  lesson_key (String c s) l = String c (lesson_key s l).
Proof. reflexivity. Qed.

Lemma lesson_key_empty (l : string) : lesson_key "" l = String "_" l.
Proof. reflexivity. Qed.

Lemma lesson_key_inj (s1 l1 s2 l2 : string) :
  no_underscore s1 → no_underscore s2 →
  lesson_key s1 l1 = lesson_key s2 l2 → s1 = s2 ∧ l1 = l2.
Proof.
  unfold no_underscore. revert s2.
  induction s1 as [|c s1 IH]; intros [|c2 s2] H1 H2;
    rewrite ?lesson_key_cons, ?lesson_key_empty.
  - intros [= ->]. auto.
  - intros [= <- _]. cbn in H2. discriminate H2.
  - intros [= -> _]. cbn in H1. discriminate H1.
  - cbn [string_forall] in H1, H2.
    apply andb_prop in H1 as [_ H1]. apply andb_prop in H2 as [_ H2].
    intros [= -> E].
    destruct (IH s2 H1 H2 E) as [-> ->]. auto.
Qed.

(** X22: the keys of two lessons differ as soon as their sections or their
    lesson ids differ, provided the section ids hold no underscore, which is
    the case of every section of the curriculum; with an underscore in a
    section id two different lessons can share a key, and so a completion
    flag. *)
Theorem lesson_keys_do_not_collide :
  (∀ s1 l1 s2 l2, no_underscore s1 → no_underscore s2 →
     lesson_key s1 l1 = lesson_key s2 l2 → s1 = s2 ∧ l1 = l2) ∧
  Forall (λ s, no_underscore (section_id s)) curriculum ∧
  lesson_key "a_b" "c" = lesson_key "a" "b_c".
Proof.
  split; [exact lesson_key_inj|]. split; [|reflexivity].
  unfold curriculum. repeat (apply Forall_cons; split; [reflexivity|]).
  apply Forall_nil_2.
Qed.

Lemma lesson_keys_do_not_collide_witness :
  "macro" = "macro" ∧ "policy" = "policy".
Proof.
  apply (proj1 lesson_keys_do_not_collide "macro" "policy" "macro" "policy");
    reflexivity.
Defined.

(** ** Answers that quote the rubric *)

Lemma hit_quote (A k : string) :
  ¬ letter_free k →
  JS.includes (JS.toLowerCase A) (JS.toLowerCase k) = true →
  hit (JS.toLowerCase A) k = true.
Proof.
  intros N H. apply hit_all_tokens; [now apply tokens_has_letter|].
  intros p Hp. apply includes_trans with (JS.toLowerCase k); [exact H|].
  unfold tokens in Hp. apply List.filter_In in Hp as [Hp _].
  destruct (split_from_pieces (JS.toLowerCase k) "" "" false p) as (_ & a & b & E);
    [discriminate | reflexivity | exact Hp |].
  apply includes_spec. exists a, b. exact E.
Qed.

Lemma concat_includes (sep k : string) (cs : list string) :
  In k cs → ∃ a b, String.concat sep cs = a +:+ k +:+ b.
Proof.
  induction cs as [|c cs IH]; [intros []|].
  intros [->|H].
  - destruct cs as [|c' cs]; simpl.
    + exists "", "". now rewrite append_empty_r.
    + exists "", (sep +:+ String.concat sep (c' :: cs)). reflexivity.
  - destruct (IH H) as (a & b & E). destruct cs as [|c' cs]; [destruct H|].
    change (String.concat sep (c :: c' :: cs))
      with (c +:+ sep +:+ String.concat sep (c' :: cs)).
    rewrite E. exists (c +:+ sep +:+ a), b. now rewrite !append_assoc.
Qed.

Lemma score_all_hit (A : string) (cs : list string) (m : Z) :
  cs ≠ [] → m ≠ 0 → JS.nonempty A = true →
  Forall (λ k, hit (JS.toLowerCase A) k = true) cs →
  scoreShortAnswer A {| criteria := cs; r_maxScore := m |} = m.
Proof.
  intros Hc Hm HA H. rewrite scoreShortAnswer_closed, HA.
  unfold hits, criteria_count, max_score. cbn [criteria r_maxScore].
  assert (E : List.filter (hit (JS.toLowerCase A)) cs = cs).
  { clear Hc. induction H as [|k ks Hk _ IH]; simpl; [reflexivity|].
    now rewrite Hk, IH. }
  rewrite E. set (n := Z.of_nat (List.length cs)).
  assert (Hn : 0 < n) by (destruct cs; [congruence | subst n; cbn [List.length]; lia]).
  rewrite (or_default_id n 3) by lia. rewrite (or_default_id m 3 Hm).
  symmetry. apply Z.div_unique with (r := n); lia.
Qed.

(** X23: an answer made of the criteria of the rubric, joined by any
    separator, earns the maximum score, whatever it says otherwise: this
    holds for every rubric with at least one criterion, each holding a
    letter, and a maximum score other than 0. *)
Theorem quoting_the_rubric_earns_full_marks (sep : string) (cs : list string) (m : Z) :
  cs ≠ [] → m ≠ 0 → Forall (λ k, ¬ letter_free k) cs →
  scoreShortAnswer (String.concat sep cs) {| criteria := cs; r_maxScore := m |} = m.
Proof.
  intros Hc Hm Hl.
  assert (Hh : Forall (λ k, hit (JS.toLowerCase (String.concat sep cs)) k = true) cs).
  { apply List.Forall_forall. intros k Hk.
    apply hit_quote; [now apply (proj1 (List.Forall_forall _ _) Hl)|].
    destruct (concat_includes sep k cs Hk) as (a & b & E).
    rewrite E, !toLowerCase_app. apply includes_spec. eauto. }
  apply score_all_hit; auto.
  destruct cs as [|k cs']; [congruence|].
  apply Forall_cons in Hh as [Hk _]. apply Forall_cons in Hl as [Nk _].
  rewrite <- nonempty_toLowerCase.
  destruct (JS.toLowerCase (String.concat sep (k :: cs'))) eqn:E; [|reflexivity].
  exfalso. unfold hit in Hk. apply existsb_exists in Hk as (p & Hp & Hi).
  rewrite includes_empty_text in Hi; [discriminate|]. now apply (tokens_nonempty k).
Qed.

Lemma quoting_the_rubric_earns_full_marks_witness :
  scoreShortAnswer "CS falls; PS rises; Gov revenue rectangles; DWL triangles"
    {| criteria := ["CS falls"; "PS rises"; "Gov revenue rectangles"; "DWL triangles"];
       r_maxScore := 4 |} = 4.
Proof.
  apply (quoting_the_rubric_earns_full_marks "; "
           ["CS falls"; "PS rises"; "Gov revenue rectangles"; "DWL triangles"] 4).
  - discriminate.
  - lia.
  - repeat constructor; unfold letter_free; discriminate.
Defined.

(** ** The root component *)

Lemma array_get_Some {A : Type} (l : list A) (i : Z) (x : A) :
  array_get l i = Some x → 0 <= i < Z.of_nat (List.length l) ∧ In x l.
Proof.
  unfold array_get. destruct (Z.ltb_spec i 0) as [L|L]; [discriminate|].
  intros H. split.
  - apply lookup_lt_Some in H. lia.
  - apply list_elem_of_In. eapply list_elem_of_lookup_2. exact H.
Qed.

Lemma array_get_is_Some {A : Type} (l : list A) (i : Z) :
  0 <= i < Z.of_nat (List.length l) → is_Some (array_get l i).
Proof.
  intros H. unfold array_get. destruct (Z.ltb_spec i 0) as [L|L]; [lia|].
  apply lookup_lt_is_Some. lia.
Qed.

Lemma curriculum_length : List.length curriculum = 6%nat.
Proof. reflexivity. Qed.

Lemma curriculum_lessons (s : CSection) :
  In s curriculum → (0 < List.length (lessons s))%nat.
Proof.
  assert (F : forallb (λ s, negb (List.length (lessons s) =? 0)%nat) curriculum = true)
    by (vm_compute; reflexivity).
  intros H. rewrite forallb_forall in F. specialize (F s H).
  destruct (List.length (lessons s)); [discriminate | lia].
Qed.

Lemma valid_view_lesson (v : View) :
  valid_view v → is_Some (currentSection v) ∧ is_Some (currentLesson v).
Proof.
  intros (s & Hs & Hl). unfold currentLesson. rewrite Hs. simpl.
  split; [eauto | now apply array_get_is_Some].
Qed.

Lemma valid_view_at (m : Mode) (i : nat) :
  (i < List.length curriculum)%nat →
  valid_view {| mode := m; sectionIndex := Z.of_nat i; lessonIndex := 0 |}.
Proof.
  intros H. unfold valid_view, currentSection. cbn [sectionIndex lessonIndex].
  destruct (array_get_is_Some curriculum (Z.of_nat i)) as [s Hs]; [lia|].
  exists s. split; [exact Hs|].
  apply array_get_Some in Hs as [_ Hin]. pose proof (curriculum_lessons s Hin). lia.
Qed.

Lemma valid_view_mode (m : Mode) (v : View) :
  valid_view v → valid_view (with_mode m v).
Proof. intros (s & Hs & Hl). exists s. split; assumption. Qed.

(** Every handler keeps the view on a lesson of the curriculum, and none
    throws from such a view. *)
Lemma handle_valid (a : App) (e : Event) :
  valid_view (view a) → offered e →
  ∃ a', IbEconTutor.handle a e = Some a' ∧ valid_view (view a').
Proof.
  intros V O. pose proof V as (s & Hs & Hl).
  destruct (valid_view_lesson _ V) as [_ [L HL]].
  destruct e; simpl in *;
    try (eexists; split; [reflexivity|]; cbn [view set_view];
         first [exact V | now apply valid_view_mode]).
  - eexists. split; [reflexivity|]. cbn [view set_view].
    apply (valid_view_at m_home 0). rewrite curriculum_length. lia.
  - eexists. split; [reflexivity|]. cbn [view set_view]. now apply valid_view_at.
  - eexists. split; [reflexivity|]. cbn [view set_view].
    exists s. split; [exact Hs|]. unfold IbEconTutor.onPrev. cbn [lessonIndex]. lia.
  - unfold IbEconTutor.onNext. rewrite Hs. cbn [mbind option_bind].
    eexists. split; [reflexivity|]. cbn [view set_view].
    exists s. split; [exact Hs|]. cbn [lessonIndex]. lia.
  - unfold IbEconTutor.markLessonComplete. rewrite Hs, HL. cbn [mbind option_bind].
    eexists. split; [reflexivity|]. exact V.
  - unfold IbEconTutor.onSectionTestSubmit. rewrite Hs. cbn [mbind option_bind].
    eexists. split; [reflexivity|]. cbn [view set_view set_progress].
    now apply valid_view_mode.
Qed.

Lemma init_valid (p : Progress) (st : Settings) :
  valid_view (view (IbEconTutor.init p st)).
Proof. apply (valid_view_at m_home 0). rewrite curriculum_length. lia. Qed.

Lemma run_valid (a : App) (es : list Event) :
  valid_view (view a) → Forall offered es →
  ∃ a', IbEconTutor.run a es = Some a' ∧ valid_view (view a').
Proof.
  intros V F. revert a V. induction F as [|e es O _ IH]; intros a V; simpl.
  - eauto.
  - destruct (handle_valid a e V O) as (a1 & -> & V1). simpl. now apply IH.
Qed.

(** X24: whatever the user does, in any order, no handler of the root
    component throws and the view stays on a section of the curriculum and
    on one of its lessons: [currentSection] and [currentLesson] are always
    defined. *)
Theorem navigation_stays_in_the_curriculum (p : Progress) (st : Settings)
    (es : list Event) :
  Forall offered es →
  ∃ a, IbEconTutor.run (IbEconTutor.init p st) es = Some a ∧
       is_Some (currentSection (view a)) ∧
       is_Some (currentLesson (view a)) ∧
       0 <= sectionIndex (view a) < 6 ∧
       0 <= lessonIndex (view a) < 3.
Proof.
  intros F. destruct (run_valid _ es (init_valid p st) F) as (a & Ha & V).
  exists a. split; [exact Ha|].
  destruct (valid_view_lesson _ V) as [H1 H2]. split; [exact H1|]. split; [exact H2|].
  destruct V as (s & Hs & Hl). unfold currentSection in Hs.
  apply array_get_Some in Hs as [Hi Hin]. rewrite curriculum_length in Hi.
  split; [lia|].
  assert (E : List.length (lessons s) = 3%nat).
  { assert (F3 : forallb (λ s, (List.length (lessons s) =? 3)%nat) curriculum = true)
      by (vm_compute; reflexivity).
    rewrite forallb_forall in F3. now apply Nat.eqb_eq, F3. }
  lia.
Qed.

Lemma navigation_stays_in_the_curriculum_witness :
  ∃ a, IbEconTutor.run (IbEconTutor.init defaultProgress {| apiKey := None; name := "" |})
         [Select 5; Next; Next; Next; MarkLessonComplete; Prev; OpenTest;
          SectionTestSubmit 80]
       = Some a ∧
       is_Some (currentLesson (view a)).
Proof.
  destruct (navigation_stays_in_the_curriculum defaultProgress
              {| apiKey := None; name := "" |}
              [Select 5; Next; Next; Next; MarkLessonComplete; Prev; OpenTest;
               SectionTestSubmit 80])
    as (a & Ha & _ & Hl & _).
  - repeat constructor.
  - exists a. split; assumption.
Defined.

Lemma attempts_of_sound (p : Progress) (s : string) :
  sound_progress p → 0 <= attempts_of p s ∧ 0 <= best_of p s.
Proof.
  intros (_ & Hs & _). unfold attempts_of, best_of. rewrite !or_default_zero.
  destruct (sectionScores p !! s) as [r|] eqn:E; simpl; [|lia].
  destruct (Hs s r E) as (_ & Ha & Hb). lia.
Qed.

Lemma defaultProgress_sound : sound_progress defaultProgress.
Proof.
  unfold sound_progress, defaultProgress. cbn [lessonsCompleted sectionScores exam attempts best].
  split; [|split; [|lia]].
  - intros k b H. now rewrite lookup_empty in H.
  - intros k r H. now rewrite lookup_empty in H.
Qed.

Lemma handle_sound (a a' : App) (e : Event) :
  sound_progress (progress a) →
  IbEconTutor.handle a e = Some a' →
  sound_progress (progress a') ∧
  attempts (exam (progress a'))
  = attempts (exam (progress a))
    + match e with FinalExamSubmit _ => 1 | _ => 0 end.
Proof.
  intros S. pose proof S as (Sl & Ss & Sa & Sb).
  destruct e; simpl;
    try (intros [= <-]; cbn [progress set_view]; split; [exact S | lia]).
  - destruct (IbEconTutor.onNext (view a)); simpl; [|discriminate].
    intros [= <-]. split; [exact S | cbn; lia].
  - unfold IbEconTutor.markLessonComplete.
    destruct (currentSection (view a)) as [s|] eqn:Hs; simpl; [|discriminate].
    destruct (currentLesson (view a)) as [L|] eqn:HL; simpl; [|discriminate].
    intros [= <-]. cbn [progress set_progress]. split; [|cbn [markLessonComplete onSectionTestSubmit onFinalExamSubmit exam attempts]; lia].
    unfold currentLesson in HL. rewrite Hs in HL. simpl in HL.
    apply array_get_Some in Hs as [_ Hs]. apply array_get_Some in HL as [_ HL].
    split; [|split; [exact Ss | split; assumption]].
    intros k b. cbn [markLessonComplete lessonsCompleted].
    destruct (decide (lesson_key (section_id s) (lesson_id L) = k)) as [<-|N].
    + rewrite lookup_insert_eq. intros [= <-]. split; [reflexivity|]. eauto.
    + rewrite lookup_insert_ne by exact N. apply Sl.
  - unfold IbEconTutor.onSectionTestSubmit.
    destruct (currentSection (view a)) as [s|] eqn:Hs; simpl; [|discriminate].
    intros [= <-]. cbn [progress set_progress set_view].
    split; [|cbn [onSectionTestSubmit exam]; lia].
    apply array_get_Some in Hs as [_ Hs].
    destruct (attempts_of_sound (progress a) (section_id s) S) as [A0 B0].
    split; [exact Sl|]. split; [|split; assumption].
    intros k r. cbn [onSectionTestSubmit sectionScores].
    destruct (decide (section_id s = k)) as [<-|N].
    + rewrite lookup_insert_eq. intros [= <-]. cbn [attempts best].
      split; [eauto|]. lia.
    + rewrite lookup_insert_ne by exact N. apply Ss.
  - intros [= <-]. cbn [IbEconTutor.onFinalExamSubmit progress set_progress set_view].
    cbn [onFinalExamSubmit exam attempts best lessonsCompleted sectionScores].
    split; [|reflexivity]. split; [exact Sl|]. split; [exact Ss|].
    unfold onFinalExamSubmit. cbn [exam attempts best]. lia.
Qed.

Lemma run_sound (a a' : App) (es : list Event) :
  sound_progress (progress a) →
  IbEconTutor.run a es = Some a' →
  sound_progress (progress a') ∧
  attempts (exam (progress a'))
  = attempts (exam (progress a)) + Z.of_nat (exam_submits es).
Proof.
  revert a. induction es as [|e es IH]; intros a S; simpl.
  - intros [= <-]. unfold exam_submits. simpl. split; [exact S | lia].
  - destruct (IbEconTutor.handle a e) as [a1|] eqn:H; simpl; [|discriminate].
    intros R. destruct (handle_sound a a1 e S H) as [S1 E1].
    destruct (IH a1 S1 R) as [S2 E2]. split; [exact S2|].
    rewrite E2, E1. unfold exam_submits. simpl.
    destruct e; simpl List.length; lia.
Qed.

(** X25: starting from the default progress, whatever the user does, the
    progress only ever holds completion flags of lessons of the curriculum,
    all of them true, and test records of sections of the curriculum, each
    with at least one attempt and a best that is not negative; the attempts
    of the exam count the exam submissions. *)
Theorem progress_stays_sound (st : Settings) (es : list Event) :
  Forall offered es →
  ∃ a, IbEconTutor.run (IbEconTutor.init defaultProgress st) es = Some a ∧
       sound_progress (progress a) ∧
       attempts (exam (progress a)) = Z.of_nat (exam_submits es).
Proof.
  intros F.
  destruct (run_valid _ es (init_valid defaultProgress st) F) as (a & Ha & _).
  exists a. split; [exact Ha|].
  destruct (run_sound (IbEconTutor.init defaultProgress st) a es
              defaultProgress_sound Ha) as [S E].
  split; [exact S|]. rewrite E. reflexivity.
Qed.

Lemma progress_stays_sound_witness :
  ∃ a, IbEconTutor.run (IbEconTutor.init defaultProgress {| apiKey := None; name := "" |})
         [Select 3; MarkLessonComplete; OpenExam; FinalExamSubmit 21;
          FinalExamSubmit 64]
       = Some a ∧
       attempts (exam (progress a)) = 2.
Proof.
  destruct (progress_stays_sound {| apiKey := None; name := "" |}
              [Select 3; MarkLessonComplete; OpenExam; FinalExamSubmit 21;
               FinalExamSubmit 64])
    as (a & Ha & _ & He).
  - repeat constructor.
  - exists a. split; assumption.
Defined.

(** ** The dashboard *)

Lemma completed_after_mark (s : CSection) (p : Progress) (L : Lesson)
    (s0 l0 : string) :
  Dashboard.completed s (markLessonComplete s0 l0 p) L
  = bool_decide (lesson_key s0 l0 = lesson_key (section_id s) (lesson_id L))
    || Dashboard.completed s p L.
Proof.
  unfold Dashboard.completed, markLessonComplete. cbn [lessonsCompleted].
  case_bool_decide as E.
  - rewrite E, lookup_insert_eq. reflexivity.
  - rewrite lookup_insert_ne by exact E. reflexivity.
Qed.

Lemma mark_all_completed (s : CSection) (ls : list Lesson) (p : Progress) :
  let p' := fold_left (λ q L, markLessonComplete (section_id s) (lesson_id L) q) ls p in
  (∀ L, In L ls → Dashboard.completed s p' L = true) ∧
  (∀ L, Dashboard.completed s p L = true → Dashboard.completed s p' L = true).
Proof.
  cbv zeta. revert p. induction ls as [|L0 ls IH]; intros p; simpl.
  - split; [intros L [] | auto].
  - destruct (IH (markLessonComplete (section_id s) (lesson_id L0) p)) as [H1 H2].
    split.
    + intros L [<-|H]; [|now apply H1].
      apply H2. rewrite completed_after_mark, bool_decide_eq_true_2; reflexivity.
    + intros L H. apply H2. rewrite completed_after_mark, H. apply orb_true_r.
Qed.

Lemma filter_all {A : Type} (f : A → bool) (l : list A) :
  (∀ x, In x l → f x = true) → List.filter f l = l.
Proof.
  induction l as [|x l IH]; intros H; simpl; [reflexivity|].
  rewrite (H x (or_introl eq_refl)), IH; [reflexivity|].
  intros y Hy. apply H. now right.
Qed.

(** X26: on the dashboard the share of completed lessons of a section with
    lessons is an integer from 0 to 100; it is 100 once every lesson of the
    section has been marked complete, completing a lesson never lowers the
    count of any section, and, section ids holding no underscore, completing
    a lesson of one section leaves the count of every other section as it
    was. The best score shown for a section is the maximum of the percents
    submitted for it. *)
Theorem dashboard_counts (s : CSection) (p : Progress) :
  0 <= Dashboard.completedLessons s p <= Z.of_nat (List.length (lessons s)) ∧
  (lessons s ≠ [] →
   ∃ v, Dashboard.percentLessons s p = Some v ∧ 0 <= v <= 100) ∧
  (lessons s ≠ [] →
   Dashboard.percentLessons s
     (fold_left (λ q L, markLessonComplete (section_id s) (lesson_id L) q) (lessons s) p)
   = Some 100) ∧
  (∀ s0 l0,
     Dashboard.completedLessons s p
     <= Dashboard.completedLessons s (markLessonComplete s0 l0 p)) ∧
  (∀ s0 l0, no_underscore s0 → no_underscore (section_id s) → s0 ≠ section_id s →
     Dashboard.completedLessons s (markLessonComplete s0 l0 p)
     = Dashboard.completedLessons s p) ∧
  (∀ x, Dashboard.best s (onSectionTestSubmit (section_id s) x p)
        = Z.max (Dashboard.best s p) x).
Proof.
  assert (B : 0 <= Dashboard.completedLessons s p <= Z.of_nat (List.length (lessons s))).
  { unfold Dashboard.completedLessons.
    pose proof (filter_length_le (Dashboard.completed s p) (lessons s)). lia. }
  assert (N : lessons s ≠ [] → 0 < Z.of_nat (List.length (lessons s))).
  { destruct (lessons s); [congruence | cbn [List.length]; lia]. }
  split; [exact B|]. split; [|split; [|split; [|split]]].
  - intros H. apply percent_of_range; [exact B | now apply N].
  - intros H. unfold Dashboard.percentLessons, Dashboard.completedLessons.
    destruct (mark_all_completed s (lessons s) p) as [H1 _].
    rewrite (filter_all _ _ H1). apply percent_of_full. now apply N.
  - intros s0 l0. unfold Dashboard.completedLessons. apply Nat2Z.inj_le.
    apply filter_length_mono. intros L H.
    rewrite completed_after_mark, H. apply orb_true_r.
  - intros s0 l0 U0 U D. unfold Dashboard.completedLessons. do 2 f_equal.
    apply filter_ext. intros L. rewrite completed_after_mark.
    rewrite bool_decide_eq_false_2; [reflexivity|].
    intros E. apply lesson_key_inj in E as [E _]; auto.
  - intros x. unfold Dashboard.best, onSectionTestSubmit. cbn [sectionScores].
    rewrite lookup_insert_eq. cbn [from_option best].
    unfold best_of. now rewrite or_default_zero.
Qed.

Lemma dashboard_counts_witness :
  Dashboard.percentLessons
    {| section_id := "macro"; section_title := "Macroeconomics";
       lessons := [ {| lesson_id := "adas"; lesson_title := "AD & AS"; md := "" |};
                    {| lesson_id := "policy"; lesson_title := "Policy"; md := "" |} ];
       test := {| questions := [] |} |}
    (markLessonComplete "macro" "policy" (markLessonComplete "macro" "adas" defaultProgress))
  = Some 100.
Proof.
  apply (proj1 (proj2 (proj2 (dashboard_counts
           {| section_id := "macro"; section_title := "Macroeconomics";
              lessons := [ {| lesson_id := "adas"; lesson_title := "AD & AS"; md := "" |};
                           {| lesson_id := "policy"; lesson_title := "Policy"; md := "" |} ];
              test := {| questions := [] |} |} defaultProgress)))).
  discriminate.
Defined.

(** ** The course as data *)

Lemma find_none_iff {A : Type} (f : A → bool) (l : list A) :
  (∀ x, In x l → f x = false) → List.find f l = None.
Proof.
  induction l as [|x l IH]; intros H; simpl; [reflexivity|].
  rewrite (H x (or_introl eq_refl)). apply IH. intros y Hy. apply H. now right.
Qed.

Lemma title_of_table_id (k : string) :
  In k (map fst section_map) →
  ∃ s, List.find (λ s, String.eqb (section_id s) k) curriculum = Some s ∧
       JS.nonempty (section_title s) = true.
Proof.
  intros H. unfold section_map in H. cbn [map fst] in H.
  split_in H; subst k;
    (eexists; split; [vm_compute; reflexivity | vm_compute; reflexivity]).
Qed.

(** X27: the sections of the recommendation table are the sections of the
    curriculum, in the same order, so that every weak section reported has a
    title, the one of its section; for an id that no section bears, the title
    is the id itself. *)
Theorem recommended_sections_have_titles :
  map section_id curriculum = map fst section_map ∧
  (∀ perQuestion percent w,
     In w (weakSections (generateRecommendations perQuestion percent)) →
     ∃ s, In s curriculum ∧ section_id s = sectionId w ∧
          titleForSectionId (sectionId w) = section_title s ∧
          JS.nonempty (section_title s) = true) ∧
  (∀ i, (∀ s, In s curriculum → section_id s ≠ i) → titleForSectionId i = i).
Proof.
  split; [vm_compute; reflexivity|]. split.
  - intros pq pc w Hw.
    apply list_elem_of_In, list_elem_of_lookup_1 in Hw as [i Hi].
    apply weakSections_lookup in Hi.
    apply list_elem_of_lookup_2, list_elem_of_In in Hi.
    apply (sublist_In _ _ _ (sublist_take _ 3)) in Hi.
    apply sorted_candidates_In in Hi as [Hi _].
    apply (in_map fst) in Hi. rewrite scoresBySection_keys in Hi. cbn [fst] in Hi.
    destruct (title_of_table_id _ Hi) as (s & F & T).
    exists s. pose proof (List.find_some _ _ F) as [Hs E].
    apply String.eqb_eq in E.
    split; [exact Hs|]. split; [exact E|]. split; [|exact T].
    unfold titleForSectionId. now rewrite F, T.
  - intros i H. unfold titleForSectionId. rewrite find_none_iff; [reflexivity|].
    intros s Hs. apply String.eqb_neq. now apply H.
Qed.

Lemma recommended_sections_have_titles_witness :
  titleForSectionId "sec-7" = "sec-7".
Proof.
  apply (proj2 (proj2 recommended_sections_have_titles) "sec-7").
  intros s Hs. unfold curriculum in Hs. split_in Hs; subst s; discriminate.
Defined.

Lemma well_formed_positive (q : Question) : well_formed q = true → 0 < maxScore q.
Proof. unfold well_formed. intros [H _]%andb_prop. now apply Z.ltb_lt. Qed.

Lemma has_letter_spec (k : string) : has_letter k = true → ¬ letter_free k.
Proof.
  unfold has_letter, letter_free.
  destruct (string_forall _ k); [discriminate | discriminate].
Qed.

Lemma well_formed_full_marks (q : Question) :
  well_formed q = true → type q = short →
  ∃ r, rubric q = Some r ∧
       scoreShortAnswer (String.concat "; " (q_criteria r)) (rubric_of q) = maxScore q.
Proof.
  unfold well_formed. intros [M W]%andb_prop T. rewrite T in W.
  destruct (rubric q) as [r|] eqn:R; [|discriminate]. exists r. split; [reflexivity|].
  apply andb_prop in W as [Wn Wl]. apply Z.ltb_lt in M.
  unfold rubric_of. rewrite R. cbn [from_option].
  set (cs := q_criteria r) in *.
  assert (Hc : cs ≠ []) by (destruct cs; [discriminate Wn | discriminate]).
  rewrite forallb_forall in Wl.
  assert (Hh : Forall (λ k, hit (JS.toLowerCase (String.concat "; " cs)) k = true) cs).
  { apply List.Forall_forall. intros k Hk.
    apply hit_quote; [apply has_letter_spec; now apply Wl|].
    destruct (concat_includes "; " k cs Hk) as (a & b & E).
    rewrite E, !toLowerCase_app. apply includes_spec. eauto. }
  apply score_all_hit; [exact Hc | lia | | exact Hh].
  destruct cs as [|k cs']; [congruence|].
  apply Forall_cons in Hh as [Hk _].
  rewrite <- nonempty_toLowerCase.
  destruct (JS.toLowerCase (String.concat "; " (k :: cs'))) eqn:E; [|reflexivity].
  exfalso. unfold hit in Hk. apply existsb_exists in Hk as (p & Hp & Hi).
  rewrite includes_empty_text in Hi; [discriminate|]. now apply (tokens_nonempty k).
Qed.

Lemma all_questions_well_formed : forallb well_formed all_questions = true.
Proof. vm_compute. reflexivity. Qed.

Lemma section_tests_shape :
  forallb (λ s, (List.length (questions (test s)) =? 5)%nat
                && (total (questions (test s)) =? 9)) curriculum = true.
Proof. vm_compute. reflexivity. Qed.

Lemma section_test_In (s : CSection) (q : Question) :
  In s curriculum → In q (questions (test s)) → In q all_questions.
Proof.
  intros Hs Hq. unfold all_questions. apply in_or_app. left.
  apply in_concat. exists (questions (test s)). split; [|exact Hq].
  apply (in_map (λ s, questions (test s)) _ _ Hs).
Qed.

(** X28: every question of the course, in the six section tests and in the
    final exam, keeps the invariant of a question, and no two questions share
    an id; each section test has 5 questions worth 9 points. Hence every
    section test that returns, the service giving no response with a numeral
    of more than 308 digits, gives a percent from 0 to 100, and every
    short-answer question can be given full marks: by the text of its own
    criteria, as the page shows them under the answer box. *)
Theorem course_questions_are_well_formed :
  Forall (λ q, well_formed q = true) all_questions ∧
  NoDup (map id all_questions) ∧
  (∀ s, In s curriculum →
     List.length (questions (test s)) = 5%nat ∧ total (questions (test s)) = 9 ∧
     ∀ answers apiKey net r,
       service_in_range apiKey net →
       SectionTest.grade (questions (test s)) answers apiKey net = Some r →
       ∃ p, SectionTest.percent r = Some p ∧ 0 <= p <= 100) ∧
  (∀ q, In q all_questions → type q = short →
     ∃ r, rubric q = Some r ∧
          scoreShortAnswer (String.concat "; " (q_criteria r)) (rubric_of q)
          = maxScore q).
Proof.
  pose proof all_questions_well_formed as W. rewrite forallb_forall in W.
  split; [now apply List.Forall_forall|]. split.
  { apply (bool_decide_unpack (NoDup (map id all_questions))). vm_compute. reflexivity. }
  split.
  - intros s Hs. pose proof section_tests_shape as Sh.
    rewrite forallb_forall in Sh. specialize (Sh s Hs).
    apply andb_prop in Sh as [L T]. apply Nat.eqb_eq in L. apply Z.eqb_eq in T.
    split; [exact L|]. split; [exact T|].
    intros answers key net r S. unfold SectionTest.grade.
    destruct (for_of _ SectionTest.init (questions (test s))) as [st|] eqn:Lp;
      cbn [mbind option_bind]; [|discriminate].
    intros [= <-]. cbn [SectionTest.percent].
    destruct (section_loop_totals answers key net _ _ _ Lp) as (Hm & _ & Hp).
    cbn [SectionTest.init SectionTest.max SectionTest.points] in Hm, Hp.
    rewrite T in Hm, Hp.
    assert (F : Forall (λ q, 0 < maxScore q) (questions (test s))).
    { apply List.Forall_forall. intros q Hq.
      apply well_formed_positive, W. now apply (section_test_In s). }
    specialize (Hp F S). apply percent_of_range; lia.
  - intros q Hq T. apply well_formed_full_marks; [now apply W | exact T].
Qed.

Lemma course_questions_are_well_formed_witness :
  ∃ r, rubric (short_question "E12"
                 "Using welfare areas, explain how a tariff affects CS, PS, government revenue, and DWL."
                 ["CS falls"; "PS rises"; "Gov revenue rectangles"; "DWL triangles"]
                 "Use standard partial-equilibrium analysis." 4) = Some r ∧
       scoreShortAnswer (String.concat "; " (q_criteria r))
         (rubric_of (short_question "E12"
                 "Using welfare areas, explain how a tariff affects CS, PS, government revenue, and DWL."
                 ["CS falls"; "PS rises"; "Gov revenue rectangles"; "DWL triangles"]
                 "Use standard partial-equilibrium analysis." 4)) = 4.
Proof.
  apply (proj2 (proj2 (proj2 course_questions_are_well_formed))).
  - unfold all_questions. apply in_or_app. right. unfold finalExam. simpl. auto 20.
  - reflexivity.
Defined.
